(** * zfsHeartbeat: the pool-status parser, the health evaluator, the
      self-test analyzer and the free space of the pools, of [zpool.go]
      and [main.go]

    The development embeds the Go code as Rocq functions:

    - text is [string] (a sequence of bytes), integers of Go type [int]
      are [Z];
    - the library calls the code makes ([strings], [fmt.Sscanf],
      [regexp], [bufio.Scanner], [strconv.Atoi], [float32] arithmetic) are
      given executable models in the first modules;
    - [parsePoolState] threads the pool list, the parse state and the
      scanner explicitly; errors are values.

    The models of the library calls read bytes where Go reads runes: they
    agree with Go on ASCII text, which is what [zpool status],
    [smartctl] and [zfs list] print. *)

From Stdlib Require Import ZArith List String Ascii Bool Lia.
From Stdlib Require Import DecimalString.
From Stdlib Require Import Floats.SpecFloat.
Import ListNotations.

Local Open Scope string_scope.
Local Open Scope Z_scope.

(* ================================================================== *)
(** * Package [strings] *)
(* ================================================================== *)

Module Strings.

(** [asciiSpace] of package [strings], also the ASCII part of [isSpace]
    of package [fmt]: ['\t'], ['\n'], ['\v'], ['\f'], ['\r'], [' ']. *)
Definition isSpace (c : ascii) : bool :=
  let n := nat_of_ascii c in
  ((9 <=? n)%nat && (n <=? 13)%nat) || (n =? 32)%nat.

Definition isDigit (c : ascii) : bool :=
  let n := nat_of_ascii c in (48 <=? n)%nat && (n <=? 57)%nat.

Definition isUpper (c : ascii) : bool :=
  let n := nat_of_ascii c in (65 <=? n)%nat && (n <=? 90)%nat.

Definition isLower (c : ascii) : bool :=
  let n := nat_of_ascii c in (97 <=? n)%nat && (n <=? 122)%nat.

(** [strings.HasPrefix(s, prefix)]. *)
Definition HasPrefix (s prefix : string) : bool := String.prefix prefix s.

(** [strings.Contains(s, substr)]. *)
Fixpoint Contains (s substr : string) : bool :=
  String.prefix substr s
  || match s with
     | EmptyString => false
     | String _ s' => Contains s' substr
     end.

Fixpoint trimLeft (s : string) : string :=
  match s with
  | String c s' => if isSpace c then trimLeft s' else s
  | EmptyString => EmptyString
  end.

(** Drops the trailing white space: a character is kept when it is not a
    space or when something is kept after it. *)
Fixpoint trimRight (s : string) : string :=
  match s with
  | EmptyString => EmptyString
  | String c s' =>
      match trimRight s' with
      | EmptyString => if isSpace c then EmptyString else String c EmptyString
      | t => String c t
      end
  end.

(** [strings.TrimSpace(s)]. *)
Definition TrimSpace (s : string) : string := trimRight (trimLeft s).

(** [strings.Join(elems, sep)]. *)
Fixpoint Join (elems : list string) (sep : string) : string :=
  match elems with
  | [] => ""
  | [x] => x
  | x :: rest => x ++ sep ++ Join rest sep
  end.

(** [%d] of [fmt.Sprintf] on an [int]. *)
Definition itoa (z : Z) : string := NilZero.string_of_int (Z.to_int z).

End Strings.

(* ================================================================== *)
(** * Package [bufio]: [Scanner] with the default [ScanLines] *)
(* ================================================================== *)

Module Bufio.

(** [bufio.MaxScanTokenSize]: a line and its terminator must fit in a
    buffer of this size. *)
Definition MaxScanTokenSize : N := 65536.

(** [dropCR]: one trailing carriage return is removed from a line. *)
Fixpoint dropCR (s : string) : string :=
  match s with
  | EmptyString => EmptyString
  | String c EmptyString =>
      if Ascii.eqb c "013" then EmptyString else s
  | String c s' => String c (dropCR s')
  end.

(** The pieces of the text between newlines; the piece after the last
    newline is a line only when it is not empty. *)
Fixpoint splitLines (s : string) (cur : string) : list string :=
  match s with
  | EmptyString =>
      match cur with EmptyString => [] | _ => [cur] end
  | String c s' =>
      if Ascii.eqb c "010" then cur :: splitLines s' ""
      else splitLines s' (cur ++ String c "")
  end.

(** A line longer than the buffer makes [Scan] return [false]
    ([ErrTooLong]); the loop of [parsePools] ends there, without looking
    at [scanner.Err()]. *)
Fixpoint untilTooLong (ls : list string) : list string :=
  match ls with
  | [] => []
  | l :: rest =>
      if (N.of_nat (String.length l) <? MaxScanTokenSize)%N
      then l :: untilTooLong rest
      else []
  end.

(** The tokens that successive calls of [scanner.Scan()] hand out, as
    [scanner.Text()] returns them. *)
Definition tokens (text : string) : list string :=
  map dropCR (untilTooLong (splitLines text "")).

End Bufio.

(* ================================================================== *)
(** * Package [fmt]: [Sscanf] *)
(* ================================================================== *)

Module Fmt.

Import Strings.

(** Why a scan stopped. *)
Inductive scanError : Type :=
| errEOF                (* a verb found no input left *)
| errUnexpectedEOF      (* a literal of the format found no input left *)
| errNewline            (* "unexpected newline" *)
| errExpectedSpace      (* "expected space in input to match format" *)
| errNoMatch            (* "input does not match format" *)
| errExpectedInteger    (* "expected integer" *)
| errSyntax             (* strconv.ParseInt: invalid syntax *)
| errRange.             (* strconv.ParseInt: value out of range *)

(** The scan state [ss] is the input that remains; a scan either fails
    or yields a value and the rest of the input. *)
Definition scan (A : Type) : Type := string -> scanError + (A * string).

Definition ret {A} (a : A) : scan A := fun s => inr (a, s).

Definition bind {A B} (m : scan A) (f : A -> scan B) : scan B :=
  fun s => match m s with
           | inl e => inl e
           | inr (a, s') => f a s'
           end.

Declare Scope scan_scope.
Delimit Scope scan_scope with scan.
Notation "x <- m ;; k" := (bind m (fun x => k))
  (at level 61, m at next level, right associativity) : scan_scope.
Notation "m ;; k" := (bind m (fun _ => k))
  (at level 61, right associativity) : scan_scope.
Local Open Scope scan_scope.

Definition isNewline (c : ascii) : bool := Ascii.eqb c "010".

(** The loop [for isSpace(inputc) && inputc != '\n'] of [advance]. *)
Fixpoint skipBlanks (s : string) : string :=
  match s with
  | String c s' =>
      if isSpace c && negb (isNewline c) then skipBlanks s' else s
  | EmptyString => EmptyString
  end.

(** [ss.SkipSpace]: a newline is an error for [Sscanf]. *)
Fixpoint SkipSpace (s : string) : scanError + (unit * string) :=
  match s with
  | EmptyString => inr (tt, EmptyString)
  | String c s' =>
      if isNewline c then inl errNewline
      else if isSpace c then SkipSpace s'
      else inr (tt, s)
  end.

(** [ss.notEOF]. *)
Definition notEOF : scan unit :=
  fun s => match s with
           | EmptyString => inl errEOF
           | _ => inr (tt, s)
           end.

(** [ss.token(false, notSpace)]: the next word. *)
Fixpoint word (s : string) : string * string :=
  match s with
  | EmptyString => (EmptyString, EmptyString)
  | String c s' =>
      if isSpace c then (EmptyString, s)
      else let (w, r) := word s' in (String c w, r)
  end.

(** A run of spaces in the format, with no newline in it: the input
    must be at its end or continue with a space, and the spaces that
    follow are consumed. *)
Definition fmtSpace : scan unit :=
  fun s => match s with
           | EmptyString => inr (tt, EmptyString)
           | String c s' =>
               if negb (isSpace c) then inl errExpectedSpace
               else if isNewline c then inl errNewline
               else inr (tt, skipBlanks s')
           end.

(** The literal characters of the format. *)
Fixpoint fmtLit (lit : string) : scan unit :=
  match lit with
  | EmptyString => ret tt
  | String c lit' =>
      fun s => match s with
               | EmptyString => inl errUnexpectedEOF
               | String c' s' =>
                   if Ascii.eqb c c' then fmtLit lit' s' else inl errNoMatch
               end
  end.

(** The verb [%s] storing into a [*string]. *)
Definition verb_s : scan string :=
  SkipSpace ;; notEOF ;; fun s => inr (word s).

Definition isSign (c : ascii) : bool :=
  Ascii.eqb c "+" || Ascii.eqb c "-".

(** The digits of [getBase('d')]: [decimalDigits + "_"]. *)
Definition isNumberChar (c : ascii) : bool :=
  isDigit c || Ascii.eqb c "_".

Fixpoint number (s : string) : string * string :=
  match s with
  | EmptyString => (EmptyString, EmptyString)
  | String c s' =>
      if isNumberChar c
      then let (w, r) := number s' in (String c w, r)
      else (EmptyString, s)
  end.

(** The value of a string of decimal digits, [None] when a character is
    not a digit (an underscore is refused in base 10). *)
Fixpoint digitsValue (acc : Z) (s : string) : option Z :=
  match s with
  | EmptyString => Some acc
  | String c s' =>
      if isDigit c
      then digitsValue (10 * acc + (Z.of_nat (nat_of_ascii c) - 48)) s'
      else None
  end.

Definition minInt64 : Z := - 2 ^ 63.
Definition maxInt64 : Z := 2 ^ 63 - 1.

(** [strconv.ParseInt(tok, 10, 64)] on an optional sign followed by
    [digits]. *)
Definition ParseInt (neg : bool) (digits : string) : scanError + Z :=
  match digits with
  | EmptyString => inl errSyntax
  | _ =>
      match digitsValue 0 digits with
      | None => inl errSyntax
      | Some v =>
          let i := if neg then - v else v in
          if (minInt64 <=? i) && (i <=? maxInt64) then inr i
          else inl errRange
      end
  end.

(** The verb [%d] storing into a [*int] ([scanInt] with 64 bits). *)
Definition verb_d : scan Z :=
  SkipSpace ;; notEOF ;;
  fun s =>
    let '(neg, s1) :=
      match s with
      | String c s' => if isSign c then (Ascii.eqb c "-", s') else (false, s)
      | EmptyString => (false, s)
      end in
    match s1 with
    | EmptyString => inl errEOF
    | String c _ =>
        if negb (isNumberChar c) then inl errExpectedInteger
        else
          let (tok, rest) := number s1 in
          match ParseInt neg tok with
          | inl e => inl e
          | inr i => inr (i, rest)
          end
    end.

(** [fmt.Sscanf(str, format, ...)]: the operands scanned, or the error;
    input left over is ignored. *)
Definition Sscanf {A} (str : string) (format : scan A) : scanError + A :=
  match format str with
  | inl e => inl e
  | inr (a, _) => inr a
  end.

(** The formats of [zpool.go]. *)

(** [" pool: %s"] *)
Definition format_pool : scan string :=
  fmtSpace ;; fmtLit "pool:" ;; fmtSpace ;; verb_s.

(** ["state: %s"] *)
Definition format_state : scan string :=
  fmtLit "state:" ;; fmtSpace ;; verb_s.

(** [" scan: %s"] *)
Definition format_scan : scan string :=
  fmtSpace ;; fmtLit "scan:" ;; fmtSpace ;; verb_s.

(** [" %s %s %d %d %d"] *)
Definition format_row : scan (string * string * Z * Z * Z) :=
  fmtSpace ;; a <- verb_s ;; fmtSpace ;; b <- verb_s ;;
  fmtSpace ;; r <- verb_d ;; fmtSpace ;; w <- verb_d ;;
  fmtSpace ;; c <- verb_d ;; ret (a, b, r, w, c).

(** [" %s"] *)
Definition format_name : scan string :=
  fmtSpace ;; verb_s.

(** [" %s %s"] *)
Definition format_spare : scan (string * string) :=
  fmtSpace ;; a <- verb_s ;; fmtSpace ;; b <- verb_s ;; ret (a, b).

End Fmt.


(* ================================================================== *)
(** * Package [regexp] *)
(* ================================================================== *)

Module Regexp.

Import Strings.

(** The syntax the three patterns of the program need.  [Star true] is
    the greedy [*], [Star false] the lazy one. *)
Inductive regex : Type :=
| Class (p : ascii -> bool)
| Eps
| Seq (r1 r2 : regex)
| Alt (r1 r2 : regex)
| Star (greedy : bool) (r : regex)
| Bol
| Eol
| Group (n : nat) (r : regex).

Definition Plus (greedy : bool) (r : regex) : regex :=
  Seq r (Star greedy r).

Fixpoint Rep (n : nat) (r : regex) : regex :=
  match n with
  | O => Eps
  | S k => Seq r (Rep k r)
  end.

Fixpoint Lit (s : string) : regex :=
  match s with
  | EmptyString => Eps
  | String c s' => Seq (Class (Ascii.eqb c)) (Lit s')
  end.

(** [\s] is [[\t\n\f\r ]] (no vertical tab), [\w] is [[0-9A-Za-z_]],
    [\d] is [[0-9]], [.] is any character but the newline. *)
Definition class_s (c : ascii) : bool :=
  let n := nat_of_ascii c in
  (n =? 9)%nat || (n =? 10)%nat || (n =? 12)%nat || (n =? 13)%nat
  || (n =? 32)%nat.
Definition class_d (c : ascii) : bool := isDigit c.
Definition class_w (c : ascii) : bool :=
  isDigit c || isUpper c || isLower c || Ascii.eqb c "_".
Definition class_dot (c : ascii) : bool := negb (Ascii.eqb c "010").

(** The spans of the capture groups, the most recent first. *)
Definition captures : Type := list (nat * (nat * nat)).

Section Matcher.

Context {R : Type}.

(** What remains to be matched, applied to the position reached, the
    input left and the captures so far. *)
Definition cont : Type := nat -> string -> captures -> option R.

(** The iterations of a star whose body is matched by [body]: one
    more iteration before none for a greedy star, the reverse for a
    lazy one.  An iteration has to consume input, and [fuel] bounds
    the number of iterations by the length of the input. *)
Fixpoint iterate (body : nat -> string -> captures -> cont -> option R)
         (greedy : bool) (k : cont) (fuel : nat) (pos : nat)
         (s : string) (cs : captures) {struct fuel} : option R :=
  match fuel with
  | O => k pos s cs
  | S fuel' =>
      let again (_ : unit) :=
        body pos s cs
             (fun pos' s' cs' =>
                if (String.length s' <? String.length s)%nat
                then iterate body greedy k fuel' pos' s' cs'
                else None) in
      if greedy
      then match again tt with
           | Some x => Some x
           | None => k pos s cs
           end
      else match k pos s cs with
           | Some x => Some x
           | None => again tt
           end
  end.

(** The backtracking search in the order of preference of the
    leftmost-first semantics: the first alternative before the
    second. *)
Fixpoint run (r : regex) (pos : nat) (s : string) (cs : captures)
         (k : cont) {struct r} : option R :=
  match r with
  | Class p =>
      match s with
      | String c s' => if p c then k (S pos) s' cs else None
      | EmptyString => None
      end
  | Eps => k pos s cs
  | Seq r1 r2 =>
      run r1 pos s cs (fun pos' s' cs' => run r2 pos' s' cs' k)
  | Alt r1 r2 =>
      match run r1 pos s cs k with
      | Some x => Some x
      | None => run r2 pos s cs k
      end
  | Star greedy r' =>
      iterate (run r') greedy k (String.length s) pos s cs
  | Bol => if (pos =? 0)%nat then k pos s cs else None
  | Eol =>
      match s with
      | EmptyString => k pos s cs
      | _ => None
      end
  | Group n r' =>
      run r' pos s cs
          (fun pos' s' cs' => k pos' s' ((n, (pos, pos')) :: cs'))
  end.

End Matcher.

(** The leftmost match at or after [pos]: its start, its end and its
    captures. *)
Fixpoint search (r : regex) (pos : nat) (s : string)
  : option (nat * nat * captures) :=
  match run r pos s [] (fun e _ cs => Some (pos, e, cs)) with
  | Some m => Some m
  | None =>
      match s with
      | String _ s' => search r (S pos) s'
      | EmptyString => None
      end
  end.

(** A compiled pattern: its syntax tree and the number of its groups. *)
Record Regexp : Type := MustCompile { expr : regex; NumSubexp : nat }.

Fixpoint span (cs : captures) (n : nat) : option (nat * nat) :=
  match cs with
  | [] => None
  | (m, se) :: cs' => if (m =? n)%nat then Some se else span cs' n
  end.

(** The text of the whole match followed by the text of each group, the
    empty string for a group that did not take part. *)
Definition submatches (re : Regexp) (text : string)
           (m : nat * nat * captures) : list string :=
  let '(b, e, cs) := m in
  String.substring b (e - b) text
  :: map (fun n => match span cs n with
                   | Some (gb, ge) => String.substring gb (ge - gb) text
                   | None => ""
                   end)
         (seq 1 (NumSubexp re)).

(** [re.MatchString(s)]. *)
Definition MatchString (re : Regexp) (s : string) : bool :=
  match search (expr re) 0 s with
  | Some _ => true
  | None => false
  end.

(** [re.FindStringSubmatch(s)]: [nil] when there is no match. *)
Definition FindStringSubmatch (re : Regexp) (s : string) : list string :=
  match search (expr re) 0 s with
  | Some m => submatches re s m
  | None => []
  end.

Fixpoint drop (n : nat) (s : string) : string :=
  match n, s with
  | S k, String _ s' => drop k s'
  | _, _ => s
  end.

(** The loop of [allMatches]: the successive matches, each searched
    from the end of the one before.  A match that ends where its search
    started is empty: it is dropped when it starts where the match before
    ended, and the search moves one character on, or stops at the end of
    the text. *)
Fixpoint findAll (fuel : nat) (re : Regexp) (text : string) (pos : nat)
         (s : string) (prevMatchEnd : option nat) : list (list string) :=
  match fuel with
  | O => []
  | S fuel' =>
      match search (expr re) pos s with
      | None => []
      | Some (b, e, cs) =>
          let found := submatches re text (b, e, cs) in
          if (e =? pos)%nat
          then
            let accept :=
              match prevMatchEnd with
              | Some q => negb (b =? q)%nat
              | None => true
              end in
            let rest :=
              match s with
              | String _ s' => findAll fuel' re text (S pos) s' (Some e)
              | EmptyString => []
              end in
            if accept then found :: rest else rest
          else found :: findAll fuel' re text e (drop (e - pos) s) (Some e)
      end
  end.

(** [re.FindAllStringSubmatch(s, -1)]. *)
Definition FindAllStringSubmatch (re : Regexp) (s : string)
  : list (list string) :=
  findAll (S (String.length s)) re s 0 s None.

Definition s_plus : regex := Plus true (Class class_s).
Definition s_star : regex := Star true (Class class_s).
Definition w_plus : regex := Plus true (Class class_w).
Definition w_star : regex := Star true (Class class_w).
Definition d_plus : regex := Plus true (Class class_d).
Definition w_times (n : nat) : regex := Rep n (Class class_w).

(** Concatenation of a list of patterns. *)
Fixpoint cat (rs : list regex) : regex :=
  match rs with
  | [] => Eps
  | [r] => r
  | r :: rs' => Seq r (cat rs')
  end.

End Regexp.

(* ================================================================== *)
(** * Errors and results *)
(* ================================================================== *)

(** The errors the program builds.  [parseError cause line] is
    [fmt.Errorf("parse error (%d) %s: '%s'", parseState, err, line)]: its
    text holds the scanner's error [cause] and the raw [line]; the operand
    of [%d] is the pointer [parseState] itself, which prints as an
    address, and is left out.  [errorString text] is an error whose text
    is known in full ([errors.New], [fmt.Errorf] on strings).
    [numError num cause] is the [*strconv.NumError] of [strconv.Atoi]. *)
Inductive error : Type :=
| parseError (cause : Fmt.scanError) (line : string)
| errorString (text : string)
| numError (num : string) (cause : Fmt.scanError).

(** What a call does: it returns a value, returns an error, or panics
    (a nil pointer, an index out of range). *)
Inductive res (A : Type) : Type :=
| Val (a : A)
| Err (e : error)
| Crash.
Arguments Val {A} a.
Arguments Err {A} e.
Arguments Crash {A}.

(** [p = &l[len(l)-1]]: the elements before the last one, and the last. *)
Fixpoint splitLast {A : Type} (l : list A) : option (list A * A) :=
  match l with
  | [] => None
  | x :: l' =>
      match splitLast l' with
      | None => Some ([], x)
      | Some (init, y) => Some (x :: init, y)
      end
  end.

(* ================================================================== *)
(** * [zpool.go]: the data model *)
(* ================================================================== *)

Inductive vdevType : Type :=
| vdevTypeNone
| vdevTypeRaidz
| vdevTypeSpare.

(** [vdevDisk].  The field [vdev *vdev] is read only as [d.vdev.typev];
    [disk_vdev_typev] is that value.  The pointer is taken in the Disk
    state, after the Vdev state wrote [typev] for the last time, and
    [append] copies a [vdev] with its [typev]. *)
Record vdevDisk : Type := mkDisk {
  disk_vdev_typev : vdevType;
  disk_name : string;
  disk_state : string;
  disk_read : Z;
  disk_write : Z;
  disk_checksum : Z;
  disk_message : string
}.

Record vdev : Type := mkVdev {
  vdev_name : string;
  vdev_state : string;
  vdev_typev : vdevType;
  vdev_disks : list vdevDisk;
  vdev_read : Z;
  vdev_write : Z;
  vdev_checksum : Z
}.

Record pool : Type := mkPool {
  pool_name : string;
  pool_state : string;
  pool_status : string;
  pool_scanStatus : string;
  pool_read : Z;
  pool_write : Z;
  pool_checksum : Z;
  pool_vdevs : list vdev;
  pool_errors : string
}.

(** The zero values [vdevDisk{}] and [vdev{}]. *)
Definition zeroDisk : vdevDisk := mkDisk vdevTypeNone "" "" 0 0 0 "".
Definition zeroVdev : vdev := mkVdev "" "" vdevTypeNone [] 0 0 0.

(** [func (d vdevDisk) Healthy() bool] *)
Definition vdevDisk_Healthy (d : vdevDisk) : bool :=
  match disk_vdev_typev d with
  | vdevTypeSpare => (disk_state d =? "AVAIL")%string
  | _ =>
      (disk_state d =? "ONLINE")%string && (disk_read d =? 0)%Z
      && (disk_write d =? 0)%Z && (disk_checksum d =? 0)%Z
      && (disk_message d =? "")%string
  end.

(** [func (d vdevDisk) String() string] *)
Definition vdevDisk_String (d : vdevDisk) : string :=
  match disk_vdev_typev d with
  | vdevTypeSpare =>
      "disk " ++ disk_name d ++ " - " ++ disk_state d ++ ": "
      ++ disk_message d
  | _ =>
      "disk " ++ disk_name d ++ " - " ++ disk_state d ++ " ("
      ++ Strings.itoa (disk_read d) ++ "|" ++ Strings.itoa (disk_write d)
      ++ "|" ++ Strings.itoa (disk_checksum d) ++ "): " ++ disk_message d
  end.

(** [func (v vdev) Healthy() bool]: the flag of the group itself, then
    the loop over its disks. *)
Definition vdev_Healthy (v : vdev) : bool :=
  let healthy :=
    match vdev_typev v with
    | vdevTypeSpare => true
    | _ =>
        (vdev_state v =? "ONLINE")%string && (vdev_read v =? 0)%Z
        && (vdev_write v =? 0)%Z && (vdev_checksum v =? 0)%Z
    end in
  fold_left (fun healthy d => healthy && vdevDisk_Healthy d)
            (vdev_disks v) healthy.

(** [func (v vdev) String() string] *)
Definition vdev_String (v : vdev) : string :=
  "vdev " ++ vdev_name v ++ " - " ++ vdev_state v ++ " ("
  ++ Strings.itoa (vdev_read v) ++ "|" ++ Strings.itoa (vdev_write v)
  ++ "|" ++ Strings.itoa (vdev_checksum v) ++ ")".

(** [func (p pool) Health() bool] *)
Definition pool_Health (p : pool) : bool :=
  let healthy :=
    (pool_state p =? "ONLINE")%string && (pool_read p =? 0)%Z
    && (pool_write p =? 0)%Z && (pool_checksum p =? 0)%Z
    && (pool_errors p =? "errors: No known data errors")%string in
  fold_left (fun healthy v => healthy && vdev_Healthy v)
            (pool_vdevs p) healthy.

(** [func (p pool) String() string] *)
Definition pool_String (p : pool) : string :=
  "pool " ++ pool_name p ++ " - " ++ pool_state p ++ " ("
  ++ Strings.itoa (pool_read p) ++ "|" ++ Strings.itoa (pool_write p)
  ++ "|" ++ Strings.itoa (pool_checksum p) ++ "): " ++ pool_errors p.

(** Assignments to one field. *)
Definition set_pool_state (p : pool) (x : string) : pool :=
  mkPool (pool_name p) x (pool_status p) (pool_scanStatus p) (pool_read p)
         (pool_write p) (pool_checksum p) (pool_vdevs p) (pool_errors p).
Definition set_pool_status (p : pool) (x : string) : pool :=
  mkPool (pool_name p) (pool_state p) x (pool_scanStatus p) (pool_read p)
         (pool_write p) (pool_checksum p) (pool_vdevs p) (pool_errors p).
Definition set_pool_scanStatus (p : pool) (x : string) : pool :=
  mkPool (pool_name p) (pool_state p) (pool_status p) x (pool_read p)
         (pool_write p) (pool_checksum p) (pool_vdevs p) (pool_errors p).
Definition set_pool_counters (p : pool) (r w c : Z) : pool :=
  mkPool (pool_name p) (pool_state p) (pool_status p) (pool_scanStatus p)
         r w c (pool_vdevs p) (pool_errors p).
Definition set_pool_vdevs (p : pool) (x : list vdev) : pool :=
  mkPool (pool_name p) (pool_state p) (pool_status p) (pool_scanStatus p)
         (pool_read p) (pool_write p) (pool_checksum p) x (pool_errors p).
Definition set_pool_errors (p : pool) (x : string) : pool :=
  mkPool (pool_name p) (pool_state p) (pool_status p) (pool_scanStatus p)
         (pool_read p) (pool_write p) (pool_checksum p) (pool_vdevs p) x.
Definition set_vdev_disks (v : vdev) (x : list vdevDisk) : vdev :=
  mkVdev (vdev_name v) (vdev_state v) (vdev_typev v) x (vdev_read v)
         (vdev_write v) (vdev_checksum v).

(* ================================================================== *)
(** * [zpool.go]: the parser *)
(* ================================================================== *)

Inductive zpoolParseState : Type :=
| zpoolParseStart
| zpoolParseStatus
| zpoolParseScan
| zpoolParsePool
| zpoolParseVdev
| zpoolParseDisk
| zpoolParseErrors.

Import Regexp.

(** [^\s+(\w{8}-\w{4}-\w{4}-\w{4}-\w{12}\s+|nvme\w+|(\w+\s+){2}(\s+\d+){3}\s+\w+)] *)
Definition diskRe : Regexp :=
  MustCompile
    (cat [Bol; s_plus;
          Group 1
            (Alt (cat [w_times 8; Lit "-"; w_times 4; Lit "-"; w_times 4;
                       Lit "-"; w_times 4; Lit "-"; w_times 12; s_plus])
            (Alt (cat [Lit "nvme"; w_plus])
                 (cat [Rep 2 (Group 2 (Seq w_plus s_plus));
                       Rep 3 (Group 3 (Seq s_plus d_plus));
                       s_plus; w_plus])))])
    3.

(** [(?:(?:\d+\s+){3}|^\w+\s+[A-Z]+\s+)(.+)$] *)
Definition diskMessageRe : Regexp :=
  MustCompile
    (cat [Alt (Rep 3 (Seq d_plus s_plus))
              (cat [Bol; w_plus; s_plus; Plus true (Class Strings.isUpper);
                    s_plus]);
          Group 1 (Plus true (Class class_dot));
          Eol])
    1.

(** What one call of [parsePoolState] leaves behind when it returns
    without an error: the pool it returns ([nil] or a new pool), the pool
    list after the writes through [p], the parse state, and how many
    times it called [scanner.Scan()] itself. *)
Record step : Type := mkStep {
  newPool : option pool;
  pools_after : list pool;
  state_after : zpoolParseState;
  scans : nat
}.

(** A case that works on [p], the last pool of the list: [p] is nil when
    the list is empty, and using it panics. *)
Definition onLast (pools : list pool) (body : pool -> res pool)
           (next : zpoolParseState) (scans : nat) : res step :=
  match splitLast pools with
  | None => Crash
  | Some (init, p) =>
      match body p with
      | Val p' => Val (mkStep None (init ++ [p']) next scans)
      | Err e => Err e
      | Crash => Crash
      end
  end.

(** [case zpoolParseScan]; the three calls of [scanner.Scan()] skip the
    lines [config:], the empty line and the header of the table. *)
Definition caseScan (pools : list pool) (line : string) : res step :=
  onLast pools
    (fun p =>
       match Fmt.Sscanf line Fmt.format_scan with
       | inl err => Err (parseError err line)
       | inr s => Val (set_pool_scanStatus p s)
       end)
    zpoolParsePool 3.

(** [case zpoolParseVdev] *)
Definition caseVdev (pools : list pool) (line : string) : res step :=
  onLast pools
    (fun p =>
       if Strings.Contains line "mirror-" || Strings.Contains line "raidz"
       then
         match Fmt.Sscanf line Fmt.format_row with
         | inl err => Err (parseError err line)
         | inr (name, state, r, w, c) =>
             Val (set_pool_vdevs p
                    (pool_vdevs p
                     ++ [mkVdev name state vdevTypeRaidz [] r w c]))
         end
       else if Strings.Contains line "spares"
       then
         match Fmt.Sscanf line Fmt.format_name with
         | inl err => Err (parseError err line)
         | inr name =>
             Val (set_pool_vdevs p
                    (pool_vdevs p
                     ++ [mkVdev name "" vdevTypeSpare [] 0 0 0]))
         end
       else Val (set_pool_vdevs p (pool_vdevs p ++ [zeroVdev])))
    zpoolParseDisk 0.

(** [switch v.typev] of [case zpoolParseDisk]: the fields of the disk row
    that [Sscanf] reads for a group of kind [v.typev], with the back
    reference [disk.vdev = v]. *)
Definition diskFields (v : vdev) (line : string) : res vdevDisk :=
  match vdev_typev v with
  | vdevTypeRaidz =>
      match Fmt.Sscanf line Fmt.format_row with
      | inl err => Err (parseError err line)
      | inr (name, state, r, w, c) =>
          Val (mkDisk vdevTypeRaidz name state r w c "")
      end
  | vdevTypeSpare =>
      match Fmt.Sscanf line Fmt.format_spare with
      | inl err => Err (parseError err line)
      | inr (name, state) => Val (mkDisk vdevTypeSpare name state 0 0 0 "")
      end
  | vdevTypeNone => Val zeroDisk
  end.

(** The part of [case zpoolParseDisk] for a line that [diskRe] matches. *)
Definition caseDiskRow (pools : list pool) (line : string) : res step :=
  onLast pools
    (fun p =>
       match splitLast (pool_vdevs p) with
       | None => Crash
       | Some (vs, v) =>
           match diskFields v line with
           | Val d =>
               let matches := FindStringSubmatch diskMessageRe line in
               let d' :=
                 if (0 <? List.length matches)%nat
                 then mkDisk (disk_vdev_typev d) (disk_name d) (disk_state d)
                             (disk_read d) (disk_write d) (disk_checksum d)
                             (nth 1 matches "")
                 else d in
               Val (set_pool_vdevs p
                      (vs ++ [set_vdev_disks v (vdev_disks v ++ [d'])]))
           | Err e => Err e
           | Crash => Crash
           end
       end)
    zpoolParseDisk 0.

(** [func parsePoolState(pools, scanner, line, parseState)], which returns
    a pointer to a new pool, or nil, and an error.  The two calls of
    [parsePoolState] on itself re-dispatch the line after an assignment to
    [*parseState]: they are the calls of [caseScan] and [caseVdev]. *)
Definition parsePoolState (pools : list pool) (line : string)
           (parseState : zpoolParseState) : res step :=
  match parseState with
  | zpoolParseStart =>
      match Fmt.Sscanf line Fmt.format_pool with
      | inl err => Err (parseError err line)
      | inr name =>
          Val (mkStep (Some (mkPool name "" "" "" 0 0 0 [] "")) pools
                      zpoolParseStatus 0)
      end
  | zpoolParseStatus =>
      let trimmedLine := Strings.TrimSpace line in
      if Strings.HasPrefix trimmedLine "scan: " then caseScan pools line
      else if Strings.HasPrefix trimmedLine "action: "
      then Val (mkStep None pools zpoolParseStatus 0)
      else if Strings.HasPrefix trimmedLine "status: "
      then onLast pools (fun p => Val (set_pool_status p trimmedLine))
                  zpoolParseStatus 0
      else if Strings.HasPrefix trimmedLine "state: "
      then onLast pools
             (fun p =>
                match Fmt.Sscanf trimmedLine Fmt.format_state with
                | inl err => Err (parseError err line)
                | inr s => Val (set_pool_state p s)
                end)
             zpoolParseStatus 0
      else onLast pools
             (fun p => Val (set_pool_status p (pool_status p ++ " " ++ line)))
             zpoolParseStatus 0
  | zpoolParseScan => caseScan pools line
  | zpoolParsePool =>
      onLast pools
        (fun p =>
           match Fmt.Sscanf line Fmt.format_row with
           | inl err => Err (parseError err line)
           | inr (name, state, r, w, c) =>
               if negb (name =? pool_name p)%string
               then Err (errorString ("expected pool name " ++ name
                                      ++ " to match name " ++ pool_name p))
               else if negb (state =? pool_state p)%string
               then Err (errorString ("expected pool state " ++ state
                                      ++ " to match state " ++ pool_state p))
               else Val (set_pool_counters p r w c)
           end)
        zpoolParseVdev 0
  | zpoolParseVdev => caseVdev pools line
  | zpoolParseDisk =>
      if negb (MatchString diskRe line)
      then
        if (String.length (Strings.TrimSpace line) =? 0)%nat
        then Val (mkStep None pools zpoolParseErrors 0)
        else caseVdev pools line
      else caseDiskRow pools line
  | zpoolParseErrors =>
      if (String.length (Strings.TrimSpace line) =? 0)%nat
      then Val (mkStep None pools zpoolParseStart 0)
      else onLast pools
             (fun p =>
                if (pool_errors p =? "")%string
                then Val (set_pool_errors p line)
                else Val (set_pool_errors p (String "010" "" ++ line)))
             zpoolParseErrors 0
  end.

(** The variables of the loop of [parsePools]: the pool list, the parse
    state, and the scanner.  [cfg_skip] counts the tokens that the calls
    of [scanner.Scan()] inside [parsePoolState] have taken from the loop. *)
Record config : Type := mkConfig {
  cfg_pools : list pool;
  cfg_state : zpoolParseState;
  cfg_skip : nat
}.

(** One token of the scanner: it was taken by a [scanner.Scan()] of the
    Scan state, or it is the [line] of one iteration of the loop. *)
Definition feed (c : config) (line : string) : res config :=
  match cfg_skip c with
  | S skip' => Val (mkConfig (cfg_pools c) (cfg_state c) skip')
  | O =>
      match parsePoolState (cfg_pools c) line (cfg_state c) with
      | Err e => Err e
      | Crash => Crash
      | Val st =>
          let pools' :=
            match newPool st with
            | Some p => (pools_after st ++ [p])%list
            | None => pools_after st
            end in
          Val (mkConfig pools' (state_after st) (scans st))
      end
  end.

(** [for scanner.Scan() { ... }] *)
Fixpoint parseLines (lines : list string) (c : config) : res config :=
  match lines with
  | [] => Val c
  | line :: rest =>
      match feed c line with
      | Val c' => parseLines rest c'
      | Err e => Err e
      | Crash => Crash
      end
  end.

Definition start : config := mkConfig [] zpoolParseStart 0.

(** [func parsePools(zpoolStatus string) ([]pool, error)] *)
Definition parsePools (zpoolStatus : string) : res (list pool) :=
  match parseLines (Bufio.tokens zpoolStatus) start with
  | Val c => Val (cfg_pools c)
  | Err e => Err e
  | Crash => Crash
  end.

(* ================================================================== *)
(** * [main.go]: the health evaluator *)
(* ================================================================== *)

(** [type executer func(cmd string, args ...string) (string, error)] *)
Definition executer : Type := string -> list string -> error + string.

(** The body of [for _, disk := range v.disks]. *)
Definition diskErrs (errs : list string) (disk : vdevDisk) : list string :=
  if negb (vdevDisk_Healthy disk)
  then (errs ++ [vdevDisk_String disk])%list
  else errs.

(** The body of [for _, v := range p.vdevs]. *)
Definition vdevErrs (errs : list string) (v : vdev) : list string :=
  let errs :=
    if negb (vdev_Healthy v) then (errs ++ [vdev_String v])%list else errs in
  fold_left diskErrs (vdev_disks v) errs.

(** The body of [for _, p := range pools].  The last [append] receives
    the format and its two operands as three elements. *)
Definition poolErrs (errs : list string) (p : pool) : list string :=
  let errs :=
    if negb (pool_Health p)
    then fold_left vdevErrs (pool_vdevs p) (errs ++ [pool_String p])%list
    else errs in
  if Strings.Contains (pool_scanStatus p) "scrub repaired"
     && negb (Strings.Contains (pool_scanStatus p) "with 0 errors")
  then (errs ++ ["scrub of %s encountered errors: %s"; pool_name p;
                 pool_scanStatus p])%list
  else errs.

(** The loop of [checkPoolStatus] over the parsed pools. *)
Definition poolsErrs (pools : list pool) : list string :=
  fold_left poolErrs pools [].

(** The end of [checkPoolStatus]: nil, or one error whose text joins the
    diagnostics. *)
Definition verdict (errs : list string) : res unit :=
  if (0 <? List.length errs)%nat
  then Err (errorString (Strings.Join errs (String "010" "")))
  else Val tt.

(** [func checkPoolStatus(e executer) error]; [Val tt] is the nil error. *)
Definition checkPoolStatus (e : executer) : res unit :=
  match e "/sbin/zpool" ["status"] with
  | inl err => Err err
  | inr zStatus =>
      match parsePools zStatus with
      | Err err => Err err
      | Crash => Crash
      | Val pools => verdict (poolsErrs pools)
      end
  end.

(* ================================================================== *)
(** * [main.go]: the self-test analyzer *)
(* ================================================================== *)

Module Float32.

(** IEEE 754 binary32: 24 bits of precision, [emax = 128]. *)
Definition prec : Z := 24.
Definition emax : Z := 128.

(** The conversion [float32(n)] of an [int]. *)
Definition of_int (n : Z) : spec_float :=
  binary_normalize prec emax n 0 false.

Definition div (x y : spec_float) : spec_float := SFdiv prec emax x y.

(** [x >= y]; false when one of them is a NaN. *)
Definition geb (x y : spec_float) : bool :=
  match SFcompare x y with
  | Some Gt | Some Eq => true
  | _ => false
  end.

End Float32.

(** [const smartThreshold = 0.05], as the [float32] it is compared with:
    the nearest one is [13421773 * 2^-28]. *)
Definition smartThreshold : spec_float := S754_finite false 13421773 (-28).

(** [math.MaxInt32] *)
Definition MaxInt32 : Z := 2147483647.

(** [#\s*\d+\s*.+?\s{2,}(.+?)\s*\w*00%\s*(\d+)] *)
Definition smartRe : Regexp :=
  MustCompile
    (cat [Lit "#"; s_star; d_plus; s_star;
          Plus false (Class class_dot);
          Class class_s; Class class_s; s_star;
          Group 1 (Plus false (Class class_dot));
          s_star; w_star; Lit "00%"; s_star;
          Group 2 d_plus])
    2.

(** [strconv.Atoi(s)]: an optional sign and decimal digits, in the range
    of [int]. *)
Definition Atoi (s : string) : error + Z :=
  let '(neg, digits) :=
    match s with
    | String c s' => if Fmt.isSign c then (Ascii.eqb c "-", s') else (false, s)
    | EmptyString => (false, s)
    end in
  match Fmt.ParseInt neg digits with
  | inl cause => inl (numError s cause)
  | inr i => inr i
  end.

(** The disks [checkSmartStatus] probes. *)
Definition disks : list string := ["sda"; "sdb"; "sdc"; "sdd"; "sde"; "sdf"].

(** The variables of [checkSmartStatus] that the loop over the rows of
    one disk reads and writes. *)
Record smartVars : Type := mkVars {
  fails : Z;
  latestFail : string;
  oldest : Z;
  youngest : Z
}.

(** [for j := 0; j < len(matches); j++]: the rows from index [j] on.
    [inl] is the [return] on an error of [Atoi], with the named results
    as they are then. *)
Fixpoint smartRows (matches : list (list string)) (j : nat) (vs : smartVars)
  : (error * Z * Z) + smartVars :=
  match matches with
  | [] => inr vs
  | m :: rest =>
      let vs1 :=
        if negb (nth 1 m "" =? "Completed without error")%string
        then mkVars (fails vs + 1) (nth 1 m "") (oldest vs) (youngest vs)
        else vs in
      match Atoi (nth 2 m "") with
      | inl err => inl (err, oldest vs1, youngest vs1)
      | inr age =>
          let o := if (j =? 0)%nat && (age >? oldest vs1)
                   then age else oldest vs1 in
          let y := if (j =? 0)%nat && (age <? youngest vs1)
                   then age else youngest vs1 in
          smartRows rest (S j) (mkVars (fails vs1) (latestFail vs1) o y)
      end
  end.

(** [float32(fails)/float32(len(matches)) >= smartThreshold] *)
Definition overThreshold (fails : Z) (len : nat) : bool :=
  Float32.geb
    (Float32.div (Float32.of_int fails) (Float32.of_int (Z.of_nat len)))
    smartThreshold.

(** [for _, disk := range disks] of [checkSmartStatus], from the results
    [oldest] and [youngest] so far; the value is the triple
    [(err, oldest, youngest)] the function returns. *)
Fixpoint smartDisks (e : executer) (ds : list string) (o y : Z)
  : option error * Z * Z :=
  match ds with
  | [] => (None, o, y)
  | disk :: rest =>
      match e "/sbin/smartctl" ["-l"; "selftest"; "/dev/" ++ disk] with
      | inl err => (Some err, o, y)
      | inr status =>
          let matches := FindAllStringSubmatch smartRe status in
          match smartRows matches 0 (mkVars 0 "" o y) with
          | inl (err, o', y') => (Some err, o', y')
          | inr vs =>
              if overThreshold (fails vs) (List.length matches)
              then (Some (errorString ("smart error: disk " ++ disk ++ ": "
                                       ++ latestFail vs)),
                    oldest vs, youngest vs)
              else smartDisks e rest (oldest vs) (youngest vs)
          end
      end
  end.

(** [func checkSmartStatus(e executer) (err error, oldest int, youngest int)] *)
Definition checkSmartStatus (e : executer) : option error * Z * Z :=
  smartDisks e disks 0 MaxInt32.

(* ================================================================== *)
(** * [main.go]: the free space of the pools *)
(* ================================================================== *)

(** [var diskUsagePools] *)
Definition diskUsagePools : list string := ["boot-pool"; "primarySafe"].

(** [\S] is every character that is not of [\s]. *)
Definition class_S (c : ascii) : bool := negb (class_s c).
Definition S_plus : regex := Plus true (Class class_S).

(** [regexp.MustCompile(fmt.Sprintf(`%s\s+\S+\s+(\S+)\s+`, poolName))].
    The names of [diskUsagePools] are letters and a hyphen, which stand
    for themselves in a pattern. *)
Definition usageRe (poolName : string) : Regexp :=
  MustCompile
    (cat [Lit poolName; s_plus; S_plus; s_plus; Group 1 S_plus; s_plus])
    1.

(** A [map[string]string] as the list of its keys with their values, and
    the assignment [usage[k] = v]. *)
Definition stringMap : Type := list (string * string).

Definition mapSet (usage : stringMap) (k v : string) : stringMap :=
  (k, v) :: filter (fun kv => negb (fst kv =? k)%string) usage.

Fixpoint mapGet (usage : stringMap) (k : string) : option string :=
  match usage with
  | [] => None
  | (k', v) :: rest => if (k' =? k)%string then Some v else mapGet rest k
  end.

(** [for _, poolName := range diskUsagePools] of [diskUsage];
    [matches[1]] panics when [FindStringSubmatch] returned nil. *)
Fixpoint usageLoop (listing : string) (names : list string)
         (usage : stringMap) : res stringMap :=
  match names with
  | [] => Val usage
  | poolName :: rest =>
      let matches := FindStringSubmatch (usageRe poolName) listing in
      match nth_error matches 1 with
      | None => Crash
      | Some m1 => usageLoop listing rest (mapSet usage poolName m1)
      end
  end.

(** [func diskUsage(app notifier, e executer) (map[string]string, error)].
    On an error of the executer it logs the error and calls [notify], and
    returns the error; neither changes what it returns. *)
Definition diskUsage (e : executer) : res stringMap :=
  match e "zfs" ["list"] with
  | inl err => Err err
  | inr listing => usageLoop listing diskUsagePools []
  end.

(* ================================================================== *)
(** * Definitions for the statements, and sample inputs *)
(* ================================================================== *)

(** ** Sample documents *)

Definition nl : string := String "010" "".
Definition tab : string := String "009" "".

(** The text whose lines are [ls], each ended by a newline. *)
Fixpoint unlines (ls : list string) : string :=
  match ls with
  | [] => ""
  | l :: rest => l ++ nl ++ unlines rest
  end.

(** An executer that prints [text] whatever it is asked. *)
Definition prints (text : string) : executer := fun _ _ => inr text.

(** One raidz2 group with one disk taken offline, as the expectation for
    [zpoolSample2.txt] in [main_test.go] describes it. *)
Definition sampleOffline : string :=
  unlines
    ["  pool: primarySafe";
     " state: ONLINE";
     "  scan: scrub repaired 0 in 0 days 05:13:36 with 0 errors on Sun Sep  1 05:13:38 2019";
     "config:";
     "";
     tab ++ "NAME                                            STATE     READ WRITE CKSUM";
     tab ++ "primarySafe                                     ONLINE       0     0     0";
     tab ++ "  raidz2-0                                      ONLINE       0     0     0";
     tab ++ "    e43d41b6-adcc-11e5-b06a-d43d7ef79ff0  OFFLINE      0     0     0";
     tab ++ "    e4a31d4c-adcc-11e5-b06a-d43d7ef79ff0  ONLINE       0     0     0";
     tab ++ "    e50450ac-adcc-11e5-b06a-d43d7ef79ff0  ONLINE       0     0     0";
     "";
     "errors: No known data errors"].

(** A healthy raidz2 group and a spare that is not available, as the
    expectation for [zpoolSample5.txt] describes it. *)
Definition sampleSpare : string :=
  unlines
    ["  pool: primarySafe";
     " state: ONLINE";
     "  scan: scrub repaired 0B in 05:13:36 with 0 errors on Sun Sep  1 05:13:38 2024";
     "config:";
     "";
     tab ++ "NAME                                            STATE     READ WRITE CKSUM";
     tab ++ "primarySafe                                     ONLINE       0     0     0";
     tab ++ "  raidz2-0                                      ONLINE       0     0     0";
     tab ++ "    e43d41b6-adcc-11e5-b06a-d43d7ef79ff0  ONLINE       0     0     0";
     tab ++ "    e4a31d4c-adcc-11e5-b06a-d43d7ef79ff0  ONLINE       0     0     0";
     tab ++ "spares";
     tab ++ "  f9aeb0c4-a208-4118-a5e3-0d01bfb36743    UNAVAIL";
     "";
     "errors: No known data errors"].

(** A healthy pool whose last scrub ended with errors. *)
Definition sampleScrub : string :=
  unlines
    ["  pool: tank";
     " state: ONLINE";
     "  scan: scrub repaired 8K in 0 days 01:02:03 with 3 errors on Sun Sep  1 05:13:38 2019";
     "config:";
     "";
     tab ++ "NAME        STATE     READ WRITE CKSUM";
     tab ++ "tank        ONLINE       0     0     0";
     tab ++ "  mirror-0  ONLINE       0     0     0";
     tab ++ "    e43d41b6-adcc-11e5-b06a-d43d7ef79ff0  ONLINE       0     0     0";
     tab ++ "    e4a31d4c-adcc-11e5-b06a-d43d7ef79ff0  ONLINE       0     0     0";
     "";
     "errors: No known data errors"].

(** A pool with two lines of known data errors. *)
Definition sampleErrors : string :=
  unlines
    ["  pool: tank";
     " state: ONLINE";
     "  scan: none requested";
     "config:";
     "";
     tab ++ "NAME        STATE     READ WRITE CKSUM";
     tab ++ "tank        ONLINE       0     0     0";
     tab ++ "  mirror-0  ONLINE       0     0     0";
     tab ++ "    e43d41b6-adcc-11e5-b06a-d43d7ef79ff0  ONLINE       0     0     0";
     "";
     "errors: Permanent errors have been detected in the following files:";
     "        /tank/data/ledger.db"].

(** A pool whose only disk sits directly under it: the line read in the
    Vdev state names no mirror, raidz or spares. *)
Definition sampleStripe : string :=
  unlines
    ["  pool: boot-pool";
     " state: ONLINE";
     "  scan: none requested";
     "config:";
     "";
     tab ++ "NAME        STATE     READ WRITE CKSUM";
     tab ++ "boot-pool   ONLINE       0     0     0";
     tab ++ "  sda3      ONLINE       0     0     0";
     "";
     "errors: No known data errors"].

(** The table header repeats the pool under another state. *)
Definition sampleMismatch : string :=
  unlines
    ["  pool: tank";
     " state: ONLINE";
     "  scan: none requested";
     "config:";
     "";
     tab ++ "NAME        STATE     READ WRITE CKSUM";
     tab ++ "tank        DEGRADED     0     0     0";
     tab ++ "  mirror-0  ONLINE       0     0     0"].

(** ** The health evaluator: what the loops compute *)

(** The flag of a group alone, before the loop over its disks. *)
Definition vdev_own (v : vdev) : bool :=
  match vdev_typev v with
  | vdevTypeSpare => true
  | _ =>
      (vdev_state v =? "ONLINE")%string && (vdev_read v =? 0)%Z
      && (vdev_write v =? 0)%Z && (vdev_checksum v =? 0)%Z
  end.

(** The flag of a pool alone, before the loop over its groups. *)
Definition pool_own (p : pool) : bool :=
  (pool_state p =? "ONLINE")%string && (pool_read p =? 0)%Z
  && (pool_write p =? 0)%Z && (pool_checksum p =? 0)%Z
  && (pool_errors p =? "errors: No known data errors")%string.

(** The lines each level contributes. *)
Definition diskLines (d : vdevDisk) : list string :=
  if negb (vdevDisk_Healthy d) then [vdevDisk_String d] else [].

Definition vdevLines (v : vdev) : list string :=
  ((if negb (vdev_Healthy v) then [vdev_String v] else [])
   ++ flat_map diskLines (vdev_disks v))%list.

Definition scrubFault (p : pool) : bool :=
  Strings.Contains (pool_scanStatus p) "scrub repaired"
  && negb (Strings.Contains (pool_scanStatus p) "with 0 errors").

Definition scrubLines (p : pool) : list string :=
  if scrubFault p
  then ["scrub of %s encountered errors: %s"; pool_name p; pool_scanStatus p]
  else [].

Definition poolLines (p : pool) : list string :=
  ((if negb (pool_Health p)
    then pool_String p :: flat_map vdevLines (pool_vdevs p)
    else [])
   ++ scrubLines p)%list.

(** ** Spare groups (C1) *)

(** The tree [parsePools] builds from [sampleSpare]. *)
Definition onlineDisk (name : string) : vdevDisk :=
  mkDisk vdevTypeRaidz name "ONLINE" 0 0 0 "".

Definition spareDisk : vdevDisk :=
  mkDisk vdevTypeSpare "f9aeb0c4-a208-4118-a5e3-0d01bfb36743" "UNAVAIL"
         0 0 0 "".

Definition spareGroup : vdev :=
  mkVdev "spares" "" vdevTypeSpare [spareDisk] 0 0 0.

Definition sparePool : pool :=
  mkPool "primarySafe" "ONLINE" "" "scrub" 0 0 0
         [mkVdev "raidz2-0" "ONLINE" vdevTypeRaidz
                 [onlineDisk "e43d41b6-adcc-11e5-b06a-d43d7ef79ff0";
                  onlineDisk "e4a31d4c-adcc-11e5-b06a-d43d7ef79ff0"]
                 0 0 0;
          spareGroup]
         "errors: No known data errors".

(** ** Words read by [%s] *)

(** All the characters of [s] satisfy [f]. *)
Fixpoint allChars (f : ascii -> bool) (s : string) : bool :=
  match s with
  | EmptyString => true
  | String c s' => f c && allChars f s'
  end.

Definition notSpace (c : ascii) : bool := negb (Strings.isSpace c).

(** ** Invariants of the parser *)

(** The back reference of every disk of [v] reads the kind of [v]. *)
Definition disksOwned (v : vdev) : Prop :=
  Forall (fun d => disk_vdev_typev d = vdev_typev v) (vdev_disks v).

(** What holds of every pool the parser builds: its scan status is one
    word, and its disks point back to their group. *)
Definition okPool (p : pool) : Prop :=
  allChars notSpace (pool_scanStatus p) = true
  /\ Forall disksOwned (pool_vdevs p).

(** The pointers the cases use are there: outside the Start state [p] is
    not nil, and in the Disk state [p.vdevs] is not empty. *)
Definition shape (c : config) : Prop :=
  match cfg_state c with
  | zpoolParseStart => True
  | zpoolParseDisk =>
      exists init p vs v,
        cfg_pools c = (init ++ [p])%list /\ pool_vdevs p = (vs ++ [v])%list
  | _ => cfg_pools c <> []
  end.

Definition Inv (c : config) : Prop :=
  Forall okPool (cfg_pools c) /\ shape c.

(** ** The scrub check (C2) *)

(** The text after [scan:] in [sampleScrub]. *)
Definition scrubText : string :=
  "scrub repaired 8K in 0 days 01:02:03 with 3 errors on Sun Sep  1 05:13:38 2019".

(** The lines of a pool from the structural checks alone. *)
Definition structuralLines (p : pool) : list string :=
  if negb (pool_Health p)
  then pool_String p :: flat_map vdevLines (pool_vdevs p)
  else [].

(** ** Lines that do not fit the layout of their state (C5) *)

Definition scanFailure {A : Type} (r : Fmt.scanError + A)
  : option Fmt.scanError :=
  match r with
  | inl cause => Some cause
  | inr _ => None
  end.

(** The error of [Sscanf] on a line read in the Vdev state: the row of
    five fields for a line with [mirror-] or [raidz] in it, the name for a
    line with [spares] in it, and no scan for any other line. *)
Definition vdevLayoutError (line : string) : option Fmt.scanError :=
  if Strings.Contains line "mirror-" || Strings.Contains line "raidz"
  then scanFailure (Fmt.Sscanf line Fmt.format_row)
  else if Strings.Contains line "spares"
  then scanFailure (Fmt.Sscanf line Fmt.format_name)
  else None.

(** The error of [Sscanf] on a line read in the Start, Pool or Vdev
    state; a line of the Disk state that is neither a disk row nor blank
    is read as in the Vdev state. *)
Definition layoutError (st : zpoolParseState) (line : string)
  : option Fmt.scanError :=
  match st with
  | zpoolParseStart => scanFailure (Fmt.Sscanf line Fmt.format_pool)
  | zpoolParsePool => scanFailure (Fmt.Sscanf line Fmt.format_row)
  | zpoolParseVdev => vdevLayoutError line
  | zpoolParseDisk =>
      if negb (MatchString diskRe line)
         && negb (String.length (Strings.TrimSpace line) =? 0)%nat
      then vdevLayoutError line
      else None
  | _ => None
  end.

(** The line of the Vdev state in [sampleStripe]. *)
Definition stripeLine : string :=
  tab ++ "  sda3      ONLINE       0     0     0".

Definition stripePool (vdevs : list vdev) (errors : string) : pool :=
  mkPool "boot-pool" "ONLINE" "" "none" 0 0 0 vdevs errors.

Definition shortRow : string := tab ++ "tank        ONLINE".

(** The row that repeats the pool has lost its counters. *)
Definition sampleShortRow : string :=
  unlines
    ["  pool: tank";
     " state: ONLINE";
     "  scan: none requested";
     "config:";
     "";
     tab ++ "NAME        STATE     READ WRITE CKSUM";
     shortRow].

(** ** The row that repeats the pool (C6) *)

(** The error of the Pool state for a row that names [name] and [state]
    where the pool has [p]: the names come first. *)
Definition mismatch (name state : string) (p : pool) : error :=
  if (name =? pool_name p)%string
  then errorString ("expected pool state " ++ state ++ " to match state "
                    ++ pool_state p)
  else errorString ("expected pool name " ++ name ++ " to match name "
                    ++ pool_name p).

Definition degradedRow : string :=
  tab ++ "tank        DEGRADED     0     0     0".

(** ** Lines that begin with [action: ] (C9) *)

(** A healthy pool, and a line of advice that comes right after the line
    of the errors. *)
Definition sampleLateAction : string :=
  unlines
    ["  pool: tank";
     " state: ONLINE";
     "  scan: none requested";
     "config:";
     "";
     tab ++ "NAME        STATE     READ WRITE CKSUM";
     tab ++ "tank        ONLINE       0     0     0";
     tab ++ "  mirror-0  ONLINE       0     0     0";
     tab ++ "    e43d41b6-adcc-11e5-b06a-d43d7ef79ff0  ONLINE       0     0     0";
     "";
     "errors: No known data errors";
     "action: Replace the device using 'zpool replace'."].

Definition actionLine : string :=
  "action: Enable all features using 'zpool upgrade'.".

(** The loop has read the line of the pool and the line of its state. *)
Definition inStatus : config :=
  mkConfig [mkPool "tank" "ONLINE" "" "" 0 0 0 [] ""] zpoolParseStatus 0.

(** ** One disk offline (C8) *)

(** The tree [parsePools] builds from [sampleOffline]. *)
Definition offlineDisk : vdevDisk :=
  mkDisk vdevTypeRaidz "e43d41b6-adcc-11e5-b06a-d43d7ef79ff0" "OFFLINE"
         0 0 0 "".

Definition offlineGroup : vdev :=
  mkVdev "raidz2-0" "ONLINE" vdevTypeRaidz
         [offlineDisk;
          onlineDisk "e4a31d4c-adcc-11e5-b06a-d43d7ef79ff0";
          onlineDisk "e50450ac-adcc-11e5-b06a-d43d7ef79ff0"]
         0 0 0.

Definition offlinePool : pool :=
  mkPool "primarySafe" "ONLINE" "" "scrub" 0 0 0 [offlineGroup]
         "errors: No known data errors".

(** ** What a match of a pattern is *)

(** [matches r pos s cs pos' s' cs']: from position [pos], with [s] left
    to read and the captures [cs], the pattern [r] can read up to
    position [pos'], leaving [s'], with the captures [cs']. *)
Inductive matches
  : regex -> nat -> string -> captures -> nat -> string -> captures -> Prop :=
| m_class p c s pos cs :
    p c = true -> matches (Class p) pos (String c s) cs (S pos) s cs
| m_eps pos s cs : matches Eps pos s cs pos s cs
| m_seq r1 r2 p0 s0 c0 p1 s1 c1 p2 s2 c2 :
    matches r1 p0 s0 c0 p1 s1 c1 -> matches r2 p1 s1 c1 p2 s2 c2 ->
    matches (Seq r1 r2) p0 s0 c0 p2 s2 c2
| m_alt_l r1 r2 p0 s0 c0 p1 s1 c1 :
    matches r1 p0 s0 c0 p1 s1 c1 -> matches (Alt r1 r2) p0 s0 c0 p1 s1 c1
| m_alt_r r1 r2 p0 s0 c0 p1 s1 c1 :
    matches r2 p0 s0 c0 p1 s1 c1 -> matches (Alt r1 r2) p0 s0 c0 p1 s1 c1
| m_star_nil g r pos s cs : matches (Star g r) pos s cs pos s cs
| m_star_cons g r p0 s0 c0 p1 s1 c1 p2 s2 c2 :
    matches r p0 s0 c0 p1 s1 c1 -> matches (Star g r) p1 s1 c1 p2 s2 c2 ->
    matches (Star g r) p0 s0 c0 p2 s2 c2
| m_bol s cs : matches Bol O s cs O s cs
| m_eol pos cs : matches Eol pos "" cs pos "" cs
| m_group n r p0 s0 c0 p1 s1 c1 :
    matches r p0 s0 c0 p1 s1 c1 ->
    matches (Group n r) p0 s0 c0 p1 s1 ((n, (p0, p1)) :: c1).

(** [s] is what is left of [text] at position [pos]. *)
Definition at_pos (text : string) (pos : nat) (s : string) : Prop :=
  exists pre, text = pre ++ s /\ String.length pre = pos.

(** ** The self-test analyzer: definitions for the statements *)

(** The call of the executer for one disk. *)
Definition selftest (e : executer) (disk : string) : error + string :=
  e "/sbin/smartctl" ["-l"; "selftest"; "/dev/" ++ disk].

(** The rows [smartRe] finds in the log of a disk. *)
Definition rowsOf (e : executer) (disk : string) : list (list string) :=
  match selftest e disk with
  | inr status => FindAllStringSubmatch smartRe status
  | inl _ => []
  end.

(** The log of the disk was read and has no row. *)
Definition noRows (e : executer) (disk : string) : Prop :=
  exists status,
    selftest e disk = inr status
    /\ FindAllStringSubmatch smartRe status = [].

(** The outcome of a row, and whether it counts as a failure. *)
Definition description (m : list string) : string := nth 1 m "".

Definition failed (m : list string) : bool :=
  negb (description m =? "Completed without error")%string.

(** The power-on hours of the first row of the log of a disk, when
    there is one. *)
Definition firstRowAge (e : executer) (disk : string) : list Z :=
  match rowsOf e disk with
  | m :: _ =>
      match Atoi (nth 2 m "") with
      | inr age => [age]
      | inl _ => []
      end
  | [] => []
  end.

Definition firstRowAges (e : executer) (ds : list string) : list Z :=
  flat_map (firstRowAge e) ds.

(** A log with two failures: the most recent test, and an older one. *)
Definition sampleTwoFailures : string :=
  unlines
    ["=== START OF READ SMART DATA SECTION ===";
     "SMART Self-test log structure revision number 1";
     "Num  Test_Description    Status                  Remaining  LifeTime(hours)  LBA_of_first_error";
     "# 1  Short offline       Completed: read failure       00%     35064         1234";
     "# 2  Short offline       Completed without error       00%     35040         -";
     "# 3  Extended offline    Completed: servo/seek failure 00%     34923         -"].

(** Two logs without failures, of a disk older than the other. *)
Definition sampleOld : string :=
  unlines
    ["Num  Test_Description    Status                  Remaining  LifeTime(hours)  LBA_of_first_error";
     "# 1  Short offline       Completed without error       00%     35064         -";
     "# 2  Extended offline    Completed without error       00%     34923         -"].

Definition sampleYoung : string :=
  unlines
    ["Num  Test_Description    Status                  Remaining  LifeTime(hours)  LBA_of_first_error";
     "# 1  Short offline       Completed without error       00%     12000         -";
     "# 2  Extended offline    Completed without error       00%     11000         -"].

(** An executer that prints [sampleYoung] for [/dev/sdb] and [sampleOld]
    for the other disks. *)
Definition twoAges : executer :=
  fun _ args =>
    if (nth 2 args "" =? "/dev/sdb")%string
    then inr sampleYoung
    else inr sampleOld.

(** ** The threshold, and where the batch stops *)

(** For a log of [rows] rows and every number of failures up to [rows],
    the comparison in [float32] is true exactly when there is a row and
    [fails / rows >= 1/20]. *)
Definition thresholdAgrees (rows : nat) : bool :=
  forallb
    (fun f =>
       Bool.eqb (overThreshold (Z.of_nat f) rows)
                ((0 <? rows)%nat && (rows <=? 20 * f)%nat))
    (seq 0 (S rows)).

(** ** The expectations of [main_test.go] *)

(** A disk that went away, as for [zpoolSample3.txt]. *)
Definition sampleUnavail : string :=
  unlines
    ["  pool: primarySafe";
     " state: DEGRADED";
     "status: One or more devices could not be opened.  Sufficient replicas exist for";
     tab ++ "the pool to continue functioning in a degraded state.";
     "action: Attach the missing device and online it using 'zpool online'.";
     "   see: http://illumos.org/msg/ZFS-8000-2Q";
     "  scan: scrub repaired 0 in 5h13m with 0 errors on Sun Sep  1 05:13:38 2019";
     "config:";
     "";
     tab ++ "NAME                                            STATE     READ WRITE CKSUM";
     tab ++ "primarySafe                                     DEGRADED     0     0     0";
     tab ++ "  raidz2-0                                      DEGRADED     0     0     0";
     tab ++ "    e4a31d4c-adcc-11e5-b06a-d43d7ef79ff0  ONLINE       0     0     0";
     tab ++ "    14803813886136010794                        UNAVAIL      0     0     0  was /dev/gptid/4167d912-9102-11e2-a05e-b8975a0e7ea3";
     "";
     "errors: No known data errors"].

(** One failure in ten rows. *)
Definition sampleOneFailure : string :=
  unlines
    ["Num  Test_Description    Status                  Remaining  LifeTime(hours)  LBA_of_first_error";
     "# 1  Short offline       Completed without error       00%     35064         -";
     "# 2  Short offline       Completed without error       00%     35040         -";
     "# 3  Short offline       Completed without error       00%     35016         -";
     "# 4  Short offline       foobarted without error       00%     34992         -";
     "# 5  Short offline       Completed without error       00%     34968         -";
     "# 6  Extended offline    Completed without error       00%     34944         -";
     "# 7  Short offline       Completed without error       00%     34920         -";
     "# 8  Short offline       Completed without error       00%     34896         -";
     "# 9  Short offline       Completed without error       00%     34872         -";
     "#10  Short offline       Completed without error       00%     34848         -"].

(** The first four disks pass, the fifth has the failure. *)
Definition failsAtSde : executer :=
  fun _ args =>
    if (nth 2 args "" =? "/dev/sde")%string
    then inr sampleOneFailure
    else inr sampleOld.

(** ** The health of a pool the parser built *)

(** What [Healthy] asks of a disk that sits in a group of kind [k]. *)
Definition diskOk (k : vdevType) (d : vdevDisk) : bool :=
  match k with
  | vdevTypeSpare => (disk_state d =? "AVAIL")%string
  | _ =>
      (disk_state d =? "ONLINE")%string && (disk_read d =? 0)%Z
      && (disk_write d =? 0)%Z && (disk_checksum d =? 0)%Z
      && (disk_message d =? "")%string
  end.

(** The flag of a group, and its disks checked by the kind of the group. *)
Definition groupOk (v : vdev) : bool :=
  vdev_own v && forallb (diskOk (vdev_typev v)) (vdev_disks v).

(** The diagnostics of a list of pools: for each pool that is not
    healthy its line, then for each of its groups that is not healthy the
    line of the group and the lines of its disks that are not healthy. *)
Definition groupReport (v : vdev) : list string :=
  if vdev_Healthy v then []
  else vdev_String v
       :: map vdevDisk_String
              (filter (fun d => negb (vdevDisk_Healthy d)) (vdev_disks v)).

Definition poolReport (p : pool) : list string :=
  if pool_Health p then []
  else pool_String p :: flat_map groupReport (pool_vdevs p).

Definition report (pools : list pool) : list string :=
  flat_map poolReport pools.

(** The tree [parsePools] builds from [sampleUnavail]. *)
Definition unavailPool : pool :=
  mkPool "primarySafe" "DEGRADED"
         ("status: One or more devices could not be opened.  Sufficient replicas exist for "
          ++ tab
          ++ "the pool to continue functioning in a degraded state.    see: http://illumos.org/msg/ZFS-8000-2Q")
         "scrub" 0 0 0
         [mkVdev "raidz2-0" "DEGRADED" vdevTypeRaidz
                 [onlineDisk "e4a31d4c-adcc-11e5-b06a-d43d7ef79ff0";
                  mkDisk vdevTypeRaidz "14803813886136010794" "UNAVAIL" 0 0 0
                         "was /dev/gptid/4167d912-9102-11e2-a05e-b8975a0e7ea3"]
                 0 0 0]
         "errors: No known data errors".

(** ** What the parser writes *)

(** The pool the Start state returns for the name it read. *)
Definition freshPool (name : string) : pool :=
  mkPool name "" "" "" 0 0 0 [] "".

(** A group as the Vdev state appends it: without disks; a spare group
    has its name only, and a group of kind None is the zero value. *)
Definition freshGroup (v : vdev) : Prop :=
  vdev_disks v = []
  /\ match vdev_typev v with
     | vdevTypeRaidz => True
     | vdevTypeSpare =>
         vdev_state v = "" /\ vdev_read v = 0 /\ vdev_write v = 0
         /\ vdev_checksum v = 0
     | vdevTypeNone => v = zeroVdev
     end.

(** A disk as the Disk state appends it to the group [v]: a disk of a
    spare group has no counters, and a disk of a group of kind None has a
    message at most. *)
Definition diskOf (v : vdev) (d : vdevDisk) : Prop :=
  disk_vdev_typev d = vdev_typev v
  /\ match vdev_typev v with
     | vdevTypeRaidz => True
     | vdevTypeSpare =>
         disk_read d = 0 /\ disk_write d = 0 /\ disk_checksum d = 0
     | vdevTypeNone =>
         disk_name d = "" /\ disk_state d = "" /\ disk_read d = 0
         /\ disk_write d = 0 /\ disk_checksum d = 0
     end.

(** [writes p p']: one call of [parsePoolState] can turn the last pool
    [p] into [p'].  It assigns to fields other than the name and the
    groups, or appends a group, or appends a disk to the last group. *)
Inductive writes (p : pool) : pool -> Prop :=
| writes_fields (p' : pool) :
    pool_name p' = pool_name p -> pool_vdevs p' = pool_vdevs p ->
    writes p p'
| writes_group (v : vdev) :
    freshGroup v -> writes p (set_pool_vdevs p (pool_vdevs p ++ [v]))
| writes_disk (vs : list vdev) (v : vdev) (d : vdevDisk) :
    pool_vdevs p = (vs ++ [v])%list -> diskOf v d ->
    writes p
      (set_pool_vdevs p (vs ++ [set_vdev_disks v (vdev_disks v ++ [d])])).

(** The fields of a group that its kind fixes, and those of its disks. *)
Definition groupShape (v : vdev) : Prop :=
  match vdev_typev v with
  | vdevTypeRaidz => True
  | vdevTypeSpare =>
      vdev_state v = "" /\ vdev_read v = 0 /\ vdev_write v = 0
      /\ vdev_checksum v = 0
      /\ Forall (fun d => disk_read d = 0 /\ disk_write d = 0
                          /\ disk_checksum d = 0) (vdev_disks v)
  | vdevTypeNone =>
      vdev_name v = "" /\ vdev_state v = "" /\ vdev_read v = 0
      /\ vdev_write v = 0 /\ vdev_checksum v = 0
      /\ Forall (fun d => disk_name d = "" /\ disk_state d = ""
                          /\ disk_read d = 0 /\ disk_write d = 0
                          /\ disk_checksum d = 0) (vdev_disks v)
  end.

(** The name of a pool is one word, and its groups have their shape. *)
Definition poolShape (p : pool) : Prop :=
  pool_name p <> "" /\ allChars notSpace (pool_name p) = true
  /\ Forall groupShape (pool_vdevs p).

(** The tree [parsePools] builds from [sampleScrub]. *)
Definition scrubPool : pool :=
  mkPool "tank" "ONLINE" "" "scrub" 0 0 0
         [mkVdev "mirror-0" "ONLINE" vdevTypeRaidz
                 [onlineDisk "e43d41b6-adcc-11e5-b06a-d43d7ef79ff0";
                  onlineDisk "e4a31d4c-adcc-11e5-b06a-d43d7ef79ff0"]
                 0 0 0]
         "errors: No known data errors".

(** The loop has read [sampleScrub]. *)
Definition afterScrub : config := mkConfig [scrubPool] zpoolParseErrors 0.

(** The loop has read [sampleScrub], a blank line and [sampleStripe]. *)
Definition afterStripe : config :=
  mkConfig [scrubPool; stripePool [zeroVdev] "errors: No known data errors"]
           zpoolParseErrors 0.

(** A scan line as [zpool status] prints it, and one without the white
    space before it. *)
Definition scanLine : string := "  scan: none requested".
Definition bareScanLine : string := "scan: none requested".

(** The three lines that follow the scan line, and three others. *)
Definition tableHead : list string :=
  ["config:"; ""; tab ++ "NAME        STATE     READ WRITE CKSUM"].
Definition threeOthers : list string :=
  ["an unrelated line"; "another one"; "a third"].
Definition tankTable : list string :=
  [tab ++ "tank        ONLINE       0     0     0";
   tab ++ "  mirror-0  ONLINE       0     0     0";
   tab ++ "    e43d41b6-adcc-11e5-b06a-d43d7ef79ff0  ONLINE       0     0     0";
   "";
   "errors: No known data errors"].

(** ** A text in the layout of [zpool status] *)

(** The lines of a pool whose states are all [ONLINE] and whose counters
    are all zero, as the states of the parser read them. *)
Definition poolLine (line name : string) : Prop :=
  Fmt.Sscanf line Fmt.format_pool = inr name.

Definition stateLine (line : string) : Prop :=
  Strings.HasPrefix (Strings.TrimSpace line) "scan: " = false
  /\ Strings.HasPrefix (Strings.TrimSpace line) "action: " = false
  /\ Strings.HasPrefix (Strings.TrimSpace line) "status: " = false
  /\ Strings.HasPrefix (Strings.TrimSpace line) "state: " = true
  /\ Fmt.Sscanf (Strings.TrimSpace line) Fmt.format_state = inr "ONLINE".

Definition scanLineOf (line : string) : Prop :=
  Strings.HasPrefix (Strings.TrimSpace line) "scan: " = true
  /\ exists w, Fmt.Sscanf line Fmt.format_scan = inr w.

Definition onlineRow (line name : string) : Prop :=
  Fmt.Sscanf line Fmt.format_row = inr (name, "ONLINE", 0, 0, 0).

Definition groupLine (line : string) : Prop :=
  Strings.Contains line "mirror-" || Strings.Contains line "raidz" = true
  /\ exists name, onlineRow line name.

Definition diskLine (line : string) : Prop :=
  MatchString diskRe line = true
  /\ (exists name, onlineRow line name)
  /\ FindStringSubmatch diskMessageRe line = [].

Definition emptyLine (line : string) : Prop :=
  MatchString diskRe line = false
  /\ (String.length (Strings.TrimSpace line) =? 0)%nat = true.

Definition noErrors : string := "errors: No known data errors".

(** The lines of a text with one pool, one group and the disks [rows]. *)
Definition standardLines (l1 l2 l3 : string) (skipped : list string)
           (l7 l8 : string) (rows : list string) (blankLine : string)
  : list string :=
  (l1 :: l2 :: l3 :: skipped ++ l7 :: l8 :: rows ++ [blankLine; noErrors])%list.

(** The rows of [sampleScrub]. *)
Definition tankRow : string := tab ++ "tank        ONLINE       0     0     0".
Definition mirrorRow : string :=
  tab ++ "  mirror-0  ONLINE       0     0     0".
Definition scrubRows : list string :=
  [tab ++ "    e43d41b6-adcc-11e5-b06a-d43d7ef79ff0  ONLINE       0     0     0";
   tab ++ "    e4a31d4c-adcc-11e5-b06a-d43d7ef79ff0  ONLINE       0     0     0"].

(** ** Notes on a disk row *)






(** ** The self-test analyzer: more definitions for the statements *)

(** The number of rows of the log of a disk that count as failures. *)
Definition failedRows (e : executer) (disk : string) : nat :=
  List.length (filter failed (rowsOf e disk)).

(** A row whose power-on hours do not fit in an [int]. *)
Definition sampleOverflow : string :=
  unlines
    ["Num  Test_Description    Status                  Remaining  LifeTime(hours)  LBA_of_first_error";
     "# 1  Short offline       Completed without error       00%     99999999999999999999         -"].

(** An executer that fails for [/dev/sdf] and answers as [failsAtSde]
    for the other disks. *)
Definition noSdf : executer :=
  fun cmd args =>
    if (nth 2 args "" =? "/dev/sdf")%string
    then inl (errorString "exit status 2")
    else failsAtSde cmd args.

(** ** The free space of the pools: definitions for the statements *)

(** The output of [zfs list] that the expectation for [zfsList.txt] in
    [main_test.go] describes. *)
Definition sampleList : string :=
  unlines
    ["NAME                    USED  AVAIL     REFER  MOUNTPOINT";
     "boot-pool              2.51G  16.0G       96K  none";
     "boot-pool/ROOT         2.50G  16.0G       96K  none";
     "primarySafe            5.11T  16.5G      208K  /mnt/primarySafe";
     "primarySafe/apps       1.20G  16.5G      112K  /mnt/primarySafe/apps"].

(** The output of [zfs list] on a machine without pools. *)
Definition sampleNoDatasets : string := unlines ["no datasets available"].

(** The first position at or after [pos] where [sub] begins in [s]. *)
Fixpoint firstIndex (sub s : string) (pos : nat) : option nat :=
  if String.prefix sub s then Some pos
  else match s with
       | String _ s' => firstIndex sub s' (S pos)
       | EmptyString => None
       end.

(** White space, and a word: characters of [\s], of [\S], at least one. *)
Definition blank (w : string) : Prop :=
  w <> "" /\ allChars class_s w = true.

Definition column (w : string) : Prop :=
  w <> "" /\ allChars class_S w = true.

(** Where [name] occurs first in [listing], it begins a row whose third
    column is [avail]. *)
Definition rowOf (listing name avail : string) : Prop :=
  exists pre ws1 used ws2 ws3 rest,
    listing = pre ++ name ++ ws1 ++ used ++ ws2 ++ avail ++ ws3 ++ rest
    /\ firstIndex name listing 0 = Some (String.length pre)
    /\ blank ws1 /\ column used /\ blank ws2 /\ column avail /\ blank ws3.

(** [r] is empty or begins with a character that is not of [f]. *)
Definition stops (f : ascii -> bool) (r : string) : Prop :=
  match r with
  | EmptyString => True
  | String c _ => f c = false
  end.

(** ** Outputs of [smartctl] without a log *)

(** What [smartctl] prints for a device it cannot open. *)
Definition sampleNoDevice : string :=
  unlines
    ["smartctl 7.2 2020-12-30 r5155 [FreeBSD 13.1-RELEASE-p9 amd64] (local build)";
     "Copyright (C) 2002-20, Bruce Allen, Christian Franke, www.smartmontools.org";
     "";
     "Smartctl open device: /dev/sda failed: No such file or directory"].

(** ** A document without a scan line (C6) *)

(** The summary says [ONLINE] and the row of the table [DEGRADED]; no
    scan line comes between them. *)
Definition sampleNoScan : string :=
  unlines
    ["  pool: tank";
     " state: ONLINE";
     "config:";
     "";
     tab ++ "NAME        STATE     READ WRITE CKSUM";
     degradedRow;
     tab ++ "  mirror-0  DEGRADED     0     0     0";
     tab ++ "    e43d41b6-adcc-11e5-b06a-d43d7ef79ff0  ONLINE       0     0     0";
     tab ++ "    e4a31d4c-adcc-11e5-b06a-d43d7ef79ff0  OFFLINE      0     0     0";
     "";
     "errors: No known data errors"].

(** ** The ages on every return (C7) *)

(** The hours of a row do not convert to an [int]. *)
Definition hoursFail (m : list string) : bool :=
  match Atoi (nth 2 m "") with
  | inl _ => true
  | inr _ => false
  end.

(** The loop stops at the disk: [Atoi] fails on a row of its log, or its
    failures meet the threshold. *)
Definition endsBatch (e : executer) (disk : string) : bool :=
  existsb hoursFail (rowsOf e disk)
  || overThreshold (Z.of_nat (failedRows e disk))
                   (List.length (rowsOf e disk)).

(** The disks whose log the loop reads: the disks in their order, up to
    and including the first one that ends the batch, and short of the
    first one for which the executer fails. *)
Fixpoint scanned (e : executer) (ds : list string) : list string :=
  match ds with
  | [] => []
  | disk :: rest =>
      match selftest e disk with
      | inl _ => []
      | inr _ => disk :: (if endsBatch e disk then [] else scanned e rest)
      end
  end.

(** An executer that prints [sampleYoung] for [/dev/sda] and
    [sampleTwoFailures] for the other disks: the first disk passes, the
    second is over the threshold and is the older one. *)
Definition breachAtSdb : executer :=
  fun _ args =>
    if (nth 2 args "" =? "/dev/sda")%string
    then inr sampleYoung
    else inr sampleTwoFailures.

(* ================================================================== *)
(** * The health evaluator: what the loops compute *)
(* ================================================================== *)

Section Loops.

Context {A : Type}.

(** A loop that only clears a flag. *)
Lemma fold_left_andb (f : A -> bool) (l : list A) (b : bool) :
  fold_left (fun healthy x => healthy && f x) l b = b && forallb f l.
Proof.
  revert b; induction l as [|x l IH]; intros b; simpl.
  - now rewrite andb_true_r.
  - rewrite IH. now rewrite andb_assoc.
Qed.

(** A loop that only appends. *)
Lemma fold_left_append {B : Type} (body : list B -> A -> list B)
      (lines : A -> list B) (l : list A) :
  (forall acc x, body acc x = (acc ++ lines x)%list) ->
  forall acc, fold_left body l acc = (acc ++ flat_map lines l)%list.
Proof.
  intros Hbody. induction l as [|x l IH]; intros acc; simpl.
  - now rewrite app_nil_r.
  - rewrite Hbody, IH. now rewrite <- app_assoc.
Qed.

Lemma flat_map_nil {B : Type} (lines : A -> list B) (l : list A) :
  (forall x, In x l -> lines x = []) -> flat_map lines l = [].
Proof.
  induction l as [|x l IH]; intros H; simpl; [reflexivity|].
  rewrite (H x (or_introl eq_refl)). apply IH.
  intros y Hy. apply H. now right.
Qed.

End Loops.

Lemma splitLast_app {A : Type} (l : list A) (x : A) :
  splitLast (l ++ [x]) = Some (l, x).
Proof.
  induction l as [|y l IH]; simpl; [reflexivity|]. now rewrite IH.
Qed.

Lemma splitLast_Some {A : Type} (l init : list A) (x : A) :
  splitLast l = Some (init, x) -> l = (init ++ [x])%list.
Proof.
  revert init; induction l as [|y l IH]; intros init; simpl; [discriminate|].
  destruct (splitLast l) as [[i z]|] eqn:E.
  - intros H; inversion H; subst. simpl. f_equal. now apply IH.
  - intros H; inversion H; subst. destruct l; [reflexivity|].
    simpl in E. destruct (splitLast l) as [[? ?]|]; discriminate.
Qed.

Lemma splitLast_None {A : Type} (l : list A) :
  splitLast l = None -> l = [].
Proof.
  destruct l as [|y l]; [reflexivity|]. simpl.
  destruct (splitLast l) as [[? ?]|]; discriminate.
Qed.

Lemma vdev_Healthy_forallb (v : vdev) :
  vdev_Healthy v = vdev_own v && forallb vdevDisk_Healthy (vdev_disks v).
Proof. unfold vdev_Healthy. now rewrite fold_left_andb. Qed.

Lemma pool_Health_forallb (p : pool) :
  pool_Health p = pool_own p && forallb vdev_Healthy (pool_vdevs p).
Proof. unfold pool_Health. now rewrite fold_left_andb. Qed.

Lemma diskErrs_lines (errs : list string) (d : vdevDisk) :
  diskErrs errs d = (errs ++ diskLines d)%list.
Proof.
  unfold diskErrs, diskLines.
  destruct (negb (vdevDisk_Healthy d)); [reflexivity|now rewrite app_nil_r].
Qed.

Lemma vdevErrs_lines (errs : list string) (v : vdev) :
  vdevErrs errs v = (errs ++ vdevLines v)%list.
Proof.
  unfold vdevErrs, vdevLines.
  rewrite (fold_left_append diskErrs diskLines _ diskErrs_lines).
  destruct (negb (vdev_Healthy v)); simpl.
  - now rewrite <- app_assoc.
  - reflexivity.
Qed.

Lemma poolErrs_lines (errs : list string) (p : pool) :
  poolErrs errs p = (errs ++ poolLines p)%list.
Proof.
  unfold poolErrs, poolLines, scrubLines, scrubFault.
  rewrite (fold_left_append vdevErrs vdevLines _ vdevErrs_lines).
  destruct (negb (pool_Health p));
    destruct (Strings.Contains (pool_scanStatus p) "scrub repaired"
              && negb (Strings.Contains (pool_scanStatus p) "with 0 errors"));
    simpl; rewrite <- ?app_assoc, ?app_nil_r; reflexivity.
Qed.

(** The diagnostics are the lines of the pools, in the order of the
    pools. *)
Lemma poolsErrs_lines (pools : list pool) :
  poolsErrs pools = flat_map poolLines pools.
Proof.
  unfold poolsErrs.
  now rewrite (fold_left_append poolErrs poolLines _ poolErrs_lines).
Qed.

Lemma healthy_vdev_lines (v : vdev) :
  vdev_Healthy v = true -> vdevLines v = [].
Proof.
  intros H. unfold vdevLines. rewrite H. simpl.
  rewrite vdev_Healthy_forallb in H. apply andb_true_iff in H as [_ H].
  rewrite forallb_forall in H. apply flat_map_nil.
  intros d Hd. unfold diskLines. now rewrite (H d Hd).
Qed.

(* ================================================================== *)
(** * Spare groups (C1) *)
(* ================================================================== *)

Lemma parsePools_sampleSpare : parsePools sampleSpare = Val [sparePool].
Proof. vm_compute. reflexivity. Qed.

(** C1, as stated, fails: in the tree parsed from [sampleSpare] the group
    of kind spare has an unavailable disk and its [Healthy] is false; the
    evaluator prints the line of the group, as [main_test.go] expects for
    [zpoolSample5.txt]. *)
Lemma spare_group_with_bad_disk_is_unhealthy :
  parsePools sampleSpare = Val [sparePool]
  /\ In spareGroup (pool_vdevs sparePool)
  /\ vdev_typev spareGroup = vdevTypeSpare
  /\ vdev_Healthy spareGroup = false
  /\ checkPoolStatus (prints sampleSpare)
     = Err (errorString
              ("pool primarySafe - ONLINE (0|0|0): errors: No known data errors"
               ++ nl ++ "vdev spares -  (0|0|0)"
               ++ nl ++ "disk f9aeb0c4-a208-4118-a5e3-0d01bfb36743 - UNAVAIL: ")).
Proof.
  split; [exact parsePools_sampleSpare|].
  split; [simpl; right; left; reflexivity|].
  repeat split; vm_compute; reflexivity.
Qed.

(** C1, amended: the [Healthy] of a group of kind spare does not look at
    the state and the counters of the group, and is true exactly when all
    its disks are healthy.  When a disk of the group is unhealthy, the
    group is unhealthy, and the diagnostics hold the summary of the pool,
    then the one of the group, then the one of the disk. *)
Theorem spare_group_health (pools : list pool) (p : pool) (v : vdev)
        (d : vdevDisk) :
  In p pools -> In v (pool_vdevs p) -> In d (vdev_disks v) ->
  vdev_typev v = vdevTypeSpare ->
  vdev_Healthy v = forallb vdevDisk_Healthy (vdev_disks v)
  /\ (vdevDisk_Healthy d = false ->
      vdev_Healthy v = false
      /\ exists l1 l2 l3 l4,
          poolsErrs pools
          = (l1 ++ pool_String p :: l2 ++ vdev_String v :: l3
                ++ vdevDisk_String d :: l4)%list).
Proof.
  intros Hp Hv Hd Hspare.
  assert (Hall : vdev_Healthy v = forallb vdevDisk_Healthy (vdev_disks v)).
  { rewrite vdev_Healthy_forallb. unfold vdev_own. now rewrite Hspare. }
  split; [exact Hall|]. intros Hbad.
  assert (Hvbad : vdev_Healthy v = false).
  { rewrite Hall. apply not_true_is_false. intros Hf.
    rewrite forallb_forall in Hf. specialize (Hf d Hd). congruence. }
  split; [exact Hvbad|].
  assert (Hpbad : pool_Health p = false).
  { rewrite pool_Health_forallb. apply not_true_is_false. intros Hf.
    apply andb_true_iff in Hf as [_ Hf]. rewrite forallb_forall in Hf.
    specialize (Hf v Hv). congruence. }
  rewrite poolsErrs_lines.
  apply in_split in Hp as (ps1 & ps2 & ->).
  apply in_split in Hv as (vs1 & vs2 & Hvs).
  apply in_split in Hd as (ds1 & ds2 & Hds).
  rewrite flat_map_app. simpl.
  unfold poolLines at 2. rewrite Hpbad. simpl.
  rewrite Hvs, flat_map_app. simpl.
  unfold vdevLines at 2. rewrite Hvbad. simpl.
  rewrite Hds, flat_map_app. simpl.
  unfold diskLines at 2. rewrite Hbad. simpl.
  exists (flat_map poolLines ps1), (flat_map vdevLines vs1),
    (flat_map diskLines ds1),
    (flat_map diskLines ds2 ++ flat_map vdevLines vs2 ++ scrubLines p
       ++ flat_map poolLines ps2)%list.
  rewrite <- !app_assoc. simpl. rewrite <- !app_assoc. simpl.
  rewrite <- !app_assoc. reflexivity.
Qed.

Lemma spare_group_health_witness :
  In sparePool [sparePool] /\ In spareGroup (pool_vdevs sparePool)
  /\ In spareDisk (vdev_disks spareGroup)
  /\ vdev_typev spareGroup = vdevTypeSpare
  /\ vdev_Healthy spareGroup
     = forallb vdevDisk_Healthy (vdev_disks spareGroup)
  /\ (vdevDisk_Healthy spareDisk = false ->
      vdev_Healthy spareGroup = false
      /\ exists l1 l2 l3 l4,
          poolsErrs [sparePool]
          = (l1 ++ pool_String sparePool :: l2 ++ vdev_String spareGroup
                :: l3 ++ vdevDisk_String spareDisk :: l4)%list).
Proof.
  assert (H1 : In sparePool [sparePool]) by (left; reflexivity).
  assert (H2 : In spareGroup (pool_vdevs sparePool))
    by (right; left; reflexivity).
  assert (H3 : In spareDisk (vdev_disks spareGroup)) by (left; reflexivity).
  assert (H4 : vdev_typev spareGroup = vdevTypeSpare) by reflexivity.
  repeat (split; [assumption|]).
  exact (spare_group_health [sparePool] sparePool spareGroup spareDisk
                            H1 H2 H3 H4).
Defined.

(* ================================================================== *)
(** * Words read by [%s] *)
(* ================================================================== *)

Lemma allChars_app (f : ascii -> bool) (a b : string) :
  allChars f (a ++ b) = allChars f a && allChars f b.
Proof.
  induction a as [|c a IH]; simpl; [reflexivity|].
  now rewrite IH, andb_assoc.
Qed.

Lemma prefix_app (p s : string) :
  String.prefix p s = true -> exists r, s = p ++ r.
Proof.
  revert s; induction p as [|c p IH]; intros s H.
  - exists s. reflexivity.
  - destruct s as [|c' s]; simpl in H; [discriminate|].
    destruct (ascii_dec c c') as [->|]; [|discriminate].
    destruct (IH s H) as [r ->]. now exists r.
Qed.

(** A text whose characters all satisfy [f] does not contain a text with
    a character that does not. *)
Lemma Contains_allChars (f : ascii -> bool) (s sub : string) :
  allChars f s = true -> allChars f sub = false ->
  Strings.Contains s sub = false.
Proof.
  intros Hs Hsub. induction s as [|c s IH].
  - destruct sub; [discriminate|reflexivity].
  - simpl in Hs. apply andb_true_iff in Hs as [Hc Hs].
    change (Strings.Contains (String c s) sub)
      with (String.prefix sub (String c s) || Strings.Contains s sub).
    rewrite (IH Hs), orb_false_r.
    destruct (String.prefix sub (String c s)) eqn:E; [|reflexivity].
    apply prefix_app in E as [r E].
    assert (H : allChars f (String c s) = true) by (simpl; now rewrite Hc, Hs).
    rewrite E, allChars_app, Hsub in H. discriminate.
Qed.

Lemma word_notSpace (s : string) :
  allChars notSpace (fst (Fmt.word s)) = true.
Proof.
  induction s as [|c s IH]; simpl; [reflexivity|].
  destruct (Strings.isSpace c) eqn:E; simpl; [reflexivity|].
  destruct (Fmt.word s) as [w r]. simpl in *.
  unfold notSpace at 1. rewrite E. exact IH.
Qed.

Lemma verb_s_notSpace (s w r : string) :
  Fmt.verb_s s = inr (w, r) -> allChars notSpace w = true.
Proof.
  unfold Fmt.verb_s, Fmt.bind. destruct (Fmt.SkipSpace s) as [e|[[] s1]];
    [discriminate|].
  destruct (Fmt.notEOF s1) as [e|[[] s2]]; [discriminate|].
  intros H. injection H as H. pose proof (word_notSpace s2) as Hw.
  rewrite H in Hw. exact Hw.
Qed.

(** The scan status that the Scan state stores is one word. *)
Lemma format_scan_notSpace (line w : string) :
  Fmt.Sscanf line Fmt.format_scan = inr w -> allChars notSpace w = true.
Proof.
  unfold Fmt.Sscanf, Fmt.format_scan, Fmt.bind.
  destruct (Fmt.fmtSpace line) as [e|[[] s1]]; [discriminate|].
  destruct (Fmt.fmtLit "scan:" s1) as [e|[[] s2]]; [discriminate|].
  destruct (Fmt.fmtSpace s2) as [e|[[] s3]]; [discriminate|].
  destruct (Fmt.verb_s s3) as [e|[w' r]] eqn:E; [discriminate|].
  intros H; inversion H; subst. eapply verb_s_notSpace; eauto.
Qed.

Lemma word_no_scrub_fault (w : string) :
  allChars notSpace w = true ->
  Strings.Contains w "scrub repaired" = false.
Proof.
  intros H. apply (Contains_allChars notSpace); [exact H|reflexivity].
Qed.

(* ================================================================== *)
(** * Invariants of the parser *)
(* ================================================================== *)

Lemma onLast_Val (pools : list pool) (body : pool -> res pool)
      (next : zpoolParseState) (n : nat) (st : step) :
  onLast pools body next n = Val st ->
  exists init p p',
    pools = (init ++ [p])%list /\ body p = Val p'
    /\ st = mkStep None (init ++ [p']) next n.
Proof.
  unfold onLast. destruct (splitLast pools) as [[init p]|] eqn:E;
    [|discriminate].
  destruct (body p) as [p'| |] eqn:B; try discriminate.
  intros H; inversion H; subst. exists init, p, p'.
  split; [now apply splitLast_Some|]. now split.
Qed.

Lemma onLast_Crash (pools : list pool) (body : pool -> res pool)
      (next : zpoolParseState) (n : nat) :
  onLast pools body next n = Crash ->
  pools = [] \/ exists init p, pools = (init ++ [p])%list /\ body p = Crash.
Proof.
  unfold onLast. destruct (splitLast pools) as [[init p]|] eqn:E.
  - destruct (body p) eqn:B; try discriminate. intros _. right.
    exists init, p. split; [now apply splitLast_Some|exact B].
  - intros _. left. now apply splitLast_None.
Qed.

Lemma onLast_app (init : list pool) (p : pool) (body : pool -> res pool)
      (next : zpoolParseState) (n : nat) :
  onLast (init ++ [p]) body next n
  = match body p with
    | Val p' => Val (mkStep None (init ++ [p']) next n)
    | Err e => Err e
    | Crash => Crash
    end.
Proof. unfold onLast. now rewrite splitLast_app. Qed.

Lemma Forall_replace_last {A : Type} (P : A -> Prop) (init : list A)
      (x y : A) :
  Forall P (init ++ [x]) -> P y -> Forall P (init ++ [y]).
Proof.
  intros H Hy. apply Forall_app in H as [H _].
  apply Forall_app. split; [exact H|]. now constructor.
Qed.

Lemma Forall_last {A : Type} (P : A -> Prop) (init : list A) (x : A) :
  Forall P (init ++ [x]) -> P x.
Proof.
  intros H. apply Forall_app in H as [_ H]. now inversion H.
Qed.

Lemma app_last_not_nil {A : Type} (init : list A) (x : A) :
  (init ++ [x])%list <> [].
Proof. destruct init; discriminate. Qed.

Lemma okPool_same (p p' : pool) :
  pool_scanStatus p' = pool_scanStatus p -> pool_vdevs p' = pool_vdevs p ->
  okPool p -> okPool p'.
Proof. unfold okPool. now intros -> ->. Qed.

(** The Scan state keeps the invariant: [%s] stores one word. *)
Lemma caseScan_Val (pools : list pool) (line : string) (st : step) :
  Forall okPool pools -> caseScan pools line = Val st ->
  Forall okPool (pools_after st) /\ pools_after st <> []
  /\ newPool st = None /\ state_after st = zpoolParsePool.
Proof.
  intros Hok H. apply onLast_Val in H as (init & p & p' & -> & B & ->).
  simpl. destruct (Fmt.Sscanf line Fmt.format_scan) as [e|w] eqn:E;
    [discriminate|]. inversion B; subst.
  repeat split; [|apply app_last_not_nil].
  eapply Forall_replace_last; [exact Hok|].
  destruct (Forall_last _ _ _ Hok) as [_ Hv]. split; [|exact Hv].
  simpl. eapply format_scan_notSpace; eauto.
Qed.

(** The Vdev state appends a group without disks. *)
Lemma caseVdev_Val (pools : list pool) (line : string) (st : step) :
  Forall okPool pools -> caseVdev pools line = Val st ->
  Forall okPool (pools_after st)
  /\ (exists init p vs v,
         pools_after st = (init ++ [p])%list
         /\ pool_vdevs p = (vs ++ [v])%list)
  /\ newPool st = None /\ state_after st = zpoolParseDisk.
Proof.
  intros Hok H. apply onLast_Val in H as (init & p & p' & -> & B & ->).
  simpl. destruct (Forall_last _ _ _ Hok) as [Hs Hv].
  assert (Hnew : forall v, vdev_disks v = [] ->
                  okPool (set_pool_vdevs p (pool_vdevs p ++ [v]))).
  { intros v Hd. split; [exact Hs|]. simpl. apply Forall_app.
    split; [exact Hv|]. constructor; [|constructor].
    unfold disksOwned. rewrite Hd. constructor. }
  destruct (Strings.Contains line "mirror-" || Strings.Contains line "raidz").
  - destruct (Fmt.Sscanf line Fmt.format_row) as [e|[[[[a b] r] w] c]];
      [discriminate|]. inversion B; subst.
    repeat split;
      [eapply Forall_replace_last; [exact Hok|now apply Hnew]|].
    eexists init, _, (pool_vdevs p), _. split; reflexivity.
  - destruct (Strings.Contains line "spares").
    + destruct (Fmt.Sscanf line Fmt.format_name) as [e|a]; [discriminate|].
      inversion B; subst.
      repeat split;
        [eapply Forall_replace_last; [exact Hok|now apply Hnew]|].
      eexists init, _, (pool_vdevs p), _. split; reflexivity.
    + inversion B; subst.
      repeat split;
        [eapply Forall_replace_last; [exact Hok|now apply Hnew]|].
      eexists init, _, (pool_vdevs p), _. split; reflexivity.
Qed.

Lemma caseVdev_no_crash (pools : list pool) (line : string) :
  pools <> [] -> caseVdev pools line <> Crash.
Proof.
  intros Hne H. apply onLast_Crash in H as [H|(init & p & -> & B)];
    [contradiction|].
  destruct (Strings.Contains line "mirror-" || Strings.Contains line "raidz").
  - destruct (Fmt.Sscanf line Fmt.format_row) as [e|[[[[a b] r] w] c]];
      discriminate.
  - destruct (Strings.Contains line "spares"); [|discriminate].
    destruct (Fmt.Sscanf line Fmt.format_name); discriminate.
Qed.

Lemma diskFields_typev (v : vdev) (line : string) (d : vdevDisk) :
  diskFields v line = Val d -> disk_vdev_typev d = vdev_typev v.
Proof.
  unfold diskFields. destruct (vdev_typev v).
  - intros H; inversion H; reflexivity.
  - destruct (Fmt.Sscanf line Fmt.format_row) as [e|[[[[a b] r] w] c]];
      [discriminate|]. intros H; inversion H; reflexivity.
  - destruct (Fmt.Sscanf line Fmt.format_spare) as [e|[a b]];
      [discriminate|]. intros H; inversion H; reflexivity.
Qed.

Lemma diskFields_no_crash (v : vdev) (line : string) :
  diskFields v line <> Crash.
Proof.
  unfold diskFields. destruct (vdev_typev v).
  - discriminate.
  - destruct (Fmt.Sscanf line Fmt.format_row) as [e|[[[[a b] r] w] c]];
      discriminate.
  - destruct (Fmt.Sscanf line Fmt.format_spare) as [e|[a b]]; discriminate.
Qed.

(** A disk row is appended to the last group, with the kind of that group
    behind its back reference. *)
Lemma caseDiskRow_Val (pools : list pool) (line : string) (st : step) :
  Forall okPool pools -> caseDiskRow pools line = Val st ->
  Forall okPool (pools_after st)
  /\ (exists init p vs v,
         pools_after st = (init ++ [p])%list
         /\ pool_vdevs p = (vs ++ [v])%list)
  /\ newPool st = None /\ state_after st = zpoolParseDisk.
Proof.
  intros Hok H. apply onLast_Val in H as (init & p & p' & -> & B & ->).
  simpl. destruct (Forall_last _ _ _ Hok) as [Hs Hv].
  destruct (splitLast (pool_vdevs p)) as [[vs v]|] eqn:E; [|discriminate].
  apply splitLast_Some in E.
  destruct (diskFields v line) as [d| |] eqn:F; try discriminate.
  apply diskFields_typev in F.
  inversion B; subst p'; clear B.
  repeat split.
  - eapply Forall_replace_last; [exact Hok|]. split; [exact Hs|]. simpl.
    rewrite E in Hv. eapply Forall_replace_last; [exact Hv|].
    apply Forall_last in Hv. unfold disksOwned in *. simpl.
    apply Forall_app. split; [exact Hv|]. constructor; [|constructor].
    destruct (0 <? Datatypes.length (FindStringSubmatch diskMessageRe line))%nat;
      simpl; exact F.
  - eexists init, _, vs, _. split; reflexivity.
Qed.

Lemma caseDiskRow_no_crash (pools : list pool) (line : string) :
  (exists init p vs v,
      pools = (init ++ [p])%list /\ pool_vdevs p = (vs ++ [v])%list) ->
  caseDiskRow pools line <> Crash.
Proof.
  intros (init & p & vs & v & -> & Hv) H.
  apply onLast_Crash in H as [H|(init' & p' & E & B)].
  - now apply app_last_not_nil in H.
  - apply app_inj_tail in E as [_ <-].
    rewrite Hv, splitLast_app in B.
    pose proof (diskFields_no_crash v line) as N.
    destruct (diskFields v line); try discriminate. now apply N.
Qed.

Ltac simple_body H :=
  apply onLast_Val in H as (?init & ?p & ?p' & -> & ?B & ->); simpl.

(** One token keeps the invariant. *)
Lemma feed_Inv (c c' : config) (line : string) :
  Inv c -> feed c line = Val c' -> Inv c'.
Proof.
  intros [Hok Hsh]. unfold feed.
  destruct c as [pools state skip]; simpl in *.
  destruct skip as [|skip'].
  2:{ intros H; inversion H; subst. split; assumption. }
  destruct (parsePoolState pools line state) as [st| |] eqn:P;
    try discriminate.
  intros H; inversion H; subst c'; clear H.
  unfold shape in Hsh; simpl in Hsh. unfold Inv, shape; simpl.
  destruct state; simpl in P.
  - (* Start *)
    destruct (Fmt.Sscanf line Fmt.format_pool) as [e|name]; [discriminate|].
    inversion P; subst; simpl. split; [|apply app_last_not_nil].
    apply Forall_app. split; [exact Hok|]. constructor; [|constructor].
    split; [reflexivity|constructor].
  - (* Status *)
    destruct (Strings.HasPrefix (Strings.TrimSpace line) "scan: ").
    { apply caseScan_Val in P as (H1 & H2 & -> & ->); [|exact Hok].
      now split. }
    destruct (Strings.HasPrefix (Strings.TrimSpace line) "action: ").
    { inversion P; subst; simpl. now split. }
    destruct (Strings.HasPrefix (Strings.TrimSpace line) "status: ").
    { simple_body P. inversion B; subst. split; [|apply app_last_not_nil].
      eapply Forall_replace_last; [exact Hok|].
      eapply okPool_same; [| |exact (Forall_last _ _ _ Hok)]; reflexivity. }
    destruct (Strings.HasPrefix (Strings.TrimSpace line) "state: ").
    { simple_body P.
      destruct (Fmt.Sscanf (Strings.TrimSpace line) Fmt.format_state);
        [discriminate|]. inversion B; subst.
      split; [|apply app_last_not_nil].
      eapply Forall_replace_last; [exact Hok|].
      eapply okPool_same; [| |exact (Forall_last _ _ _ Hok)]; reflexivity. }
    simple_body P. inversion B; subst. split; [|apply app_last_not_nil].
    eapply Forall_replace_last; [exact Hok|].
    eapply okPool_same; [| |exact (Forall_last _ _ _ Hok)]; reflexivity.
  - (* Scan *)
    apply caseScan_Val in P as (H1 & H2 & -> & ->); [|exact Hok]. now split.
  - (* Pool *)
    simple_body P.
    destruct (Fmt.Sscanf line Fmt.format_row) as [e|[[[[a b] r] w] x]];
      [discriminate|].
    destruct (negb (a =? pool_name p)%string); [discriminate|].
    destruct (negb (b =? pool_state p)%string); [discriminate|].
    inversion B; subst. split; [|apply app_last_not_nil].
    eapply Forall_replace_last; [exact Hok|].
    eapply okPool_same; [| |exact (Forall_last _ _ _ Hok)]; reflexivity.
  - (* Vdev *)
    apply caseVdev_Val in P as (H1 & H2 & -> & ->); [|exact Hok]. now split.
  - (* Disk *)
    destruct (negb (MatchString diskRe line)).
    + destruct (String.length (Strings.TrimSpace line) =? 0)%nat.
      * inversion P; subst; simpl. split; [exact Hok|].
        destruct Hsh as (init & p & _ & _ & -> & _). apply app_last_not_nil.
      * apply caseVdev_Val in P as (H1 & H2 & -> & ->); [|exact Hok].
        now split.
    + apply caseDiskRow_Val in P as (H1 & H2 & -> & ->); [|exact Hok].
      now split.
  - (* Errors *)
    destruct (String.length (Strings.TrimSpace line) =? 0)%nat.
    { inversion P; subst; simpl. now split. }
    simple_body P.
    destruct (pool_errors p =? "")%string; inversion B; subst;
      (split; [|apply app_last_not_nil]);
      (eapply Forall_replace_last; [exact Hok|]);
      (eapply okPool_same; [| |exact (Forall_last _ _ _ Hok)]; reflexivity).
Qed.

Ltac no_crash_body H Hne :=
  apply onLast_Crash in H as [H|(?init & ?p & ?E & ?B)];
  [now apply Hne|].

(** No token makes the parser panic. *)
Lemma feed_no_crash (c : config) (line : string) :
  Inv c -> feed c line <> Crash.
Proof.
  intros [Hok Hsh]. unfold feed.
  destruct c as [pools state skip]; simpl in *.
  destruct skip as [|skip']; [|discriminate].
  destruct (parsePoolState pools line state) as [st| |] eqn:P;
    try discriminate.
  exfalso. unfold shape in Hsh; simpl in Hsh.
  assert (Hscan : pools <> [] -> caseScan pools line <> Crash).
  { intros Hne H. no_crash_body H Hne.
    destruct (Fmt.Sscanf line Fmt.format_scan); discriminate. }
  destruct state; simpl in P.
  - destruct (Fmt.Sscanf line Fmt.format_pool); discriminate.
  - destruct (Strings.HasPrefix (Strings.TrimSpace line) "scan: ");
      [now apply (Hscan Hsh)|].
    destruct (Strings.HasPrefix (Strings.TrimSpace line) "action: ");
      [discriminate|].
    destruct (Strings.HasPrefix (Strings.TrimSpace line) "status: ");
      [no_crash_body P Hsh; discriminate|].
    destruct (Strings.HasPrefix (Strings.TrimSpace line) "state: ").
    { no_crash_body P Hsh.
      destruct (Fmt.Sscanf (Strings.TrimSpace line) Fmt.format_state);
        discriminate. }
    no_crash_body P Hsh; discriminate.
  - now apply (Hscan Hsh).
  - no_crash_body P Hsh.
    destruct (Fmt.Sscanf line Fmt.format_row) as [e|[[[[a b] r] w] x]];
      [discriminate|].
    destruct (negb (a =? pool_name p)%string); [discriminate|].
    destruct (negb (b =? pool_state p)%string); discriminate.
  - now apply (caseVdev_no_crash pools line Hsh).
  - destruct (negb (MatchString diskRe line)).
    + destruct (String.length (Strings.TrimSpace line) =? 0)%nat;
        [discriminate|].
      apply (caseVdev_no_crash pools line); [|exact P].
      destruct Hsh as (init & p & _ & _ & -> & _). apply app_last_not_nil.
    + now apply (caseDiskRow_no_crash pools line Hsh).
  - destruct (String.length (Strings.TrimSpace line) =? 0)%nat;
      [discriminate|].
    no_crash_body P Hsh.
    destruct (pool_errors p =? "")%string; discriminate.
Qed.

Lemma Inv_start : Inv start.
Proof. split; [constructor|exact I]. Qed.

Lemma parseLines_Inv (lines : list string) (c c' : config) :
  Inv c -> parseLines lines c = Val c' -> Inv c'.
Proof.
  revert c; induction lines as [|l lines IH]; intros c Hc; simpl.
  - intros H; inversion H; now subst.
  - destruct (feed c l) as [c1| |] eqn:F; try discriminate.
    apply IH. eapply feed_Inv; eauto.
Qed.

Lemma parseLines_no_crash (lines : list string) (c : config) :
  Inv c -> parseLines lines c <> Crash.
Proof.
  revert c; induction lines as [|l lines IH]; intros c Hc; simpl;
    [discriminate|].
  destruct (feed c l) as [c1| |] eqn:F.
  - apply IH. eapply feed_Inv; eauto.
  - discriminate.
  - now apply feed_no_crash in F.
Qed.

(** The loop run on a prefix of the tokens, then on the rest. *)
Lemma parseLines_app (l1 l2 : list string) (c : config) :
  parseLines (l1 ++ l2) c
  = match parseLines l1 c with
    | Val c' => parseLines l2 c'
    | Err e => Err e
    | Crash => Crash
    end.
Proof.
  revert c; induction l1 as [|l l1 IH]; intros c; simpl; [reflexivity|].
  destruct (feed c l); [apply IH|reflexivity|reflexivity].
Qed.

(** [parsePools] returns pools or an error on every text; it does not
    panic. *)
Lemma parsePools_total (zpoolStatus : string) :
  (exists pools, parsePools zpoolStatus = Val pools)
  \/ (exists e, parsePools zpoolStatus = Err e).
Proof.
  unfold parsePools.
  pose proof (parseLines_no_crash (Bufio.tokens zpoolStatus) start Inv_start).
  destruct (parseLines (Bufio.tokens zpoolStatus) start) as [c|e|].
  - left. now exists (cfg_pools c).
  - right. now exists e.
  - contradiction.
Qed.

(** Every pool [parsePools] returns satisfies the invariant. *)
Lemma parsePools_ok (zpoolStatus : string) (pools : list pool) :
  parsePools zpoolStatus = Val pools -> Forall okPool pools.
Proof.
  unfold parsePools.
  destruct (parseLines (Bufio.tokens zpoolStatus) start) as [c|e|] eqn:E;
    try discriminate.
  intros H; inversion H; subst.
  now apply (parseLines_Inv _ _ _ Inv_start E).
Qed.

(** The test on the scan status in [checkPoolStatus] is false for every
    pool that [parsePools] returns. *)
Lemma parsed_pool_no_scrub_fault (zpoolStatus : string) (pools : list pool)
      (p : pool) :
  parsePools zpoolStatus = Val pools -> In p pools -> scrubFault p = false.
Proof.
  intros H Hp. apply parsePools_ok in H. rewrite Forall_forall in H.
  destruct (H p Hp) as [Hw _]. unfold scrubFault.
  now rewrite (word_no_scrub_fault _ Hw).
Qed.

(* ================================================================== *)
(** * The scrub check (C2) *)
(* ================================================================== *)

(** For no text does [checkPoolStatus] find a scrub fault in what
    [parsePools] returns: the diagnostics are those of the structural
    checks alone. *)
Lemma parsed_pools_errs (zpoolStatus : string) (pools : list pool) :
  parsePools zpoolStatus = Val pools ->
  poolsErrs pools = flat_map structuralLines pools.
Proof.
  intros H. rewrite poolsErrs_lines.
  rewrite !flat_map_concat_map. f_equal. apply map_ext_in.
  intros p Hp. unfold poolLines, scrubLines, structuralLines.
  rewrite (parsed_pool_no_scrub_fault _ _ _ H Hp). apply app_nil_r.
Qed.

(** C2 on [sampleScrub]: the scan line says that the scrub repaired data
    and ended with 3 errors, every structural check passes, and
    [checkPoolStatus] returns nil.  The Scan state stored the first word
    of the scan line only. *)
Theorem scrub_errors_not_reported :
  In ("  scan: " ++ scrubText) (Bufio.tokens sampleScrub)
  /\ Strings.Contains scrubText "scrub repaired" = true
  /\ Strings.Contains scrubText "with 0 errors" = false
  /\ (exists p, parsePools sampleScrub = Val [p]
                /\ pool_scanStatus p = "scrub" /\ pool_Health p = true)
  /\ checkPoolStatus (prints sampleScrub) = Val tt.
Proof.
  split; [vm_compute; tauto|].
  split; [vm_compute; reflexivity|].
  split; [vm_compute; reflexivity|].
  split; [|vm_compute; reflexivity].
  eexists. split; [vm_compute; reflexivity|].
  split; vm_compute; reflexivity.
Qed.

(* ================================================================== *)
(** * The error text of a pool (C4) *)
(* ================================================================== *)

(** In the Errors state a line that is not blank replaces the error text
    of the pool: by itself when the text was empty, by a newline and
    itself otherwise. *)
Lemma errors_state_replaces (init : list pool) (p : pool) (line : string) :
  (String.length (Strings.TrimSpace line) =? 0)%nat = false ->
  parsePoolState (init ++ [p]) line zpoolParseErrors
  = Val (mkStep None
           (init ++ [set_pool_errors p
                       (if (pool_errors p =? "")%string
                        then line else nl ++ line)])
           zpoolParseErrors 0).
Proof.
  intros H. simpl. rewrite H, onLast_app.
  destruct (pool_errors p =? "")%string; reflexivity.
Qed.

(** C4 on [sampleErrors]: two lines that are not blank are read in the
    Errors state; the error text of the pool is a newline and the second
    line, and the first line is not in it. *)
Theorem second_error_line_replaces_first :
  exists p,
    parsePools sampleErrors = Val [p]
    /\ pool_errors p = nl ++ "        /tank/data/ledger.db"
    /\ Strings.Contains (pool_errors p)
         "errors: Permanent errors have been detected in the following files:"
       = false.
Proof.
  eexists. split; [vm_compute; reflexivity|].
  split; vm_compute; reflexivity.
Qed.

(* ================================================================== *)
(** * Lines that do not fit the layout of their state (C5) *)
(* ================================================================== *)

Lemma caseVdev_layout_error (init : list pool) (p : pool) (line : string)
      (cause : Fmt.scanError) :
  vdevLayoutError line = Some cause ->
  caseVdev (init ++ [p]) line = Err (parseError cause line).
Proof.
  unfold vdevLayoutError, caseVdev. rewrite onLast_app.
  destruct (Strings.Contains line "mirror-" || Strings.Contains line "raidz").
  - destruct (Fmt.Sscanf line Fmt.format_row) as [e|[[[[a b] r] w] c]];
      simpl; intros H; inversion H; reflexivity.
  - destruct (Strings.Contains line "spares"); [|discriminate].
    destruct (Fmt.Sscanf line Fmt.format_name) as [e|a];
      simpl; intros H; inversion H; reflexivity.
Qed.

Lemma shape_not_nil (c : config) :
  shape c -> cfg_state c <> zpoolParseStart ->
  exists init p, cfg_pools c = (init ++ [p])%list.
Proof.
  unfold shape. intros H Hs.
  destruct (cfg_state c); try contradiction;
    try (destruct (cfg_pools c) as [|x l] using rev_ind;
         [contradiction|now exists l, x]).
  destruct H as (init & p & _ & _ & H & _). now exists init, p.
Qed.

Lemma layout_error_step (c : config) (line : string)
      (cause : Fmt.scanError) :
  Inv c -> layoutError (cfg_state c) line = Some cause ->
  parsePoolState (cfg_pools c) line (cfg_state c)
  = Err (parseError cause line).
Proof.
  intros [_ Hsh] H.
  destruct (cfg_state c) eqn:S; simpl in H; try discriminate.
  - simpl. destruct (Fmt.Sscanf line Fmt.format_pool); simpl in H;
      inversion H; reflexivity.
  - destruct (shape_not_nil c Hsh) as (init & p & ->);
      [rewrite S; discriminate|].
    simpl. rewrite onLast_app.
    destruct (Fmt.Sscanf line Fmt.format_row) as [e|[[[[a b] r] w] x]];
      simpl in H; inversion H; reflexivity.
  - destruct (shape_not_nil c Hsh) as (init & p & ->);
      [rewrite S; discriminate|].
    now apply caseVdev_layout_error.
  - destruct (shape_not_nil c Hsh) as (init & p & ->);
      [rewrite S; discriminate|].
    simpl. destruct (negb (MatchString diskRe line)); [|discriminate].
    destruct (String.length (Strings.TrimSpace line) =? 0)%nat;
      [discriminate|].
    now apply caseVdev_layout_error.
Qed.

(** C5, as stated, fails in the Vdev state: the line of [sampleStripe]
    read in that state has none of the three shapes, and the parser
    appends a group of kind none and goes on; [parsePools] returns the
    pool list. *)
Lemma unrecognised_group_line_accepted :
  Bufio.tokens sampleStripe
  = (firstn 7 (Bufio.tokens sampleStripe) ++ stripeLine
       :: skipn 8 (Bufio.tokens sampleStripe))%list
  /\ parseLines (firstn 7 (Bufio.tokens sampleStripe)) start
     = Val (mkConfig [stripePool [] ""] zpoolParseVdev 0)
  /\ Strings.Contains stripeLine "mirror-" = false
  /\ Strings.Contains stripeLine "raidz" = false
  /\ Strings.Contains stripeLine "spares" = false
  /\ parsePoolState [stripePool [] ""] stripeLine zpoolParseVdev
     = Val (mkStep None [stripePool [zeroVdev] ""] zpoolParseDisk 0)
  /\ parsePools sampleStripe
     = Val [stripePool [zeroVdev] "errors: No known data errors"].
Proof. repeat split; vm_compute; reflexivity. Qed.

(** C5, amended: a line read in the Start state or in the Pool state on
    which [Sscanf] fails, and a line read in the Vdev state that has
    [mirror-], [raidz] or [spares] in it and on which [Sscanf] fails,
    makes [parsePools] return an error that carries the error of the scan
    and the raw line, and no pool list.  (A line of the Vdev state with
    none of the three shapes is accepted as a group of kind none.) *)
Theorem layout_error_is_fatal (zpoolStatus : string)
        (before after : list string) (line : string) (c : config)
        (cause : Fmt.scanError) :
  Bufio.tokens zpoolStatus = (before ++ line :: after)%list ->
  parseLines before start = Val c ->
  cfg_skip c = O ->
  layoutError (cfg_state c) line = Some cause ->
  parsePools zpoolStatus = Err (parseError cause line).
Proof.
  intros Htok Hrun Hskip Hbad. unfold parsePools.
  rewrite Htok, parseLines_app, Hrun. simpl. unfold feed. rewrite Hskip.
  rewrite (layout_error_step c line cause); [reflexivity| |exact Hbad].
  exact (parseLines_Inv _ _ _ Inv_start Hrun).
Qed.

Lemma layout_error_is_fatal_witness :
  Bufio.tokens sampleShortRow
  = (firstn 6 (Bufio.tokens sampleShortRow) ++ shortRow
       :: [])%list
  /\ parseLines (firstn 6 (Bufio.tokens sampleShortRow)) start
     = Val (mkConfig [mkPool "tank" "ONLINE" "" "none" 0 0 0 [] ""]
                     zpoolParsePool 0)
  /\ layoutError zpoolParsePool shortRow
     = Some Fmt.errEOF
  /\ parsePools sampleShortRow
     = Err (parseError Fmt.errEOF shortRow).
Proof.
  assert (H1 : Bufio.tokens sampleShortRow
               = (firstn 6 (Bufio.tokens sampleShortRow)
                    ++ shortRow :: [])%list)
    by (vm_compute; reflexivity).
  assert (H2 : parseLines (firstn 6 (Bufio.tokens sampleShortRow)) start
               = Val (mkConfig [mkPool "tank" "ONLINE" "" "none" 0 0 0 [] ""]
                               zpoolParsePool 0))
    by (vm_compute; reflexivity).
  assert (H3 : layoutError zpoolParsePool shortRow
               = Some Fmt.errEOF) by (vm_compute; reflexivity).
  repeat (split; [assumption|]).
  exact (layout_error_is_fatal sampleShortRow _ _ _ _ _ H1 H2 eq_refl H3).
Defined.

(* ================================================================== *)
(** * The row that repeats the pool (C6) *)
(* ================================================================== *)

Lemma pool_state_mismatch (init : list pool) (p : pool) (line : string)
      (name state : string) (r w x : Z) :
  Fmt.Sscanf line Fmt.format_row = inr (name, state, r, w, x) ->
  name <> pool_name p \/ state <> pool_state p ->
  parsePoolState (init ++ [p]) line zpoolParsePool
  = Err (mismatch name state p).
Proof.
  intros Hscan Hdiff. simpl. rewrite onLast_app, Hscan. unfold mismatch.
  destruct (String.eqb_spec name (pool_name p)) as [Hn|Hn]; simpl;
    [|reflexivity].
  destruct (String.eqb_spec state (pool_state p)) as [Hs|Hs]; simpl;
    [|reflexivity].
  destruct Hdiff; contradiction.
Qed.

(** C6, as stated, fails for a document without a scan line: the parser
    comes to the Pool state through the scan line only, and in the Status
    state every other line is added to the status text of the pool.  In
    [sampleNoScan] the summary says [ONLINE] and the row of the table
    says [DEGRADED]; [parsePools] returns the pool, without groups, and
    no error, and the error of [checkPoolStatus] is the line of the pool,
    which does not name the two states. *)
Lemma mismatch_without_scan_line_is_accepted :
  In " state: ONLINE" (Bufio.tokens sampleNoScan)
  /\ In degradedRow (Bufio.tokens sampleNoScan)
  /\ Fmt.Sscanf degradedRow Fmt.format_row
     = inr ("tank", "DEGRADED", 0, 0, 0)
  /\ (exists p,
         parsePools sampleNoScan = Val [p]
         /\ pool_name p = "tank" /\ pool_state p = "ONLINE"
         /\ pool_vdevs p = [])
  /\ checkPoolStatus (prints sampleNoScan)
     = Err (errorString "pool tank - ONLINE (0|0|0): ").
Proof.
  split; [vm_compute; tauto|]. split; [vm_compute; tauto|].
  split; [vm_compute; reflexivity|]. split; [|vm_compute; reflexivity].
  eexists. split; [vm_compute; reflexivity|]. repeat split.
Qed.

(** C6, amended: when the loop of [parsePools] reads, in the Pool state
    (the state it is in for the fourth line after the scan line), a row
    of five fields whose name or whose state differs from those recorded
    for the pool [p] being read, [parsePools] returns an error that names
    the two values that differ (the names when both differ), and no pool
    list. *)
Theorem pool_row_mismatch_is_fatal (zpoolStatus : string)
        (before after : list string) (line : string) (c : config)
        (init : list pool) (p : pool) (name state : string) (r w x : Z) :
  Bufio.tokens zpoolStatus = (before ++ line :: after)%list ->
  parseLines before start = Val c ->
  cfg_state c = zpoolParsePool -> cfg_skip c = O ->
  cfg_pools c = (init ++ [p])%list ->
  Fmt.Sscanf line Fmt.format_row = inr (name, state, r, w, x) ->
  name <> pool_name p \/ state <> pool_state p ->
  parsePools zpoolStatus = Err (mismatch name state p).
Proof.
  intros Htok Hrun Hst Hskip Hpools Hscan Hdiff. unfold parsePools.
  rewrite Htok, parseLines_app, Hrun. simpl. unfold feed.
  rewrite Hskip, Hst, Hpools.
  now rewrite (pool_state_mismatch init p line name state r w x Hscan Hdiff).
Qed.

Lemma pool_row_mismatch_is_fatal_witness :
  Bufio.tokens sampleMismatch
  = (firstn 6 (Bufio.tokens sampleMismatch) ++ degradedRow
       :: skipn 7 (Bufio.tokens sampleMismatch))%list
  /\ parseLines (firstn 6 (Bufio.tokens sampleMismatch)) start
     = Val (mkConfig [mkPool "tank" "ONLINE" "" "none" 0 0 0 [] ""]
                     zpoolParsePool 0)
  /\ Fmt.Sscanf degradedRow Fmt.format_row
     = inr ("tank", "DEGRADED", 0, 0, 0)
  /\ ("tank" <> "tank" \/ "DEGRADED" <> "ONLINE")
  /\ parsePools sampleMismatch
     = Err (errorString "expected pool state DEGRADED to match state ONLINE").
Proof.
  assert (H1 : Bufio.tokens sampleMismatch
               = (firstn 6 (Bufio.tokens sampleMismatch) ++ degradedRow
                    :: skipn 7 (Bufio.tokens sampleMismatch))%list)
    by (vm_compute; reflexivity).
  assert (H2 : parseLines (firstn 6 (Bufio.tokens sampleMismatch)) start
               = Val (mkConfig [mkPool "tank" "ONLINE" "" "none" 0 0 0 [] ""]
                               zpoolParsePool 0))
    by (vm_compute; reflexivity).
  assert (H3 : Fmt.Sscanf degradedRow Fmt.format_row
               = inr ("tank", "DEGRADED", 0, 0, 0))
    by (vm_compute; reflexivity).
  assert (H4 : "tank" <> "tank" \/ "DEGRADED" <> "ONLINE")
    by (right; discriminate).
  repeat (split; [assumption|]).
  exact (pool_row_mismatch_is_fatal
           sampleMismatch _ _ _ _ []
           (mkPool "tank" "ONLINE" "" "none" 0 0 0 [] "")
           "tank" "DEGRADED" 0 0 0 H1 H2 eq_refl eq_refl eq_refl H3 H4).
Defined.

(* ================================================================== *)
(** * Lines that begin with [action: ] (C9) *)
(* ================================================================== *)

(** C9, as stated, fails outside the Status state: a line that begins
    with [action: ] is a parse error in the Start state, and in the
    Errors state it replaces the error text of the pool, which makes the
    pool unhealthy and puts it in the diagnostics. *)
Lemma action_line_not_inert_elsewhere :
  Strings.HasPrefix (Strings.TrimSpace "action: reboot") "action: " = true
  /\ (exists cause,
         parsePoolState [] "action: reboot" zpoolParseStart
         = Err (parseError cause "action: reboot")
         /\ parsePools "action: reboot"
            = Err (parseError cause "action: reboot"))
  /\ In "action: Replace the device using 'zpool replace'."
        (Bufio.tokens sampleLateAction)
  /\ checkPoolStatus (prints sampleLateAction)
     = Err (errorString
              ("pool tank - ONLINE (0|0|0): " ++ nl
               ++ "action: Replace the device using 'zpool replace'.")).
Proof.
  split; [vm_compute; reflexivity|].
  split; [eexists; split; vm_compute; reflexivity|].
  split; [vm_compute; tauto|].
  vm_compute. reflexivity.
Qed.

Lemma action_is_not_scan (t : string) :
  Strings.HasPrefix t "action: " = true ->
  Strings.HasPrefix t "scan: " = false.
Proof.
  unfold Strings.HasPrefix. intros H. apply prefix_app in H as [r ->].
  reflexivity.
Qed.

(** C9, amended: in the Status state a line whose trimmed text begins
    with [action: ] is inert: [parsePoolState] returns no pool and no
    error and leaves the pool list, the parse state and the scanner as
    they were, so the loop of [parsePools] gives on the tokens with the
    line what it gives on the tokens without it. *)
Theorem action_line_inert_in_status (c : config) (line : string) :
  cfg_state c = zpoolParseStatus -> cfg_skip c = O ->
  Strings.HasPrefix (Strings.TrimSpace line) "action: " = true ->
  parsePoolState (cfg_pools c) line (cfg_state c)
  = Val (mkStep None (cfg_pools c) zpoolParseStatus 0)
  /\ forall (before after : list string) (c0 : config),
      parseLines before c0 = Val c ->
      parseLines (before ++ line :: after) c0
      = parseLines (before ++ after) c0.
Proof.
  intros Hst Hskip Hact.
  assert (Hstep : parsePoolState (cfg_pools c) line (cfg_state c)
                  = Val (mkStep None (cfg_pools c) zpoolParseStatus 0)).
  { rewrite Hst. simpl. now rewrite (action_is_not_scan _ Hact), Hact. }
  split; [exact Hstep|].
  intros before after c0 Hrun. rewrite !parseLines_app, Hrun. simpl.
  unfold feed. rewrite Hskip, Hstep. simpl.
  destruct c as [pools st skip]; simpl in *. now subst.
Qed.

Lemma action_line_inert_in_status_witness :
  cfg_state inStatus = zpoolParseStatus /\ cfg_skip inStatus = O
  /\ Strings.HasPrefix (Strings.TrimSpace actionLine) "action: " = true
  /\ parsePoolState (cfg_pools inStatus) actionLine (cfg_state inStatus)
     = Val (mkStep None (cfg_pools inStatus) zpoolParseStatus 0)
  /\ forall (before after : list string) (c0 : config),
      parseLines before c0 = Val inStatus ->
      parseLines (before ++ actionLine :: after) c0
      = parseLines (before ++ after) c0.
Proof.
  assert (H3 : Strings.HasPrefix (Strings.TrimSpace actionLine) "action: "
               = true) by (vm_compute; reflexivity).
  split; [reflexivity|]. split; [reflexivity|]. split; [exact H3|].
  exact (action_line_inert_in_status inStatus actionLine eq_refl eq_refl H3).
Defined.

(* ================================================================== *)
(** * One disk offline (C8) *)
(* ================================================================== *)

Lemma parsed_disk_typev (zpoolStatus : string) (pools : list pool)
      (p : pool) (v : vdev) (d : vdevDisk) :
  parsePools zpoolStatus = Val pools ->
  In p pools -> In v (pool_vdevs p) -> In d (vdev_disks v) ->
  disk_vdev_typev d = vdev_typev v.
Proof.
  intros H Hp Hv Hd. apply parsePools_ok in H. rewrite Forall_forall in H.
  destruct (H p Hp) as [_ Hvs]. rewrite Forall_forall in Hvs.
  specialize (Hvs v Hv). unfold disksOwned in Hvs.
  rewrite Forall_forall in Hvs. now apply Hvs.
Qed.

Lemma offline_disk_unhealthy (d : vdevDisk) :
  disk_vdev_typev d = vdevTypeRaidz -> disk_state d = "OFFLINE" ->
  vdevDisk_Healthy d = false.
Proof. unfold vdevDisk_Healthy. now intros -> ->. Qed.

Lemma flat_map_only {A B : Type} (f : A -> list B) (l1 l2 : list A) (x : A) :
  (forall y, In y (l1 ++ l2) -> f y = []) ->
  flat_map f (l1 ++ x :: l2) = f x.
Proof.
  intros H. rewrite flat_map_app. simpl.
  rewrite (flat_map_nil f l1), (flat_map_nil f l2).
  - simpl. apply app_nil_r.
  - intros y Hy. apply H, in_or_app. now right.
  - intros y Hy. apply H, in_or_app. now left.
Qed.

(** C8: for a parsed text in which one disk of a raidz or mirror group is
    [OFFLINE], the other disks of the group are healthy, the group and
    the pool are themselves online with counters at zero, and the other
    groups and pools are healthy, [checkPoolStatus] returns an error whose
    text is the summary of the pool, the summary of the group and the
    summary of the disk, in this order, and nothing else. *)
Theorem one_offline_disk_diagnostics (zpoolStatus : string)
        (pools ps1 ps2 : list pool) (p : pool) (vs1 vs2 : list vdev)
        (v : vdev) (ds1 ds2 : list vdevDisk) (d : vdevDisk) :
  parsePools zpoolStatus = Val pools ->
  pools = (ps1 ++ p :: ps2)%list ->
  pool_vdevs p = (vs1 ++ v :: vs2)%list ->
  vdev_disks v = (ds1 ++ d :: ds2)%list ->
  vdev_typev v = vdevTypeRaidz ->
  disk_state d = "OFFLINE" ->
  (forall d', In d' (ds1 ++ ds2) -> vdevDisk_Healthy d' = true) ->
  vdev_own v = true ->
  (forall v', In v' (vs1 ++ vs2) -> vdev_Healthy v' = true) ->
  pool_own p = true ->
  (forall p', In p' (ps1 ++ ps2) -> pool_Health p' = true) ->
  checkPoolStatus (prints zpoolStatus)
  = Err (errorString
           (Strings.Join [pool_String p; vdev_String v; vdevDisk_String d]
                         nl)).
Proof.
  intros Hparse Hps Hvs Hds Hkind Hoff Hdisks Hv Hgroups Hp Hpools.
  assert (Hin_p : In p pools) by (subst pools; apply in_elt).
  assert (Hin_v : In v (pool_vdevs p)) by (rewrite Hvs; apply in_elt).
  assert (Hin_d : In d (vdev_disks v)) by (rewrite Hds; apply in_elt).
  assert (Hd : vdevDisk_Healthy d = false).
  { apply offline_disk_unhealthy; [|exact Hoff].
    rewrite <- Hkind. eapply parsed_disk_typev; eauto. }
  assert (Hvbad : vdev_Healthy v = false).
  { rewrite vdev_Healthy_forallb. apply not_true_is_false. intros Hf.
    apply andb_true_iff in Hf as [_ Hf]. rewrite forallb_forall in Hf.
    specialize (Hf d Hin_d). congruence. }
  assert (Hpbad : pool_Health p = false).
  { rewrite pool_Health_forallb. apply not_true_is_false. intros Hf.
    apply andb_true_iff in Hf as [_ Hf]. rewrite forallb_forall in Hf.
    specialize (Hf v Hin_v). congruence. }
  unfold checkPoolStatus, prints. rewrite Hparse.
  rewrite (parsed_pools_errs _ _ Hparse), Hps.
  rewrite flat_map_only.
  2:{ intros p' Hp'. unfold structuralLines. now rewrite (Hpools p' Hp'). }
  unfold structuralLines. rewrite Hpbad. simpl. rewrite Hvs.
  rewrite flat_map_only.
  2:{ intros v' Hv'. apply healthy_vdev_lines. now apply Hgroups. }
  unfold vdevLines. rewrite Hvbad. simpl. rewrite Hds.
  rewrite flat_map_only.
  2:{ intros d' Hd'. unfold diskLines. now rewrite (Hdisks d' Hd'). }
  unfold diskLines. rewrite Hd. reflexivity.
Qed.

Lemma one_offline_disk_diagnostics_witness :
  parsePools sampleOffline = Val [offlinePool]
  /\ checkPoolStatus (prints sampleOffline)
     = Err (errorString
              ("pool primarySafe - ONLINE (0|0|0): errors: No known data errors"
               ++ nl ++ "vdev raidz2-0 - ONLINE (0|0|0)" ++ nl
               ++ "disk e43d41b6-adcc-11e5-b06a-d43d7ef79ff0 - OFFLINE (0|0|0): ")).
Proof.
  assert (H1 : parsePools sampleOffline = Val [offlinePool])
    by (vm_compute; reflexivity).
  split; [exact H1|].
  refine (one_offline_disk_diagnostics
            sampleOffline [offlinePool] [] [] offlinePool [] [] offlineGroup
            []
            [onlineDisk "e4a31d4c-adcc-11e5-b06a-d43d7ef79ff0";
             onlineDisk "e50450ac-adcc-11e5-b06a-d43d7ef79ff0"]
            offlineDisk H1 eq_refl eq_refl eq_refl eq_refl eq_refl
            _ eq_refl _ eq_refl _).
  - intros d' [<-|[<-|[]]]; reflexivity.
  - intros v' [].
  - intros p' [].
Defined.

(* ================================================================== *)
(** * What a match of a pattern is *)
(* ================================================================== *)

Section Soundness.

Context {R : Type}.

Lemma iterate_sound (body : nat -> string -> captures -> cont -> option R)
      (r : regex) (g : bool) (k : cont) :
  (forall pos s cs (k' : cont) x,
      body pos s cs k' = Some x ->
      exists pos' s' cs',
        matches r pos s cs pos' s' cs' /\ k' pos' s' cs' = Some x) ->
  forall fuel pos s cs x,
    iterate body g k fuel pos s cs = Some x ->
    exists pos' s' cs',
      matches (Star g r) pos s cs pos' s' cs' /\ k pos' s' cs' = Some x.
Proof.
  intros Hbody. induction fuel as [|fuel IH]; intros pos s cs x H.
  - simpl in H. exists pos, s, cs. split; [constructor|exact H].
  - simpl in H.
    assert (Hmore :
        body pos s cs
             (fun pos' s' cs' =>
                if (String.length s' <? String.length s)%nat
                then iterate body g k fuel pos' s' cs' else None)
        = Some x ->
        exists pos' s' cs',
          matches (Star g r) pos s cs pos' s' cs'
          /\ k pos' s' cs' = Some x).
    { intros Hb. apply Hbody in Hb as (p1 & s1 & c1 & Hm & Hk).
      destruct (String.length s1 <? String.length s)%nat; [|discriminate].
      apply IH in Hk as (p2 & s2 & c2 & Hm2 & Hk2).
      exists p2, s2, c2. split; [|exact Hk2].
      eapply m_star_cons; eauto. }
    assert (Hstop :
        k pos s cs = Some x ->
        exists pos' s' cs',
          matches (Star g r) pos s cs pos' s' cs'
          /\ k pos' s' cs' = Some x).
    { intros Hk. exists pos, s, cs. split; [constructor|exact Hk]. }
    destruct g.
    + destruct (body pos s cs _) eqn:E.
      * inversion H; subst. now apply Hmore.
      * now apply Hstop.
    + destruct (k pos s cs) eqn:E.
      * inversion H; subst. now apply Hstop.
      * now apply Hmore.
Qed.

(** What [run] finds is a match, and the continuation accepted it. *)
Lemma run_sound (r : regex) :
  forall pos s cs (k : cont) (x : R),
    run r pos s cs k = Some x ->
    exists pos' s' cs',
      matches r pos s cs pos' s' cs' /\ k pos' s' cs' = Some x.
Proof.
  induction r as [p| |r1 IH1 r2 IH2|r1 IH1 r2 IH2|g r IH| | |n r IH];
    intros pos s cs k x H; simpl in H.
  - destruct s as [|c s]; [discriminate|].
    destruct (p c) eqn:E; [|discriminate].
    exists (S pos), s, cs. split; [now constructor|exact H].
  - exists pos, s, cs. split; [constructor|exact H].
  - apply IH1 in H as (p1 & s1 & c1 & Hm1 & H).
    apply IH2 in H as (p2 & s2 & c2 & Hm2 & H).
    exists p2, s2, c2. split; [econstructor; eauto|exact H].
  - destruct (run r1 pos s cs k) eqn:E.
    + inversion H; subst. apply IH1 in E as (p1 & s1 & c1 & Hm & Hk).
      exists p1, s1, c1. split; [now apply m_alt_l|exact Hk].
    + apply IH2 in H as (p1 & s1 & c1 & Hm & Hk).
      exists p1, s1, c1. split; [now apply m_alt_r|exact Hk].
  - eapply iterate_sound; eauto.
  - destruct (Nat.eqb_spec pos 0) as [->|]; [|discriminate].
    exists O, s, cs. split; [constructor|exact H].
  - destruct s; [|discriminate].
    exists pos, "", cs. split; [constructor|exact H].
  - apply IH in H as (p1 & s1 & c1 & Hm & Hk).
    exists p1, s1, ((n, (pos, p1)) :: c1). split; [now constructor|exact Hk].
Qed.

End Soundness.

Lemma string_app_assoc (a b c : string) : (a ++ b) ++ c = a ++ (b ++ c).
Proof. induction a as [|x a IH]; simpl; [reflexivity|now rewrite IH]. Qed.

Lemma string_length_app (a b : string) :
  String.length (a ++ b) = (String.length a + String.length b)%nat.
Proof. induction a as [|x a IH]; simpl; [reflexivity|now rewrite IH]. Qed.

(** A match reads a piece of the input and moves by its length. *)
Lemma matches_reads (r : regex) pos s cs pos' s' cs' :
  matches r pos s cs pos' s' cs' ->
  exists w, s = w ++ s' /\ pos' = (pos + String.length w)%nat.
Proof.
  induction 1.
  - exists (String c ""). split; [reflexivity|simpl; lia].
  - exists "". split; [reflexivity|simpl; lia].
  - destruct IHmatches1 as (w1 & -> & ->).
    destruct IHmatches2 as (w2 & -> & ->).
    exists (w1 ++ w2). split.
    + now rewrite string_app_assoc.
    + rewrite string_length_app. lia.
  - assumption.
  - assumption.
  - exists "". split; [reflexivity|simpl; lia].
  - destruct IHmatches1 as (w1 & -> & ->).
    destruct IHmatches2 as (w2 & -> & ->).
    exists (w1 ++ w2). split.
    + now rewrite string_app_assoc.
    + rewrite string_length_app. lia.
  - exists "". split; [reflexivity|simpl; lia].
  - exists "". split; [reflexivity|simpl; lia].
  - assumption.
Qed.

Lemma matches_at_pos (text : string) (r : regex) pos s cs pos' s' cs' :
  at_pos text pos s -> matches r pos s cs pos' s' cs' -> at_pos text pos' s'.
Proof.
  intros (pre & -> & <-) H. apply matches_reads in H as (w & -> & ->).
  exists (pre ++ w). split.
  - now rewrite string_app_assoc.
  - now rewrite string_length_app.
Qed.

Lemma at_pos_next (text : string) (pos : nat) (c : ascii) (s : string) :
  at_pos text pos (String c s) -> at_pos text (S pos) s.
Proof.
  intros (pre & -> & <-). exists (pre ++ String c ""). split.
  - now rewrite string_app_assoc.
  - rewrite string_length_app. simpl. lia.
Qed.

Lemma search_unfold (r : regex) (pos : nat) (s : string) :
  search r pos s
  = match run r pos s [] (fun e _ cs => Some (pos, e, cs)) with
    | Some m => Some m
    | None =>
        match s with
        | String _ s' => search r (S pos) s'
        | EmptyString => None
        end
    end.
Proof. destruct s; reflexivity. Qed.

(** What [search] returns is a match of the pattern in the text, at or
    after the position where the search started. *)
Lemma search_sound (text : string) (r : regex) :
  forall s pos b e cs,
    at_pos text pos s -> search r pos s = Some (b, e, cs) ->
    exists sb se,
      at_pos text b sb /\ matches r b sb [] e se cs /\ (pos <= b)%nat.
Proof.
  induction s as [|c s IH]; intros pos b e cs Hat H;
    rewrite search_unfold in H;
    destruct (run r pos _ [] (fun e _ cs => Some (pos, e, cs))) as [m|] eqn:E;
    try discriminate.
  - inversion H; subst m. apply run_sound in E as (p1 & s1 & c1 & Hm & Hk).
    inversion Hk; subst. exists "", s1. repeat split; auto.
  - inversion H; subst m. apply run_sound in E as (p1 & s1 & c1 & Hm & Hk).
    inversion Hk; subst. exists (String c s), s1. repeat split; auto.
  - apply IH in H as (sb & se & H1 & H2 & H3); [|eapply at_pos_next; eauto].
    exists sb, se. repeat split; auto. lia.
Qed.

Lemma string_app_split (a b c d : string) :
  a ++ b = c ++ d -> (String.length a <= String.length c)%nat ->
  exists u, c = a ++ u /\ b = u ++ d.
Proof.
  revert c; induction a as [|x a IH]; intros c H Hlen; simpl in *.
  - exists c. now split.
  - destruct c as [|y c]; simpl in *; [lia|].
    inversion H; subst. destruct (IH c H2) as (u & -> & ->); [lia|].
    now exists u.
Qed.

Lemma drop_app (u v : string) : drop (String.length u) (u ++ v) = v.
Proof.
  induction u as [|x u IH]; simpl; [now destruct v|exact IH].
Qed.

Lemma at_pos_drop (text : string) (pos e : nat) (s se : string) :
  at_pos text pos s -> at_pos text e se -> (pos <= e)%nat ->
  drop (e - pos) s = se.
Proof.
  intros (pre & -> & <-) (pre2 & H & <-) Hle.
  apply string_app_split in H as (u & -> & ->); [|exact Hle].
  rewrite string_length_app.
  replace (String.length pre + String.length u - String.length pre)%nat
    with (String.length u) by lia.
  apply drop_app.
Qed.

(** Every element of [findAll] is the submatches of a match of the
    pattern in the text. *)
Lemma findAll_sound (text : string) (re : Regexp) :
  forall fuel pos s prev m,
    at_pos text pos s -> In m (findAll fuel re text pos s prev) ->
    exists b e cs sb se,
      m = submatches re text (b, e, cs)
      /\ at_pos text b sb /\ matches (expr re) b sb [] e se cs.
Proof.
  induction fuel as [|fuel IH]; intros pos s prev m Hat Hin; simpl in Hin;
    [contradiction|].
  destruct (search (expr re) pos s) as [[[b e] cs]|] eqn:E; [|contradiction].
  destruct (search_sound text _ _ _ _ _ _ Hat E) as (sb & se & H1 & H2 & H3).
  assert (Hfound : m = submatches re text (b, e, cs) ->
                   exists b e cs sb se,
                     m = submatches re text (b, e, cs)
                     /\ at_pos text b sb /\ matches (expr re) b sb [] e se cs).
  { intros ->. now exists b, e, cs, sb, se. }
  destruct (e =? pos)%nat eqn:Ee.
  - assert (Hrest :
        In m match s with
             | String _ s' => findAll fuel re text (S pos) s' (Some e)
             | EmptyString => []
             end ->
        exists b e cs sb se,
          m = submatches re text (b, e, cs)
          /\ at_pos text b sb /\ matches (expr re) b sb [] e se cs).
    { destruct s as [|c s]; [contradiction|]. intros Hr.
      eapply IH; [|exact Hr]. eapply at_pos_next; eauto. }
    destruct (match prev with
              | Some q => negb (b =? q)%nat
              | None => true
              end).
    + destruct Hin as [<-|Hin]; [now apply Hfound|now apply Hrest].
    + now apply Hrest.
  - destruct Hin as [<-|Hin]; [now apply Hfound|].
    eapply IH; [|exact Hin].
    pose proof (matches_at_pos text _ _ _ _ _ _ _ H1 H2) as Hse.
    pose proof (matches_reads _ _ _ _ _ _ _ H2) as (w & _ & Hw).
    rewrite (at_pos_drop text pos e s se Hat Hse); [exact Hse|lia].
Qed.

Lemma matches_class_inv (f : ascii -> bool) p s c p' s' c' :
  matches (Class f) p s c p' s' c' ->
  exists x, s = String x s' /\ f x = true /\ p' = S p /\ c' = c.
Proof. intros H. inversion H; subst. eexists. repeat split; assumption. Qed.

Lemma matches_seq_inv (r1 r2 : regex) p s c p' s' c' :
  matches (Seq r1 r2) p s c p' s' c' ->
  exists pm sm cm,
    matches r1 p s c pm sm cm /\ matches r2 pm sm cm p' s' c'.
Proof.
  intros H. inversion H; subst. eexists _, _, _. split; eassumption.
Qed.

Lemma matches_group_inv (n : nat) (r : regex) p s c p' s' c' :
  matches (Group n r) p s c p' s' c' ->
  exists c1, c' = (n, (p, p')) :: c1 /\ matches r p s c p' s' c1.
Proof. intros H. inversion H; subst. eexists. split; [reflexivity|assumption]. Qed.

(** The last pattern of a concatenation matches where the match of the
    concatenation ends. *)
Lemma matches_cat_last (text : string) (r : regex) (rs : list regex) :
  forall p s c p' s' c',
    at_pos text p s -> matches (cat (rs ++ [r])) p s c p' s' c' ->
    exists pm sm cm, at_pos text pm sm /\ matches r pm sm cm p' s' c'.
Proof.
  induction rs as [|r0 rs IH]; intros p s c p' s' c' Hat H.
  - now exists p, s, c.
  - assert (E : cat ((r0 :: rs) ++ [r]) = Seq r0 (cat (rs ++ [r]))).
    { destruct rs; reflexivity. }
    rewrite E in H. apply matches_seq_inv in H as (pm & sm & cm & H1 & H2).
    eapply IH; [|exact H2]. eapply matches_at_pos; eauto.
Qed.

Lemma matches_star_class (f : ascii -> bool) (g : bool) p s c p' s' c' :
  matches (Star g (Class f)) p s c p' s' c' ->
  exists w, s = w ++ s' /\ allChars f w = true.
Proof.
  intros H. remember (Star g (Class f)) as r eqn:E.
  induction H as [| | | | | |g0 r0 p0 s0 c0 p1 s1 c1 p2 s2 c2 Hbody _ Hrest IH
                  | | |]; inversion E; subst.
  - exists "". now split.
  - destruct (IH eq_refl) as (w & -> & Hw).
    apply matches_class_inv in Hbody as (x & -> & Hx & _ & _).
    exists (String x w). split; [reflexivity|].
    simpl. now rewrite Hx, Hw.
Qed.

(** [\d+] reads digits, and at least one. *)
Lemma matches_d_plus p s c p' s' c' :
  matches d_plus p s c p' s' c' ->
  exists x w,
    s = String x w ++ s' /\ allChars Strings.isDigit (String x w) = true.
Proof.
  unfold d_plus, Plus. intros H.
  apply matches_seq_inv in H as (pm & sm & cm & H1 & H2).
  apply matches_class_inv in H1 as (x & -> & Hx & _ & _).
  apply matches_star_class in H2 as (w & -> & Hw).
  exists x, w. split; [reflexivity|].
  change (allChars Strings.isDigit w = true) in Hw.
  change (Strings.isDigit x = true) in Hx.
  simpl. now rewrite Hx, Hw.
Qed.

Lemma substring_at (pre w r : string) :
  String.substring (String.length pre) (String.length w) (pre ++ w ++ r) = w.
Proof.
  induction pre as [|x pre IH]; simpl.
  - induction w as [|y w IHw]; simpl.
    + now destruct r.
    + now rewrite IHw.
  - exact IH.
Qed.

(* ================================================================== *)
(** * The rows of a self-test log *)
(* ================================================================== *)

Lemma string_app_inv_tail (a u s : string) : a ++ s = u ++ s -> a = u.
Proof.
  revert u; induction a as [|y a IH]; intros u H.
  - destruct u as [|z u]; [reflexivity|]. exfalso.
    assert (L : String.length s = String.length (String z u ++ s))
      by now rewrite <- H.
    rewrite string_length_app in L. simpl in L. lia.
  - destruct u as [|z u].
    + exfalso.
      assert (L : String.length (String y a ++ s) = String.length s)
        by now rewrite H.
      rewrite string_length_app in L. simpl in L. lia.
    + simpl in H. inversion H; subst. f_equal. now apply IH.
Qed.

(** The second group of every row that [smartRe] finds is a text of
    decimal digits. *)
Lemma smartRe_hours_digits (status : string) (m : list string) :
  In m (FindAllStringSubmatch smartRe status) ->
  exists x w,
    nth 2 m "" = String x w
    /\ allChars Strings.isDigit (String x w) = true.
Proof.
  intros Hin. unfold FindAllStringSubmatch in Hin.
  apply (findAll_sound status) in Hin
    as (b & e & cs & sb & se & -> & Hat & Hm);
    [|exists ""; now split].
  change (expr smartRe)
    with (cat ([Lit "#"; s_star; d_plus; s_star;
                Plus false (Class class_dot);
                Class class_s; Class class_s; s_star;
                Group 1 (Plus false (Class class_dot));
                s_star; w_star; Lit "00%"; s_star]
               ++ [Group 2 d_plus])) in Hm.
  apply (matches_cat_last status) in Hm as (pm & sm & cm & Hatm & Hm);
    [|exact Hat].
  apply matches_group_inv in Hm as (c1 & -> & Hm).
  pose proof (matches_reads _ _ _ _ _ _ _ Hm) as (u & Hu & He).
  apply matches_d_plus in Hm as (x & w & Hs & Hd).
  exists x, w. split; [|exact Hd].
  assert (u = String x w).
  { rewrite Hs in Hu. symmetry. eapply string_app_inv_tail; eauto. }
  subst u. destruct Hatm as (pre & -> & <-).
  cbn [submatches NumSubexp smartRe seq map nth span fst snd].
  rewrite Nat.eqb_refl. rewrite He.
  replace (String.length pre + String.length (String x w)
           - String.length pre)%nat
    with (String.length (String x w)) by lia.
  rewrite Hs. apply substring_at.
Qed.

Lemma digit_not_sign (c : ascii) :
  Strings.isDigit c = true -> Fmt.isSign c = false.
Proof.
  intros H. unfold Fmt.isSign.
  destruct (Ascii.eqb_spec c "+") as [->|_]; [discriminate|].
  destruct (Ascii.eqb_spec c "-") as [->|_]; [discriminate|].
  reflexivity.
Qed.

Lemma digitsValue_nonneg (s : string) :
  forall acc v, 0 <= acc -> Fmt.digitsValue acc s = Some v -> 0 <= v.
Proof.
  induction s as [|c s IH]; intros acc v Hacc H;
    cbn [Fmt.digitsValue] in H.
  - inversion H; now subst.
  - destruct (Strings.isDigit c) eqn:E; [|discriminate].
    eapply IH; [|exact H].
    unfold Strings.isDigit in E. apply andb_true_iff in E as [E _].
    apply Nat.leb_le in E. lia.
Qed.

(** [Atoi] of a text of digits is not negative. *)
Lemma Atoi_digits_nonneg (x : ascii) (w : string) (age : Z) :
  allChars Strings.isDigit (String x w) = true ->
  Atoi (String x w) = inr age -> 0 <= age.
Proof.
  intros Hd H. unfold Atoi in H. simpl in Hd.
  apply andb_true_iff in Hd as [Hx Hw].
  rewrite (digit_not_sign x Hx) in H.
  unfold Fmt.ParseInt in H.
  destruct (Fmt.digitsValue 0 (String x w)) as [v|] eqn:E; [|discriminate].
  destruct ((Fmt.minInt64 <=? v) && (v <=? Fmt.maxInt64)); [|discriminate].
  inversion H; subst. eapply digitsValue_nonneg; [|exact E]. lia.
Qed.

(* ================================================================== *)
(** * Logs without rows (C10) *)
(* ================================================================== *)

(** [0/0] is a NaN, and a NaN is not [>=] the threshold. *)
Lemma no_rows_under_threshold : overThreshold 0 0 = false.
Proof. vm_compute. reflexivity. Qed.

Lemma smartDisks_noRows (e : executer) (disk : string) (rest : list string)
      (o y : Z) :
  noRows e disk -> smartDisks e (disk :: rest) o y = smartDisks e rest o y.
Proof.
  intros (status & He & Hrows). unfold selftest in He.
  cbn [smartDisks]. rewrite He, Hrows.
  cbn [smartRows fails oldest youngest List.length].
  now rewrite no_rows_under_threshold.
Qed.

Lemma smartDisks_all_noRows (e : executer) (ds : list string) (o y : Z) :
  (forall disk, In disk ds -> noRows e disk) ->
  smartDisks e ds o y = (None, o, y).
Proof.
  induction ds as [|disk ds IH]; intros H; [reflexivity|].
  rewrite smartDisks_noRows; [|apply H; now left].
  apply IH. intros d Hd. apply H. now right.
Qed.

(** C10: a disk whose log has no row does not fail the analyzer with the
    threshold, and leaves [oldest] and [youngest] as they were: the loop
    goes on with the next disk.  When no disk has a row, the analyzer
    succeeds with [oldest = 0] and [youngest = 2147483647]. *)
Theorem empty_log_passes (e : executer) (disk : string) :
  noRows e disk ->
  (forall rest o y,
      smartDisks e (disk :: rest) o y = smartDisks e rest o y)
  /\ ((forall d, In d disks -> noRows e d) ->
      checkSmartStatus e = (None, 0, 2147483647)).
Proof.
  intros H. split.
  - intros rest o y. now apply smartDisks_noRows.
  - intros Hall. unfold checkSmartStatus.
    now rewrite smartDisks_all_noRows.
Qed.

Lemma empty_log_passes_witness :
  noRows (prints "") "sda"
  /\ (forall rest o y,
         smartDisks (prints "") ("sda" :: rest) o y
         = smartDisks (prints "") rest o y)
  /\ checkSmartStatus (prints "") = (None, 0, 2147483647).
Proof.
  assert (H : forall d, noRows (prints "") d).
  { intros d. exists "". split; reflexivity. }
  split; [apply H|].
  destruct (empty_log_passes (prints "") "sda" (H "sda")) as [H1 H2].
  split; [exact H1|]. apply H2. intros d _. apply H.
Defined.

(* ================================================================== *)
(** * The failure that is reported (C3) *)
(* ================================================================== *)

Lemma last_cons {A : Type} (x d : A) (l : list A) :
  last (x :: l) d = last l x.
Proof.
  revert x d; induction l as [|y l IH]; intros x d; [reflexivity|].
  change (last (x :: y :: l) d) with (last (y :: l) d).
  now rewrite !IH.
Qed.

(** When the loop over the rows ends, [latestFail] is the outcome of the
    last row that failed, in the order of the log, and [fails] counts the
    rows that failed. *)
Lemma smartRows_latestFail (ms : list (list string)) :
  forall j vs vs',
    smartRows ms j vs = inr vs' ->
    latestFail vs' = last (map description (filter failed ms)) (latestFail vs)
    /\ fails vs' = fails vs + Z.of_nat (List.length (filter failed ms)).
Proof.
  induction ms as [|m ms IH]; intros j vs vs' H.
  - inversion H; subst. simpl. split; [reflexivity|lia].
  - cbn [smartRows] in H.
    destruct (Atoi (nth 2 m "")) as [err|age]; [discriminate|].
    apply IH in H as [H1 H2]. cbn [filter].
    assert (Ef : failed m
                 = negb (nth 1 m "" =? "Completed without error")%string)
      by reflexivity.
    rewrite Ef.
    destruct (negb (nth 1 m "" =? "Completed without error")%string);
      cbn [latestFail fails map List.length] in *.
    + rewrite last_cons. split; [exact H1|lia].
    + split; assumption.
Qed.

(** C3 on [sampleTwoFailures]: two of the three rows failed, the first
    row (the most recent test) with a read failure and the third with a
    seek failure; the analyzer fails for the first disk and reports the
    seek failure, the older of the two. *)
Theorem older_failure_is_reported :
  map description (FindAllStringSubmatch smartRe sampleTwoFailures)
  = ["Completed: read failure"; "Completed without error";
     "Completed: servo/seek failure"]
  /\ checkSmartStatus (prints sampleTwoFailures)
     = (Some (errorString
                "smart error: disk sda: Completed: servo/seek failure"),
        35064, 35064).
Proof. split; vm_compute; reflexivity. Qed.

(* ================================================================== *)
(** * The ages of a batch (C7) *)
(* ================================================================== *)

(** After the first row, the rows leave [oldest] and [youngest] alone. *)
Lemma smartRows_later (ms : list (list string)) :
  forall j vs vs',
    j <> O -> smartRows ms j vs = inr vs' ->
    oldest vs' = oldest vs /\ youngest vs' = youngest vs.
Proof.
  induction ms as [|m ms IH]; intros j vs vs' Hj H.
  - inversion H; now subst.
  - cbn [smartRows] in H.
    destruct (Atoi (nth 2 m "")) as [err|age]; [discriminate|].
    apply IH in H; [|discriminate].
    destruct (Nat.eqb_spec j 0) as [->|_]; [contradiction|].
    cbn [andb oldest youngest] in H.
    destruct (negb (nth 1 m "" =? "Completed without error")%string);
      exact H.
Qed.

(** The first row sets them to the maximum and the minimum with its
    age. *)
Lemma smartRows_first (m : list string) (ms : list (list string))
      (vs vs' : smartVars) :
  smartRows (m :: ms) 0 vs = inr vs' ->
  exists age,
    Atoi (nth 2 m "") = inr age
    /\ oldest vs' = Z.max (oldest vs) age
    /\ youngest vs' = Z.min (youngest vs) age.
Proof.
  intros H. cbn [smartRows] in H.
  destruct (Atoi (nth 2 m "")) as [err|age]; [discriminate|].
  exists age. split; [reflexivity|].
  apply smartRows_later in H as [Ho Hy]; [|discriminate].
  cbn [Nat.eqb andb oldest youngest] in Ho, Hy.
  assert (Hvs : forall (b : bool) (w : smartVars),
             oldest (if b then w else vs) = oldest vs ->
             youngest (if b then w else vs) = youngest vs ->
             oldest vs' = Z.max (oldest vs) age
             /\ youngest vs' = Z.min (youngest vs) age).
  { intros b w E1 E2. rewrite Ho, Hy.
    destruct (negb (nth 1 m "" =? "Completed without error")%string);
      cbn [oldest youngest].
    - split.
      + destruct (Z.gtb_spec age (oldest vs)); lia.
      + destruct (Z.ltb_spec age (youngest vs)); lia.
    - split.
      + destruct (Z.gtb_spec age (oldest vs)); lia.
      + destruct (Z.ltb_spec age (youngest vs)); lia. }
  apply (Hvs false vs); reflexivity.
Qed.

(** On success, [oldest] and [youngest] went through the first rows of
    the disks in order. *)
Lemma smartDisks_ages (e : executer) (ds : list string) :
  forall o y o' y',
    smartDisks e ds o y = (None, o', y') ->
    o' = fold_left Z.max (firstRowAges e ds) o
    /\ y' = fold_left Z.min (firstRowAges e ds) y.
Proof.
  induction ds as [|disk ds IH]; intros o y o' y' H.
  - inversion H; subst. now split.
  - cbn [smartDisks] in H. unfold firstRowAges. cbn [flat_map].
    unfold firstRowAge at 1 3, rowsOf, selftest.
    destruct (e "/sbin/smartctl" ["-l"; "selftest"; "/dev/" ++ disk])
      as [err|status]; [discriminate|].
    destruct (FindAllStringSubmatch smartRe status) as [|m ms] eqn:Erows.
    + cbn [smartRows fails oldest youngest List.length] in H.
      rewrite no_rows_under_threshold in H. now apply IH.
    + destruct (smartRows (m :: ms) 0 (mkVars 0 "" o y))
        as [[[err o1] y1]|vs] eqn:Er; [discriminate|].
      destruct (overThreshold (fails vs) (List.length (m :: ms)));
        [discriminate|].
      apply smartRows_first in Er as (age & -> & Ho & Hy).
      cbn [oldest youngest] in Ho, Hy.
      apply IH in H as [H1 H2]. cbn [app fold_left].
      now rewrite <- Ho, <- Hy.
Qed.

Lemma fold_max_in_or (l : list Z) :
  forall o, fold_left Z.max l o = o \/ In (fold_left Z.max l o) l.
Proof.
  induction l as [|a l IH]; intros o; simpl; [now left|].
  destruct (IH (Z.max o a)) as [E|Hin]; [|right; now right].
  rewrite E. destruct (Z.max_spec o a) as [[_ ->]|[_ ->]];
    [right; now left|now left].
Qed.

Lemma fold_max_spec (l : list Z) :
  forall o,
    o <= fold_left Z.max l o
    /\ Forall (fun a => a <= fold_left Z.max l o) l
    /\ (l <> [] -> Forall (fun a => o <= a) l -> In (fold_left Z.max l o) l).
Proof.
  assert (Hge : forall l o,
             o <= fold_left Z.max l o
             /\ Forall (fun a => a <= fold_left Z.max l o) l).
  { intros l0. induction l0 as [|a l0 IH]; intros o; simpl.
    - split; [lia|constructor].
    - destruct (IH (Z.max o a)) as [H1 H2].
      split; [lia|]. constructor; [lia|exact H2]. }
  intros o. destruct (Hge l o) as [H1 H2]. split; [exact H1|].
  split; [exact H2|]. intros Hne Hall.
  destruct (fold_max_in_or l o) as [E|Hin]; [|exact Hin].
  destruct l as [|a l]; [contradiction|].
  inversion H2; subst. inversion Hall; subst.
  assert (a = fold_left Z.max (a :: l) o) by lia.
  rewrite <- H at 1. now left.
Qed.

Lemma fold_min_spec (l : list Z) :
  forall y, Forall (fun a => fold_left Z.min l y <= a) l.
Proof.
  assert (Hle : forall l y, fold_left Z.min l y <= y).
  { intros l0. induction l0 as [|a l0 IH]; intros y; simpl; [lia|].
    specialize (IH (Z.min y a)). lia. }
  induction l as [|a l IH]; intros y; simpl; constructor.
  - specialize (Hle l (Z.min y a)). lia.
  - apply IH.
Qed.

(** The ages read from the logs are not negative. *)
Lemma firstRowAges_nonneg (e : executer) (ds : list string) :
  Forall (fun a => 0 <= a) (firstRowAges e ds).
Proof.
  unfold firstRowAges. apply Forall_flat_map, Forall_forall.
  intros disk _. unfold firstRowAge, rowsOf.
  destruct (selftest e disk) as [err|status]; [constructor|].
  destruct (FindAllStringSubmatch smartRe status) as [|m ms] eqn:E;
    [constructor|].
  destruct (Atoi (nth 2 m "")) as [err|age] eqn:Ea; constructor;
    [|constructor].
  destruct (smartRe_hours_digits status m) as (x & w & Hn & Hd).
  { rewrite E. now left. }
  rewrite Hn in Ea. eapply Atoi_digits_nonneg; eauto.
Qed.

(** After the first row, a row whose hours do not convert returns
    [oldest] and [youngest] as they are. *)
Lemma smartRows_later_error (ms : list (list string)) :
  forall j vs err o y,
    j <> O -> smartRows ms j vs = inl (err, o, y) ->
    o = oldest vs /\ y = youngest vs.
Proof.
  induction ms as [|m ms IH]; intros j vs err o y Hj H; [discriminate|].
  cbn [smartRows] in H.
  assert (E : forall (b : bool) (w : smartVars),
             oldest w = oldest vs -> youngest w = youngest vs ->
             oldest (if b then w else vs) = oldest vs
             /\ youngest (if b then w else vs) = youngest vs).
  { intros [|] w; now split. }
  destruct (E (negb (nth 1 m "" =? "Completed without error")%string)
              (mkVars (fails vs + 1) (nth 1 m "") (oldest vs) (youngest vs))
              eq_refl eq_refl) as [Eo Ey].
  destruct (Atoi (nth 2 m "")) as [err'|age].
  - inversion H; subst. now split.
  - apply IH in H; [|discriminate].
    destruct (Nat.eqb_spec j 0) as [->|_]; [contradiction|].
    cbn [andb oldest youngest] in H. now rewrite Eo, Ey in H.
Qed.

(** The rows of a log return an error exactly when the hours of a row do
    not convert. *)
Lemma smartRows_error_iff (ms : list (list string)) :
  forall j vs,
    match smartRows ms j vs with
    | inl _ => existsb hoursFail ms = true
    | inr _ => existsb hoursFail ms = false
    end.
Proof.
  induction ms as [|m ms IH]; intros j vs; cbn [smartRows existsb];
    [reflexivity|].
  unfold hoursFail at 1 3. destruct (Atoi (nth 2 m "")) as [err|age];
    [reflexivity|]. cbn [orb]. apply IH.
Qed.

(** The ages after the rows of one log, on both returns of the loop over
    the rows: the first row counts when its hours convert, and no other
    row does. *)
Lemma smartRows_ages_exact (ms : list (list string)) (vs : smartVars) :
  let ages :=
    match ms with
    | m :: _ =>
        match Atoi (nth 2 m "") with
        | inr age => [age]
        | inl _ => []
        end
    | [] => []
    end in
  match smartRows ms 0 vs with
  | inl (_, o, y) =>
      o = fold_left Z.max ages (oldest vs)
      /\ y = fold_left Z.min ages (youngest vs)
  | inr vs' =>
      oldest vs' = fold_left Z.max ages (oldest vs)
      /\ youngest vs' = fold_left Z.min ages (youngest vs)
  end.
Proof.
  destruct ms as [|m ms]; cbn [smartRows]; [now split|].
  assert (E : forall (b : bool) (w : smartVars),
             oldest w = oldest vs -> youngest w = youngest vs ->
             oldest (if b then w else vs) = oldest vs
             /\ youngest (if b then w else vs) = youngest vs).
  { intros [|] w; now split. }
  destruct (E (negb (nth 1 m "" =? "Completed without error")%string)
              (mkVars (fails vs + 1) (nth 1 m "") (oldest vs) (youngest vs))
              eq_refl eq_refl) as [Eo Ey].
  destruct (Atoi (nth 2 m "")) as [err|age]; cbn [fold_left];
    [now split|].
  cbn [Nat.eqb andb]. rewrite Eo, Ey.
  set (w := mkVars _ _ _ _).
  assert (Ew : oldest w = Z.max (oldest vs) age
               /\ youngest w = Z.min (youngest vs) age).
  { unfold w. cbn [oldest youngest]. split.
    - destruct (Z.gtb_spec age (oldest vs)); lia.
    - destruct (Z.ltb_spec age (youngest vs)); lia. }
  destruct Ew as [Ewo Ewy].
  destruct (smartRows ms 1 w) as [[[err o] y]|vs'] eqn:R.
  - apply smartRows_later_error in R as [-> ->]; [|discriminate].
    now split.
  - apply smartRows_later in R as [-> ->]; [|discriminate]. now split.
Qed.

(** On every return of the loop over the disks, [oldest] and [youngest]
    went through the first rows of the disks whose log was read. *)
Lemma smartDisks_every_return (e : executer) (ds : list string) :
  forall o y r o' y',
    smartDisks e ds o y = (r, o', y') ->
    o' = fold_left Z.max (firstRowAges e (scanned e ds)) o
    /\ y' = fold_left Z.min (firstRowAges e (scanned e ds)) y.
Proof.
  induction ds as [|disk ds IH]; intros o y r o' y' H.
  - inversion H; subst. now split.
  - cbn [smartDisks scanned] in *. unfold selftest.
    destruct (e "/sbin/smartctl" ["-l"; "selftest"; "/dev/" ++ disk])
      as [err|status] eqn:Ee.
    { inversion H; subst. split; reflexivity. }
    assert (Erows : rowsOf e disk = FindAllStringSubmatch smartRe status).
    { unfold rowsOf, selftest. now rewrite Ee. }
    assert (Eage : firstRowAge e disk
                   = match FindAllStringSubmatch smartRe status with
                     | m :: _ =>
                         match Atoi (nth 2 m "") with
                         | inr age => [age]
                         | inl _ => []
                         end
                     | [] => []
                     end).
    { unfold firstRowAge. rewrite Erows.
      destruct (FindAllStringSubmatch smartRe status) as [|m ms];
        [reflexivity|]. now destruct (Atoi (nth 2 m "")). }
    pose proof (smartRows_ages_exact (FindAllStringSubmatch smartRe status)
                                     (mkVars 0 "" o y)) as A.
    pose proof (smartRows_error_iff (FindAllStringSubmatch smartRe status)
                                    0 (mkVars 0 "" o y)) as X.
    cbv zeta in A. rewrite <- Eage in A. cbn [oldest youngest] in A.
    unfold endsBatch. rewrite Erows.
    destruct (smartRows (FindAllStringSubmatch smartRe status) 0
                        (mkVars 0 "" o y)) as [[[err o1] y1]|vs] eqn:R.
    + inversion H; subst. rewrite X. cbn [orb].
      unfold firstRowAges. cbn [flat_map]. now rewrite app_nil_r.
    + rewrite X. cbn [orb].
      assert (Ef : fails vs = Z.of_nat (failedRows e disk)).
      { apply smartRows_latestFail in R as [_ R]. cbn [fails] in R.
        unfold failedRows. now rewrite Erows. }
      rewrite <- Ef.
      destruct (overThreshold (fails vs)
                  (List.length (FindAllStringSubmatch smartRe status))).
      * inversion H; subst. unfold firstRowAges. cbn [flat_map].
        now rewrite app_nil_r.
      * apply IH in H as [-> ->]. destruct A as [-> ->].
        unfold firstRowAges. cbn [flat_map]. rewrite !fold_left_app.
        now split.
Qed.

(** C7, as stated, fails when a disk meets the threshold: the rows of a
    log update the ages while they are read, and the threshold is tested
    after them.  With [breachAtSdb] the first disk passes with 12000
    hours, and the second is over the threshold with 35064 hours in its
    first row: the ages returned with the error are 35064 and 12000, and
    not 12000 and 12000, the maximum and the minimum over the disk read
    before the one that meets the threshold. *)
Lemma breaching_disk_is_counted :
  firstRowAges breachAtSdb ["sda"] = [12000]
  /\ endsBatch breachAtSdb "sda" = false
  /\ firstRowAge breachAtSdb "sdb" = [35064]
  /\ overThreshold (Z.of_nat (failedRows breachAtSdb "sdb"))
                   (List.length (rowsOf breachAtSdb "sdb")) = true
  /\ checkSmartStatus breachAtSdb
     = (Some (errorString
                "smart error: disk sdb: Completed: servo/seek failure"),
        35064, 12000).
Proof. repeat split; vm_compute; reflexivity. Qed.

(** C7, amended: on every return of [checkSmartStatus], with or without
    an error, [oldest] and [youngest] are the maximum and the minimum,
    from [0] and [math.MaxInt32], of the power-on hours of the first rows
    of the disks whose log was read: the disks in their order up to and
    including the one at which the loop stops, so that a disk that meets
    the threshold counts with its own first row.  When one of these logs
    has a first row, [youngest <= oldest], and [oldest] is the maximum of
    these hours: it is one of them and none is larger. *)
Theorem ages_of_every_batch (e : executer) (r : option error) (o y : Z) :
  checkSmartStatus e = (r, o, y) ->
  o = fold_left Z.max (firstRowAges e (scanned e disks)) 0
  /\ y = fold_left Z.min (firstRowAges e (scanned e disks)) MaxInt32
  /\ (firstRowAges e (scanned e disks) <> [] ->
      y <= o
      /\ In o (firstRowAges e (scanned e disks))
      /\ Forall (fun a => a <= o) (firstRowAges e (scanned e disks))).
Proof.
  intros H. unfold checkSmartStatus in H.
  apply smartDisks_every_return in H as [Ho Hy].
  split; [exact Ho|]. split; [exact Hy|]. intros Hne. subst o y.
  destruct (fold_max_spec (firstRowAges e (scanned e disks)) 0)
    as (_ & Hmax & Hin).
  pose proof (fold_min_spec (firstRowAges e (scanned e disks)) MaxInt32)
    as Hmin.
  split; [|split; [|exact Hmax]].
  - destruct (firstRowAges e (scanned e disks)) as [|a l]; [contradiction|].
    inversion Hmax; subst. inversion Hmin; subst. lia.
  - apply Hin; [exact Hne|apply firstRowAges_nonneg].
Qed.

Lemma ages_of_every_batch_witness :
  checkSmartStatus breachAtSdb
  = (Some (errorString
             "smart error: disk sdb: Completed: servo/seek failure"),
     35064, 12000)
  /\ scanned breachAtSdb disks = ["sda"; "sdb"]
  /\ firstRowAges breachAtSdb (scanned breachAtSdb disks) = [12000; 35064]
  /\ 35064 = fold_left Z.max (firstRowAges breachAtSdb
                                           (scanned breachAtSdb disks)) 0
  /\ 12000 = fold_left Z.min (firstRowAges breachAtSdb
                                           (scanned breachAtSdb disks))
                       MaxInt32
  /\ (firstRowAges breachAtSdb (scanned breachAtSdb disks) <> [] ->
      12000 <= 35064
      /\ In 35064 (firstRowAges breachAtSdb (scanned breachAtSdb disks))
      /\ Forall (fun a => a <= 35064)
                (firstRowAges breachAtSdb (scanned breachAtSdb disks))).
Proof.
  assert (H1 : checkSmartStatus breachAtSdb
               = (Some (errorString
                          "smart error: disk sdb: Completed: servo/seek failure"),
                  35064, 12000)) by (vm_compute; reflexivity).
  split; [exact H1|]. split; [vm_compute; reflexivity|].
  split; [vm_compute; reflexivity|].
  exact (ages_of_every_batch breachAtSdb _ 35064 12000 H1).
Defined.

(* ================================================================== *)
(** * The threshold, and where the batch stops *)
(* ================================================================== *)

(** The constant is the quotient [1/20] rounded to [float32]. *)
Example smartThreshold_rounds_one_twentieth :
  Float32.div (Float32.of_int 1) (Float32.of_int 20) = smartThreshold.
Proof. vm_compute. reflexivity. Qed.

(** X17: the comparison in [float32] against the exact ratio: for a
    log of fewer than 100 rows, the threshold is met exactly when there is
    a row and [fails / rows >= 1/20]; the rounding of [0.05] and of the
    quotient does not move the limit. *)
Lemma overThreshold_exact (f rows : nat) :
  (rows < 100)%nat -> (f <= rows)%nat ->
  overThreshold (Z.of_nat f) rows
  = ((0 <? rows)%nat && (rows <=? 20 * f)%nat).
Proof.
  intros Hrows Hf.
  assert (H : forallb thresholdAgrees (seq 0 100) = true)
    by (vm_compute; reflexivity).
  rewrite forallb_forall in H.
  specialize (H rows). unfold thresholdAgrees in H.
  rewrite forallb_forall in H.
  apply Bool.eqb_prop, H; apply in_seq; lia.
Qed.

Lemma overThreshold_exact_witness :
  (20 < 100)%nat /\ (1 <= 20)%nat
  /\ overThreshold (Z.of_nat 1) 20 = ((0 <? 20)%nat && (20 <=? 20 * 1)%nat)
  /\ overThreshold (Z.of_nat 1) 21 = ((0 <? 21)%nat && (21 <=? 20 * 1)%nat).
Proof.
  split; [lia|]. split; [lia|]. split.
  - apply (overThreshold_exact 1 20); lia.
  - apply (overThreshold_exact 1 21); lia.
Defined.

(** A disk that meets the threshold ends the batch: the error names the
    disk and the last row that failed, and the executer is not asked
    about the disks that follow. *)
Lemma breach_stops_the_batch (e : executer) (disk status : string)
      (rest : list string) (o y : Z) (vs : smartVars) :
  selftest e disk = inr status ->
  smartRows (FindAllStringSubmatch smartRe status) 0 (mkVars 0 "" o y)
  = inr vs ->
  overThreshold (fails vs)
                (List.length (FindAllStringSubmatch smartRe status)) = true ->
  smartDisks e (disk :: rest) o y
  = (Some (errorString
             ("smart error: disk " ++ disk ++ ": "
              ++ last (map description
                           (filter failed
                                   (FindAllStringSubmatch smartRe status)))
                      "")),
     oldest vs, youngest vs).
Proof.
  intros He Hrows Hover. unfold selftest in He. cbn [smartDisks].
  rewrite He, Hrows, Hover.
  apply smartRows_latestFail in Hrows as [-> _]. reflexivity.
Qed.

(* ================================================================== *)
(** * The expectations of [main_test.go] *)
(* ================================================================== *)

Example test_checkPoolStatus_sample3 :
  checkPoolStatus (prints sampleUnavail)
  = Err (errorString
           ("pool primarySafe - DEGRADED (0|0|0): errors: No known data errors"
            ++ nl ++ "vdev raidz2-0 - DEGRADED (0|0|0)" ++ nl
            ++ "disk 14803813886136010794 - UNAVAIL (0|0|0): was /dev/gptid/4167d912-9102-11e2-a05e-b8975a0e7ea3")).
Proof. vm_compute. reflexivity. Qed.

Example test_checkSmartStatus_sample3 :
  checkSmartStatus failsAtSde
  = (Some (errorString "smart error: disk sde: foobarted without error"),
     35064, 35064).
Proof. vm_compute. reflexivity. Qed.

Example test_checkSmartStatus_sample :
  checkSmartStatus (prints sampleOld) = (None, 35064, 35064).
Proof. vm_compute. reflexivity. Qed.


(* ================================================================== *)
(** * More on the matches of a pattern *)
(* ================================================================== *)

Section LiteralPatterns.

Context {R : Type}.

(** The characters of a name, matched one by one. *)
Lemma run_Lit (name : string) :
  forall pos r cs (k : cont (R:=R)),
    run (Lit name) pos (name ++ r) cs k
    = k (pos + String.length name)%nat r cs.
Proof.
  induction name as [|c name IH]; intros pos r cs k; cbn [Lit run].
  - simpl. now rewrite Nat.add_0_r.
  - cbn [append]. rewrite Ascii.eqb_refl, IH. cbn [String.length].
    now rewrite Nat.add_succ_r.
Qed.

Lemma run_Lit_fail (name : string) :
  forall pos s cs (k : cont (R:=R)),
    String.prefix name s = false -> run (Lit name) pos s cs k = None.
Proof.
  induction name as [|c name IH]; intros pos s cs k H;
    [destruct s; discriminate|].
  destruct s as [|c' s]; cbn [Lit run]; [reflexivity|].
  cbn [String.prefix] in H.
  destruct (Ascii.eqb_spec c c') as [->|N]; [|reflexivity].
  apply IH. destruct (ascii_dec c' c'); [exact H|contradiction].
Qed.

Lemma run_Class_cons (f : ascii -> bool) (pos : nat) (c : ascii) (s : string)
      (cs : captures) (k : cont (R:=R)) :
  run (Class f) pos (String c s) cs k
  = if f c then k (S pos) s cs else None.
Proof. reflexivity. Qed.

Lemma run_Class_stops (f : ascii -> bool) (pos : nat) (r : string)
      (cs : captures) (k : cont (R:=R)) :
  stops f r -> run (Class f) pos r cs k = None.
Proof.
  destruct r as [|c r]; [reflexivity|]. simpl. now intros ->.
Qed.

(** A greedy star of a class reads the whole run of its characters when
    what follows the star matches after it. *)
Lemma iterate_class_greedy (f : ascii -> bool) (k : cont (R:=R)) (x : R) :
  forall w fuel pos r cs,
    allChars f w = true -> (String.length w <= fuel)%nat -> stops f r ->
    k (pos + String.length w)%nat r cs = Some x ->
    iterate (run (Class f)) true k fuel pos (w ++ r) cs = Some x.
Proof.
  induction w as [|c w IH]; intros fuel pos r cs Hw Hf Hr Hk.
  - cbn [append String.length] in *. rewrite Nat.add_0_r in Hk.
    destruct fuel as [|fuel]; [exact Hk|]. cbn [iterate].
    now rewrite (run_Class_stops f pos r cs _ Hr).
  - destruct fuel as [|fuel]; [simpl in Hf; lia|].
    simpl in Hw. apply andb_true_iff in Hw as [Hc Hw].
    cbn [iterate append]. rewrite run_Class_cons, Hc.
    assert (L : (String.length (w ++ r)
                 <? String.length (String c (w ++ r)))%nat = true)
      by (apply Nat.ltb_lt; simpl; lia).
    rewrite L. rewrite (IH fuel (S pos) r cs Hw); [reflexivity| |exact Hr|].
    + simpl in Hf. lia.
    + cbn [String.length] in Hk. now rewrite Nat.add_succ_r in Hk.
Qed.

Lemma run_plus_greedy (f : ascii -> bool) (k : cont (R:=R)) (x : R)
      (w : string) (pos : nat) (r : string) (cs : captures) :
  w <> "" -> allChars f w = true -> stops f r ->
  k (pos + String.length w)%nat r cs = Some x ->
  run (Plus true (Class f)) pos (w ++ r) cs k = Some x.
Proof.
  intros Hne Hw Hr Hk. destruct w as [|c w]; [contradiction|].
  simpl in Hw. apply andb_true_iff in Hw as [Hc Hw].
  unfold Plus. cbn [append].
  change (run (Seq (Class f) (Star true (Class f))) pos
              (String c (w ++ r)) cs k)
    with (run (Class f) pos (String c (w ++ r)) cs
              (fun pos' s' cs' =>
                 iterate (run (Class f)) true k (String.length s') pos' s'
                         cs')).
  rewrite run_Class_cons, Hc.
  apply iterate_class_greedy; [exact Hw| |exact Hr|].
  - rewrite string_length_app. lia.
  - cbn [String.length] in Hk. now rewrite Nat.add_succ_r in Hk.
Qed.

End LiteralPatterns.

(** A pattern that begins with a literal finds nothing in a text without
    the literal. *)
Lemma search_without_literal (name : string) (r : regex) :
  forall s pos,
    Strings.Contains s name = false ->
    search (Seq (Lit name) r) pos s = None.
Proof.
  intros s. induction s as [|c s IH]; intros pos H.
  - rewrite search_unfold. cbn [run].
    rewrite run_Lit_fail; [reflexivity|].
    simpl in H. now apply orb_false_iff in H as [H _].
  - change (Strings.Contains (String c s) name)
      with (String.prefix name (String c s) || Strings.Contains s name) in H.
    apply orb_false_iff in H as [H1 H2].
    rewrite search_unfold. cbn [run].
    rewrite run_Lit_fail; [|exact H1]. now apply IH.
Qed.

Lemma matches_star_class_caps (f : ascii -> bool) (g : bool) p s c p' s' c' :
  matches (Star g (Class f)) p s c p' s' c' -> c' = c.
Proof.
  intros H. remember (Star g (Class f)) as r eqn:E.
  induction H as [| | | | | |g0 r0 p0 s0 c0 p1 s1 c1 p2 s2 c2 Hbody _ Hrest IH
                  | | |]; inversion E; subst.
  - reflexivity.
  - rewrite (IH eq_refl).
    now apply matches_class_inv in Hbody as (x & _ & _ & _ & ->).
Qed.

(** A class repeated once or more reads a text of its characters, at
    least one, and leaves the captures alone. *)
Lemma matches_plus_class (f : ascii -> bool) (g : bool) p s c p' s' c' :
  matches (Plus g (Class f)) p s c p' s' c' ->
  c' = c
  /\ exists x w, s = String x w ++ s' /\ allChars f (String x w) = true.
Proof.
  unfold Plus. intros H.
  apply matches_seq_inv in H as (pm & sm & cm & H1 & H2).
  apply matches_class_inv in H1 as (x & -> & Hx & _ & ->).
  pose proof (matches_star_class_caps _ _ _ _ _ _ _ _ H2) as ->.
  apply matches_star_class in H2 as (w & -> & Hw).
  split; [reflexivity|]. exists x, w. split; [reflexivity|].
  simpl. now rewrite Hx, Hw.
Qed.


(* ================================================================== *)
(** * The verdict of [checkPoolStatus] *)
(* ================================================================== *)

Lemma verdict_nil (errs : list string) : verdict errs = Val tt <-> errs = [].
Proof.
  unfold verdict. destruct errs as [|x l]; simpl.
  - now split.
  - split; discriminate.
Qed.

Lemma structuralLines_nil (p : pool) :
  structuralLines p = [] <-> pool_Health p = true.
Proof.
  unfold structuralLines. destruct (pool_Health p); simpl.
  - now split.
  - split; discriminate.
Qed.

Lemma flat_map_eq_nil {A B : Type} (f : A -> list B) (l : list A) :
  flat_map f l = [] <-> forall x, In x l -> f x = [].
Proof.
  induction l as [|a l IH]; simpl.
  - split; [intros _ x []|reflexivity].
  - split.
    + intros H. apply app_eq_nil in H as [Ha Hl].
      intros x [<-|Hx]; [exact Ha|]. now apply IH.
    + intros H. rewrite (H a (or_introl eq_refl)). simpl.
      apply IH. intros x Hx. apply H. now right.
Qed.

Lemma parsePools_no_crash (zpoolStatus : string) :
  parsePools zpoolStatus <> Crash.
Proof.
  unfold parsePools.
  pose proof (parseLines_no_crash (Bufio.tokens zpoolStatus) start Inv_start)
    as N.
  destruct (parseLines (Bufio.tokens zpoolStatus) start); try discriminate.
  now contradiction N.
Qed.

(** X1: no output of [zpool status] makes [parsePools] or
    [checkPoolStatus] panic: the pointers [p] and [v] are never nil where
    the parser writes through them, whatever the lines are. *)
Theorem no_text_makes_the_check_panic (e : executer) (zpoolStatus : string) :
  parsePools zpoolStatus <> Crash /\ checkPoolStatus e <> Crash.
Proof.
  pose proof parsePools_no_crash as P.
  split; [apply P|].
  unfold checkPoolStatus.
  destruct (e "/sbin/zpool" ["status"]) as [err|t]; [discriminate|].
  specialize (P t). destruct (parsePools t) as [pools|err|];
    [|discriminate|now contradiction P].
  unfold verdict. destruct (0 <? Datatypes.length (poolsErrs pools))%nat;
    discriminate.
Qed.

(** X2: [checkPoolStatus] returns nil exactly when the command
    succeeded, its output parsed, and [Health] is true of every pool of
    it; the test on the scan status never adds to that. *)
Theorem nil_exactly_when_all_pools_healthy (e : executer) :
  checkPoolStatus e = Val tt
  <-> exists zStatus pools,
      e "/sbin/zpool" ["status"] = inr zStatus
      /\ parsePools zStatus = Val pools
      /\ forallb pool_Health pools = true.
Proof.
  unfold checkPoolStatus. split.
  - destruct (e "/sbin/zpool" ["status"]) as [err|t]; [discriminate|].
    destruct (parsePools t) as [pools|err|] eqn:P; try discriminate.
    intros H. exists t, pools. split; [reflexivity|]. split; [exact P|].
    apply verdict_nil in H. rewrite (parsed_pools_errs _ _ P) in H.
    apply forallb_forall. intros p Hp. apply structuralLines_nil.
    now apply (proj1 (flat_map_eq_nil _ _) H).
  - intros (t & pools & -> & P & H). rewrite P. apply verdict_nil.
    rewrite (parsed_pools_errs _ _ P). apply flat_map_eq_nil.
    intros p Hp. apply structuralLines_nil.
    rewrite forallb_forall in H. now apply H.
Qed.

Lemma forallb_agree {A : Type} (f g : A -> bool) (l : list A) :
  (forall x, In x l -> f x = g x) -> forallb f l = forallb g l.
Proof.
  induction l as [|a l IH]; simpl; [reflexivity|]. intros H.
  rewrite (H a (or_introl eq_refl)). f_equal. apply IH.
  intros x Hx. apply H. now right.
Qed.

Lemma diskOk_Healthy (v : vdev) (d : vdevDisk) :
  disk_vdev_typev d = vdev_typev v ->
  vdevDisk_Healthy d = diskOk (vdev_typev v) d.
Proof. unfold vdevDisk_Healthy, diskOk. now intros ->. Qed.

(** X3: for a pool that [parsePools] returns, [Health] is the
    conjunction of the pool's own state, counters and error text, of each
    group's own state and counters (nothing for a spare group), and of
    each disk judged by the kind of the group it sits in: [AVAIL] for a
    disk of a spare group, [ONLINE] with zero counters and no message for
    any other disk. *)
Theorem parsed_pool_health (zpoolStatus : string) (pools : list pool)
        (p : pool) :
  parsePools zpoolStatus = Val pools -> In p pools ->
  pool_Health p = pool_own p && forallb groupOk (pool_vdevs p).
Proof.
  intros H Hp. rewrite pool_Health_forallb. f_equal.
  apply forallb_agree. intros v Hv.
  rewrite vdev_Healthy_forallb. unfold groupOk. f_equal.
  apply forallb_agree. intros d Hd. apply diskOk_Healthy.
  eapply parsed_disk_typev; eauto.
Qed.

Lemma parsed_pool_health_witness :
  parsePools sampleSpare = Val [sparePool] /\ In sparePool [sparePool]
  /\ pool_Health sparePool
     = pool_own sparePool && forallb groupOk (pool_vdevs sparePool).
Proof.
  assert (H1 : parsePools sampleSpare = Val [sparePool])
    by (vm_compute; reflexivity).
  assert (H2 : In sparePool [sparePool]) by (left; reflexivity).
  split; [exact H1|]. split; [exact H2|].
  exact (parsed_pool_health sampleSpare [sparePool] sparePool H1 H2).
Defined.

Lemma vdevLines_report (v : vdev) : vdevLines v = groupReport v.
Proof.
  unfold vdevLines, groupReport. destruct (vdev_Healthy v) eqn:Hv; simpl.
  - apply flat_map_nil. intros d Hd. rewrite vdev_Healthy_forallb in Hv.
    apply andb_true_iff in Hv as [_ Hv]. rewrite forallb_forall in Hv.
    unfold diskLines. now rewrite (Hv d Hd).
  - f_equal. induction (vdev_disks v) as [|d l IH]; simpl; [reflexivity|].
    unfold diskLines at 1. destruct (vdevDisk_Healthy d); simpl; now f_equal.
Qed.

(** X4: the loop over the disks of a group is not under the test of
    the group, yet it behaves as if it were: a group adds nothing when it
    is healthy, and otherwise its own line followed by the lines of its
    unhealthy disks, in their order.  No line of a disk comes without the
    line of its group before it. *)
Theorem disk_lines_follow_their_group_line (errs : list string) (v : vdev) :
  vdevErrs errs v
  = if vdev_Healthy v
    then errs
    else (errs ++ vdev_String v
               :: map vdevDisk_String
                      (filter (fun d => negb (vdevDisk_Healthy d))
                              (vdev_disks v)))%list.
Proof.
  rewrite vdevErrs_lines, vdevLines_report. unfold groupReport.
  destruct (vdev_Healthy v); [apply app_nil_r|reflexivity].
Qed.

Lemma structuralLines_report (p : pool) : structuralLines p = poolReport p.
Proof.
  unfold structuralLines, poolReport. destruct (pool_Health p); simpl;
    [reflexivity|]. f_equal.
  rewrite !flat_map_concat_map. f_equal. apply map_ext.
  exact vdevLines_report.
Qed.

(** X23: the result of [checkPoolStatus] on a text that parses, in full:
    nil when no pool has a diagnostic, and otherwise one error whose text
    is the diagnostics joined by newlines: for each pool that is not
    healthy, in the order of the text, the line of the pool, then for each
    of its groups that is not healthy the line of the group followed by
    the lines of its disks that are not healthy.  A healthy pool, and a
    healthy group of a pool that is not, add nothing. *)
Theorem diagnostics_of_a_text (zpoolStatus : string) (pools : list pool) :
  parsePools zpoolStatus = Val pools ->
  checkPoolStatus (prints zpoolStatus)
  = match report pools with
    | [] => Val tt
    | lines => Err (errorString (Strings.Join lines nl))
    end.
Proof.
  intros P. unfold checkPoolStatus, prints. rewrite P.
  rewrite (parsed_pools_errs _ _ P).
  replace (flat_map structuralLines pools) with (report pools).
  - unfold verdict. now destruct (report pools).
  - unfold report. rewrite !flat_map_concat_map. f_equal. apply map_ext.
    intros p. symmetry. apply structuralLines_report.
Qed.

Lemma diagnostics_of_a_text_witness :
  parsePools sampleUnavail = Val [unavailPool]
  /\ checkPoolStatus (prints sampleUnavail)
     = Err (errorString
              ("pool primarySafe - DEGRADED (0|0|0): errors: No known data errors"
               ++ nl ++ "vdev raidz2-0 - DEGRADED (0|0|0)" ++ nl
               ++ "disk 14803813886136010794 - UNAVAIL (0|0|0): was /dev/gptid/4167d912-9102-11e2-a05e-b8975a0e7ea3")).
Proof.
  assert (H1 : parsePools sampleUnavail = Val [unavailPool])
    by (vm_compute; reflexivity).
  split; [exact H1|].
  exact (diagnostics_of_a_text sampleUnavail [unavailPool] H1).
Defined.

(* ================================================================== *)
(** * What the parser writes *)
(* ================================================================== *)

Lemma verb_s_not_empty (s w r : string) :
  Fmt.verb_s s = inr (w, r) -> w <> "".
Proof.
  unfold Fmt.verb_s, Fmt.bind.
  destruct (Fmt.SkipSpace s) as [e|[[] s1]] eqn:E; [discriminate|].
  assert (H1 : match s1 with
               | String c _ => Strings.isSpace c = false
               | EmptyString => True
               end).
  { revert E. induction s as [|c s IH]; simpl.
    - intros H; inversion H; exact I.
    - destruct (Fmt.isNewline c); [discriminate|].
      destruct (Strings.isSpace c) eqn:Ec; [exact IH|].
      intros H; inversion H; subst. exact Ec. }
  destruct s1 as [|c s1]; simpl; [discriminate|].
  rewrite H1. destruct (Fmt.word s1). intros H; inversion H. discriminate.
Qed.

Lemma format_pool_word (line name : string) :
  Fmt.Sscanf line Fmt.format_pool = inr name ->
  name <> "" /\ allChars notSpace name = true.
Proof.
  unfold Fmt.Sscanf, Fmt.format_pool, Fmt.bind.
  destruct (Fmt.fmtSpace line) as [e|[[] s1]]; [discriminate|].
  destruct (Fmt.fmtLit "pool:" s1) as [e|[[] s2]]; [discriminate|].
  destruct (Fmt.fmtSpace s2) as [e|[[] s3]]; [discriminate|].
  destruct (Fmt.verb_s s3) as [e|[w' r]] eqn:E; [discriminate|].
  intros H; inversion H; subst. split.
  - eapply verb_s_not_empty; eauto.
  - eapply verb_s_notSpace; eauto.
Qed.

Lemma caseVdev_writes (pools : list pool) (line : string) (st : step) :
  caseVdev pools line = Val st ->
  exists init p v,
    pools = (init ++ [p])%list /\ freshGroup v
    /\ st = mkStep None
                   (init ++ [set_pool_vdevs p (pool_vdevs p ++ [v])])
                   zpoolParseDisk 0.
Proof.
  intros H. apply onLast_Val in H as (init & p & p' & -> & B & ->).
  exists init, p.
  destruct (Strings.Contains line "mirror-" || Strings.Contains line "raidz").
  - destruct (Fmt.Sscanf line Fmt.format_row) as [e|[[[[a b] r] w] c]];
      [discriminate|]. inversion B; subst. eexists. split; [reflexivity|].
    split; [|reflexivity]. now split.
  - destruct (Strings.Contains line "spares").
    + destruct (Fmt.Sscanf line Fmt.format_name) as [e|a]; [discriminate|].
      inversion B; subst. eexists. split; [reflexivity|].
      split; [|reflexivity]. split; [reflexivity|]. simpl. tauto.
    + inversion B; subst. eexists. split; [reflexivity|].
      split; [|reflexivity]. now split.
Qed.

Lemma diskFields_diskOf (v : vdev) (line : string) (d : vdevDisk) :
  diskFields v line = Val d -> diskOf v d /\ disk_message d = "".
Proof.
  unfold diskFields, diskOf. destruct (vdev_typev v).
  - intros H; inversion H; simpl. tauto.
  - destruct (Fmt.Sscanf line Fmt.format_row) as [e|[[[[a b] r] w] c]];
      [discriminate|]. intros H; inversion H; simpl. tauto.
  - destruct (Fmt.Sscanf line Fmt.format_spare) as [e|[a b]];
      [discriminate|]. intros H; inversion H; simpl. tauto.
Qed.

Lemma caseDiskRow_writes (pools : list pool) (line : string) (st : step) :
  caseDiskRow pools line = Val st ->
  exists init p vs v d,
    pools = (init ++ [p])%list /\ pool_vdevs p = (vs ++ [v])%list
    /\ diskOf v d
    /\ st = mkStep None
                   (init ++ [set_pool_vdevs p
                               (vs ++ [set_vdev_disks v
                                         (vdev_disks v ++ [d])])])
                   zpoolParseDisk 0.
Proof.
  intros H. apply onLast_Val in H as (init & p & p' & -> & B & ->).
  destruct (splitLast (pool_vdevs p)) as [[vs v]|] eqn:E; [|discriminate].
  apply splitLast_Some in E.
  destruct (diskFields v line) as [d| |] eqn:F; try discriminate.
  apply diskFields_diskOf in F as [F _].
  inversion B; subst p'; clear B.
  exists init, p, vs, v. eexists. split; [reflexivity|].
  split; [exact E|]. split; [|reflexivity].
  destruct (0 <? Datatypes.length (FindStringSubmatch diskMessageRe line))%nat;
    [|exact F].
  unfold diskOf in *. simpl. exact F.
Qed.

(** One call of [parsePoolState] that returns without an error: it
    returns a new pool and leaves the list alone, or it returns nil and
    the list is unchanged or differs in its last pool by one write. *)
Lemma parsePoolState_writes (pools : list pool) (line : string)
      (state : zpoolParseState) (st : step) :
  parsePoolState pools line state = Val st ->
  match newPool st with
  | Some q =>
      pools_after st = pools
      /\ exists name,
          q = freshPool name /\ name <> ""
          /\ allChars notSpace name = true
  | None =>
      pools_after st = pools
      \/ exists init p p',
          pools = (init ++ [p])%list
          /\ pools_after st = (init ++ [p'])%list /\ writes p p'
  end.
Proof.
  assert (Hfields : forall body next n,
             (forall p p', body p = Val p' ->
                           pool_name p' = pool_name p
                           /\ pool_vdevs p' = pool_vdevs p) ->
             onLast pools body next n = Val st ->
             match newPool st with
             | Some q =>
                 pools_after st = pools
                 /\ exists name,
                     q = freshPool name /\ name <> ""
                     /\ allChars notSpace name = true
             | None =>
                 pools_after st = pools
                 \/ exists init p p',
                     pools = (init ++ [p])%list
                     /\ pools_after st = (init ++ [p'])%list /\ writes p p'
             end).
  { intros body next n Hb H.
    apply onLast_Val in H as (init & p & p' & -> & B & ->). simpl. right.
    exists init, p, p'. split; [reflexivity|]. split; [reflexivity|].
    destruct (Hb p p' B). now apply writes_fields. }
  assert (Hvdev : caseVdev pools line = Val st ->
                  match newPool st with
                  | Some q =>
                      pools_after st = pools
                      /\ exists name,
                          q = freshPool name /\ name <> ""
                          /\ allChars notSpace name = true
                  | None =>
                      pools_after st = pools
                      \/ exists init p p',
                          pools = (init ++ [p])%list
                          /\ pools_after st = (init ++ [p'])%list
                          /\ writes p p'
                  end).
  { intros H. apply caseVdev_writes in H as (init & p & v & -> & Hv & ->).
    simpl. right. eexists init, p, _. split; [reflexivity|].
    split; [reflexivity|]. now apply writes_group. }
  assert (Hscan : caseScan pools line = Val st ->
                  match newPool st with
                  | Some q =>
                      pools_after st = pools
                      /\ exists name,
                          q = freshPool name /\ name <> ""
                          /\ allChars notSpace name = true
                  | None =>
                      pools_after st = pools
                      \/ exists init p p',
                          pools = (init ++ [p])%list
                          /\ pools_after st = (init ++ [p'])%list
                          /\ writes p p'
                  end).
  { apply Hfields. intros p p'.
    destruct (Fmt.Sscanf line Fmt.format_scan); [discriminate|].
    intros H; inversion H; now split. }
  destruct state; simpl.
  - destruct (Fmt.Sscanf line Fmt.format_pool) as [e|name] eqn:E;
      [discriminate|]. intros H; inversion H; subst; simpl.
    split; [reflexivity|]. exists name. split; [reflexivity|].
    eapply format_pool_word; eauto.
  - destruct (Strings.HasPrefix (Strings.TrimSpace line) "scan: ");
      [exact Hscan|].
    destruct (Strings.HasPrefix (Strings.TrimSpace line) "action: ").
    { intros H; inversion H; subst; simpl. now left. }
    destruct (Strings.HasPrefix (Strings.TrimSpace line) "status: ").
    { apply Hfields. intros p p' H; inversion H; now split. }
    destruct (Strings.HasPrefix (Strings.TrimSpace line) "state: ").
    { apply Hfields. intros p p'.
      destruct (Fmt.Sscanf (Strings.TrimSpace line) Fmt.format_state);
        [discriminate|]. intros H; inversion H; now split. }
    apply Hfields. intros p p' H; inversion H; now split.
  - exact Hscan.
  - apply Hfields. intros p p'.
    destruct (Fmt.Sscanf line Fmt.format_row) as [e|[[[[a b] r] w] x]];
      [discriminate|].
    destruct (negb (a =? pool_name p)%string); [discriminate|].
    destruct (negb (b =? pool_state p)%string); [discriminate|].
    intros H; inversion H; now split.
  - exact Hvdev.
  - destruct (negb (MatchString diskRe line)).
    + destruct (String.length (Strings.TrimSpace line) =? 0)%nat;
        [|exact Hvdev].
      intros H; inversion H; subst; simpl. now left.
    + intros H.
      apply caseDiskRow_writes in H
        as (init & p & vs & v & d & -> & E & D & ->).
      simpl. right. eexists init, p, _. split; [reflexivity|].
      split; [reflexivity|]. now apply writes_disk.
  - destruct (String.length (Strings.TrimSpace line) =? 0)%nat.
    { intros H; inversion H; subst; simpl. now left. }
    apply Hfields. intros p p'.
    destruct (pool_errors p =? "")%string; intros H; inversion H; now split.
Qed.

(** One token: the list of pools is unchanged, or has a new pool at its
    end, or differs in its last pool by one write. *)
Lemma feed_writes (c c' : config) (line : string) :
  feed c line = Val c' ->
  cfg_pools c' = cfg_pools c
  \/ (exists name,
         name <> "" /\ allChars notSpace name = true
         /\ cfg_pools c' = (cfg_pools c ++ [freshPool name])%list)
  \/ (exists init p p',
         cfg_pools c = (init ++ [p])%list
         /\ cfg_pools c' = (init ++ [p'])%list /\ writes p p').
Proof.
  unfold feed. destruct (cfg_skip c).
  2:{ intros H; inversion H; simpl. now left. }
  destruct (parsePoolState (cfg_pools c) line (cfg_state c)) as [st| |] eqn:P;
    try discriminate.
  apply parsePoolState_writes in P. intros H; inversion H; subst; simpl.
  destruct (newPool st) as [q|].
  - destruct P as (-> & name & -> & Hn & Hw). right. left. now exists name.
  - destruct P as [->|P]; [now left|]. right. right. exact P.
Qed.

(** A property of pools that holds of a new pool and that every write
    keeps holds of all the pools of the loop. *)
Lemma parseLines_Forall (P : pool -> Prop) :
  (forall name, name <> "" -> allChars notSpace name = true ->
                P (freshPool name)) ->
  (forall p p', writes p p' -> P p -> P p') ->
  forall lines c c',
    Forall P (cfg_pools c) -> parseLines lines c = Val c' ->
    Forall P (cfg_pools c').
Proof.
  intros Hnew Hw lines. induction lines as [|l lines IH]; intros c c' Hc; simpl.
  - intros H; inversion H; now subst.
  - destruct (feed c l) as [c1| |] eqn:F; try discriminate.
    apply IH. apply feed_writes in F as [->|[(name & Hn & Hword & ->)|
                                             (init & p & p' & E & -> & W)]].
    + exact Hc.
    + apply Forall_app. split; [exact Hc|]. constructor; [|constructor].
      now apply Hnew.
    + rewrite E in Hc. eapply Forall_replace_last; [exact Hc|].
      eapply Hw; [exact W|]. eapply Forall_last; eauto.
Qed.

Lemma parsePools_Forall (P : pool -> Prop) :
  (forall name, name <> "" -> allChars notSpace name = true ->
                P (freshPool name)) ->
  (forall p p', writes p p' -> P p -> P p') ->
  forall zpoolStatus pools,
    parsePools zpoolStatus = Val pools -> Forall P pools.
Proof.
  intros Hnew Hw t pools. unfold parsePools.
  destruct (parseLines (Bufio.tokens t) start) as [c|e|] eqn:E;
    try discriminate.
  intros H; inversion H; subst.
  eapply (parseLines_Forall P Hnew Hw); [|exact E]. constructor.
Qed.

Lemma writes_poolShape (p p' : pool) :
  writes p p' -> poolShape p -> poolShape p'.
Proof.
  intros W (Hn & Hw & Hg). destruct W as [p' En Ev|v [Hd Hv]|vs v d Ev [Ht Hd]].
  - unfold poolShape. now rewrite En, Ev.
  - split; [exact Hn|]. split; [exact Hw|]. simpl.
    apply Forall_app. split; [exact Hg|]. constructor; [|constructor].
    unfold groupShape. rewrite Hd. destruct (vdev_typev v) eqn:Et.
    + subst v. simpl. repeat split; constructor.
    + exact I.
    + destruct Hv as (? & ? & ? & ?). repeat split; auto.
  - split; [exact Hn|]. split; [exact Hw|]. simpl.
    rewrite Ev in Hg. eapply Forall_replace_last; [exact Hg|].
    apply Forall_last in Hg. unfold groupShape in *. simpl.
    destruct (vdev_typev v).
    + destruct Hg as (? & ? & ? & ? & ? & Hg). repeat split; auto.
      apply Forall_app. split; [exact Hg|]. constructor; [|constructor].
      exact Hd.
    + exact I.
    + destruct Hg as (? & ? & ? & ? & Hg). repeat split; auto.
      apply Forall_app. split; [exact Hg|]. constructor; [|constructor].
      exact Hd.
Qed.

Lemma parsePools_poolShape (zpoolStatus : string) (pools : list pool) :
  parsePools zpoolStatus = Val pools -> Forall poolShape pools.
Proof.
  apply (parsePools_Forall poolShape); [|exact writes_poolShape].
  intros name Hn Hw. split; [exact Hn|]. split; [exact Hw|]. constructor.
Qed.

(* ================================================================== *)
(** * Groups of no recognised kind, and spare groups *)
(* ================================================================== *)

Lemma unhealthy_group_unhealthy_pool (p : pool) (v : vdev) :
  In v (pool_vdevs p) -> vdev_own v = false -> pool_Health p = false.
Proof.
  intros Hv Ho. rewrite pool_Health_forallb. apply not_true_is_false.
  intros H. apply andb_true_iff in H as [_ H]. rewrite forallb_forall in H.
  specialize (H v Hv). rewrite vdev_Healthy_forallb, Ho in H. discriminate.
Qed.

Lemma unhealthy_pool_is_reported (zpoolStatus : string) (pools : list pool)
      (p : pool) :
  parsePools zpoolStatus = Val pools -> In p pools ->
  pool_Health p = false ->
  exists msg, checkPoolStatus (prints zpoolStatus) = Err (errorString msg).
Proof.
  intros H Hp Hbad. unfold checkPoolStatus, prints. rewrite H.
  unfold verdict. destruct (poolsErrs pools) as [|x l] eqn:E.
  - exfalso. rewrite (parsed_pools_errs _ _ H) in E.
    pose proof (proj1 (flat_map_eq_nil _ _) E p Hp) as N.
    apply structuralLines_nil in N. congruence.
  - simpl. eexists; reflexivity.
Qed.

(** X5: a group whose line names no mirror, raidz or spares is kept
    as the zero value, whose state is not [ONLINE]: the pool that holds
    it is never healthy, and [checkPoolStatus] fails on every text with
    such a group, whatever the state of its disks. *)
Theorem group_of_no_kind_fails_the_check (zpoolStatus : string)
        (pools : list pool) (p : pool) (v : vdev) :
  parsePools zpoolStatus = Val pools ->
  In p pools -> In v (pool_vdevs p) -> vdev_typev v = vdevTypeNone ->
  vdev_String v = "vdev  -  (0|0|0)"
  /\ pool_Health p = false
  /\ exists msg, checkPoolStatus (prints zpoolStatus) = Err (errorString msg).
Proof.
  intros H Hp Hv Hk.
  pose proof (parsePools_poolShape _ _ H) as S. rewrite Forall_forall in S.
  destruct (S p Hp) as (_ & _ & G). rewrite Forall_forall in G.
  specialize (G v Hv). unfold groupShape in G. rewrite Hk in G.
  destruct G as (En & Es & Er & Ew & Ec & _).
  assert (Hbad : pool_Health p = false).
  { apply (unhealthy_group_unhealthy_pool p v Hv).
    unfold vdev_own. now rewrite Hk, Es. }
  split; [|split; [exact Hbad|]].
  - unfold vdev_String. now rewrite En, Es, Er, Ew, Ec.
  - eapply unhealthy_pool_is_reported; eauto.
Qed.

Lemma group_of_no_kind_fails_the_check_witness :
  parsePools sampleStripe
  = Val [stripePool [zeroVdev] "errors: No known data errors"]
  /\ vdev_String zeroVdev = "vdev  -  (0|0|0)"
  /\ pool_Health (stripePool [zeroVdev] "errors: No known data errors")
     = false
  /\ exists msg,
      checkPoolStatus (prints sampleStripe) = Err (errorString msg).
Proof.
  assert (H1 : parsePools sampleStripe
               = Val [stripePool [zeroVdev] "errors: No known data errors"])
    by (vm_compute; reflexivity).
  split; [exact H1|].
  apply (group_of_no_kind_fails_the_check
           sampleStripe _ _ zeroVdev H1 (or_introl eq_refl)
           (or_introl eq_refl) eq_refl).
Defined.

(** X6: the name of every pool that [parsePools] returns is one
    word, not empty; and a spare group has a name only: its line shows an
    empty state and the counters [(0|0|0)], and the lines of its disks
    show no counters. *)
Theorem parsed_names_and_spare_groups (zpoolStatus : string)
        (pools : list pool) (p : pool) :
  parsePools zpoolStatus = Val pools -> In p pools ->
  pool_name p <> "" /\ allChars notSpace (pool_name p) = true
  /\ forall v,
      In v (pool_vdevs p) -> vdev_typev v = vdevTypeSpare ->
      vdev_String v = "vdev " ++ vdev_name v ++ " -  (0|0|0)"
      /\ Forall (fun d => vdevDisk_String d
                          = "disk " ++ disk_name d ++ " - " ++ disk_state d
                            ++ ": " ++ disk_message d)
                (vdev_disks v).
Proof.
  intros H Hp.
  pose proof (parsePools_poolShape _ _ H) as S. rewrite Forall_forall in S.
  destruct (S p Hp) as (Hn & Hw & G). split; [exact Hn|]. split; [exact Hw|].
  intros v Hv Hk. rewrite Forall_forall in G. specialize (G v Hv).
  unfold groupShape in G. rewrite Hk in G.
  destruct G as (Es & Er & Ew & Ec & _). split.
  - unfold vdev_String. now rewrite Es, Er, Ew, Ec.
  - apply Forall_forall. intros d Hd. unfold vdevDisk_String.
    now rewrite (parsed_disk_typev _ _ _ _ _ H Hp Hv Hd), Hk.
Qed.

Lemma parsed_names_and_spare_groups_witness :
  parsePools sampleSpare = Val [sparePool] /\ In sparePool [sparePool]
  /\ pool_name sparePool <> ""
  /\ allChars notSpace (pool_name sparePool) = true
  /\ forall v,
      In v (pool_vdevs sparePool) -> vdev_typev v = vdevTypeSpare ->
      vdev_String v = "vdev " ++ vdev_name v ++ " -  (0|0|0)"
      /\ Forall (fun d => vdevDisk_String d
                          = "disk " ++ disk_name d ++ " - " ++ disk_state d
                            ++ ": " ++ disk_message d)
                (vdev_disks v).
Proof.
  assert (H1 : parsePools sampleSpare = Val [sparePool])
    by (vm_compute; reflexivity).
  assert (H2 : In sparePool [sparePool]) by (left; reflexivity).
  split; [exact H1|]. split; [exact H2|].
  exact (parsed_names_and_spare_groups sampleSpare [sparePool] sparePool
                                       H1 H2).
Defined.

(* ================================================================== *)
(** * The pools before the last one *)
(* ================================================================== *)

Lemma writes_name (p p' : pool) : writes p p' -> pool_name p' = pool_name p.
Proof.
  intros [p'' En _|v _|vs v d _ _]; [exact En|reflexivity|reflexivity].
Qed.

Lemma last_cases {A : Type} (l : list A) :
  l = [] \/ exists l' x, l = (l' ++ [x])%list.
Proof.
  induction l as [|x l _] using rev_ind; [now left|]. right. now exists l, x.
Qed.

Lemma feed_frame (c c' : config) (line : string) (ps qs : list pool)
      (p : pool) :
  feed c line = Val c' -> cfg_pools c = (ps ++ p :: qs)%list ->
  exists p' qs',
    cfg_pools c' = (ps ++ p' :: qs')%list /\ pool_name p' = pool_name p
    /\ (qs <> [] -> p' = p /\ qs' <> []).
Proof.
  intros F E.
  apply feed_writes in F as [->|[(name & _ & _ & ->)|
                                 (init & q & q' & E' & -> & W)]].
  - exists p, qs. now split.
  - exists p, (qs ++ [freshPool name])%list. rewrite E, <- app_assoc.
    split; [reflexivity|]. split; [reflexivity|]. intros _.
    split; [reflexivity|apply app_last_not_nil].
  - rewrite E in E'. destruct (last_cases qs) as [->|(qs0 & q0 & ->)].
    + apply app_inj_tail in E' as [<- <-]. exists q', [].
      split; [reflexivity|]. split; [now apply writes_name|].
      intros N. now contradiction N.
    + exists p, (qs0 ++ [q'])%list.
      change (ps ++ p :: qs0 ++ [q0])%list
        with (ps ++ (p :: qs0) ++ [q0])%list in E'.
      rewrite app_assoc in E'. apply app_inj_tail in E' as [<- _].
      rewrite <- app_assoc. split; [reflexivity|]. split; [reflexivity|].
      intros _. split; [reflexivity|apply app_last_not_nil].
Qed.

(** X7: the loop of [parsePools] writes to the last pool of the list
    only, and never to its name.  A pool of the list is still there after
    any further lines, at its place and under its name, with the pools
    before it unchanged; once another pool follows it, it does not change
    any more. *)
Theorem earlier_pools_are_kept (lines : list string) (c c' : config)
        (ps qs : list pool) (p : pool) :
  cfg_pools c = (ps ++ p :: qs)%list -> parseLines lines c = Val c' ->
  exists p' qs',
    cfg_pools c' = (ps ++ p' :: qs')%list /\ pool_name p' = pool_name p
    /\ (qs <> [] -> p' = p).
Proof.
  revert c p qs. induction lines as [|l lines IH]; intros c p qs E; simpl.
  - intros H; inversion H; subst. exists p, qs. now split.
  - destruct (feed c l) as [c1| |] eqn:F; try discriminate. intros H.
    destruct (feed_frame _ _ _ _ _ _ F E) as (p1 & qs1 & E1 & N1 & K1).
    destruct (IH c1 p1 qs1 E1 H) as (p' & qs' & E' & N' & K').
    exists p', qs'. split; [exact E'|]. split; [congruence|].
    intros Hq. destruct (K1 Hq) as [-> Hq1]. now apply K'.
Qed.

Lemma earlier_pools_are_kept_witness :
  cfg_pools afterScrub = ([] ++ scrubPool :: [])%list
  /\ parseLines ("" :: Bufio.tokens sampleStripe) afterScrub
     = Val afterStripe
  /\ exists p' qs',
      cfg_pools afterStripe = ([] ++ p' :: qs')%list
      /\ pool_name p' = pool_name scrubPool
      /\ (@nil pool <> [] -> p' = scrubPool).
Proof.
  assert (H1 : parseLines ("" :: Bufio.tokens sampleStripe)
                          afterScrub
               = Val afterStripe) by (vm_compute; reflexivity).
  split; [reflexivity|]. split; [exact H1|].
  exact (earlier_pools_are_kept _ afterScrub afterStripe [] [] scrubPool
                                eq_refl H1).
Defined.

(* ================================================================== *)
(** * The lines around the scan line *)
(* ================================================================== *)

Lemma three_tokens_skipped (pools : list pool) (st : zpoolParseState)
      (a : list string) (rest : list string) :
  List.length a = 3%nat ->
  parseLines (a ++ rest) (mkConfig pools st 3)
  = parseLines rest (mkConfig pools st 0).
Proof.
  destruct a as [|a1 [|a2 [|a3 [|a4 a]]]]; try discriminate.
  intros _. reflexivity.
Qed.

(** X8: the three lines after the scan line are taken from the
    scanner and never looked at: with any three other lines in their
    place the loop ends in the same way, with the same pools or the same
    error. *)
Theorem three_lines_after_scan_are_not_read (c : config) (line : string)
        (a b rest : list string) :
  cfg_state c = zpoolParseStatus -> cfg_skip c = O ->
  Strings.HasPrefix (Strings.TrimSpace line) "scan: " = true ->
  List.length a = 3%nat -> List.length b = 3%nat ->
  parseLines (line :: a ++ rest) c = parseLines (line :: b ++ rest) c.
Proof.
  intros Hst Hsk Hp Ha Hb. cbn [parseLines]. unfold feed.
  rewrite Hsk, Hst. cbn [parsePoolState]. rewrite Hp.
  destruct (caseScan (cfg_pools c) line) as [st| |] eqn:E; try reflexivity.
  apply onLast_Val in E as (init & p & p' & _ & _ & ->).
  cbn [newPool pools_after state_after scans].
  now rewrite !three_tokens_skipped.
Qed.

Lemma three_lines_after_scan_are_not_read_witness :
  cfg_state inStatus = zpoolParseStatus /\ cfg_skip inStatus = O
  /\ Strings.HasPrefix (Strings.TrimSpace scanLine) "scan: " = true
  /\ List.length tableHead = 3%nat /\ List.length threeOthers = 3%nat
  /\ parseLines (scanLine :: tableHead ++ tankTable) inStatus
     = parseLines (scanLine :: threeOthers ++ tankTable) inStatus.
Proof.
  repeat (split; [reflexivity|]).
  apply (three_lines_after_scan_are_not_read inStatus scanLine tableHead
           threeOthers tankTable); reflexivity.
Defined.

Lemma fmtSpace_unindented (c : ascii) (s : string) :
  Strings.isSpace c = false ->
  Fmt.fmtSpace (String c s) = inl Fmt.errExpectedSpace.
Proof. intros H. simpl. now rewrite H. Qed.

(** X9: every format of a pool line, a scan line and a table row
    begins with a space, which has to read at least one space of the
    line.  A line that begins with another character is a parse error in
    the Start state, in the Pool state, and as the scan line of the
    Status state; a text whose first line is such a line is refused by
    [parsePools]. *)
Theorem unindented_line_is_refused (pools : list pool) (p : pool)
        (c : ascii) (s : string) :
  Strings.isSpace c = false ->
  parsePoolState pools (String c s) zpoolParseStart
  = Err (parseError Fmt.errExpectedSpace (String c s))
  /\ parsePoolState (pools ++ [p]) (String c s) zpoolParsePool
     = Err (parseError Fmt.errExpectedSpace (String c s))
  /\ (Strings.HasPrefix (Strings.TrimSpace (String c s)) "scan: " = true ->
      parsePoolState (pools ++ [p]) (String c s) zpoolParseStatus
      = Err (parseError Fmt.errExpectedSpace (String c s)))
  /\ (forall zpoolStatus rest,
         Bufio.tokens zpoolStatus = String c s :: rest ->
         parsePools zpoolStatus
         = Err (parseError Fmt.errExpectedSpace (String c s))).
Proof.
  intros H.
  assert (S0 : forall ps,
             parsePoolState ps (String c s) zpoolParseStart
             = Err (parseError Fmt.errExpectedSpace (String c s))).
  { intros ps. cbn [parsePoolState].
    unfold Fmt.Sscanf, Fmt.format_pool, Fmt.bind.
    now rewrite (fmtSpace_unindented c s H). }
  split; [apply S0|]. split; [|split].
  - cbn [parsePoolState]. rewrite onLast_app.
    unfold Fmt.Sscanf, Fmt.format_row, Fmt.bind.
    now rewrite (fmtSpace_unindented c s H).
  - intros Hp. cbn [parsePoolState]. rewrite Hp. unfold caseScan.
    rewrite onLast_app. unfold Fmt.Sscanf, Fmt.format_scan, Fmt.bind.
    now rewrite (fmtSpace_unindented c s H).
  - intros t rest Ht. unfold parsePools. rewrite Ht.
    cbn [parseLines]. unfold feed. cbn [cfg_skip cfg_state cfg_pools start].
    now rewrite S0.
Qed.

Lemma unindented_line_is_refused_witness :
  Strings.isSpace "s" = false
  /\ parsePoolState [] bareScanLine zpoolParseStart
     = Err (parseError Fmt.errExpectedSpace bareScanLine)
  /\ parsePoolState ([] ++ [freshPool "tank"]) bareScanLine zpoolParsePool
     = Err (parseError Fmt.errExpectedSpace bareScanLine)
  /\ (Strings.HasPrefix (Strings.TrimSpace bareScanLine) "scan: " = true ->
      parsePoolState ([] ++ [freshPool "tank"]) bareScanLine zpoolParseStatus
      = Err (parseError Fmt.errExpectedSpace bareScanLine))
  /\ (forall zpoolStatus rest,
         Bufio.tokens zpoolStatus = bareScanLine :: rest ->
         parsePools zpoolStatus
         = Err (parseError Fmt.errExpectedSpace bareScanLine)).
Proof.
  split; [reflexivity|].
  apply (unindented_line_is_refused [] (freshPool "tank") "s"
           "can: none requested"). reflexivity.
Defined.

(* ================================================================== *)
(** * The errors of the parser *)
(* ================================================================== *)

Lemma onLast_Err (pools : list pool) (body : pool -> res pool)
      (next : zpoolParseState) (n : nat) (e : error) :
  onLast pools body next n = Err e ->
  exists init p, pools = (init ++ [p])%list /\ body p = Err e.
Proof.
  unfold onLast. destruct (splitLast pools) as [[init p]|] eqn:E;
    [|discriminate].
  destruct (body p) as [p'|e'|] eqn:B; try discriminate.
  intros H; inversion H; subst. exists init, p.
  split; [now apply splitLast_Some|exact B].
Qed.

(** The errors of one call of [parsePoolState]: a parse error with the
    line, or the mismatch of the row that repeats the pool. *)
Lemma parsePoolState_errors (pools : list pool) (line : string)
      (state : zpoolParseState) (e : error) :
  parsePoolState pools line state = Err e ->
  (exists cause, e = parseError cause line)
  \/ (exists name st r w x p,
         state = zpoolParsePool
         /\ Fmt.Sscanf line Fmt.format_row = inr (name, st, r, w, x)
         /\ (name <> pool_name p \/ st <> pool_state p)
         /\ e = mismatch name st p).
Proof.
  assert (Hscan : caseScan pools line = Err e ->
                  exists cause, e = parseError cause line).
  { intros H. apply onLast_Err in H as (init & p & _ & B).
    destruct (Fmt.Sscanf line Fmt.format_scan) as [c|]; inversion B.
    now exists c. }
  assert (Hvdev : caseVdev pools line = Err e ->
                  exists cause, e = parseError cause line).
  { intros H. apply onLast_Err in H as (init & p & _ & B).
    destruct (Strings.Contains line "mirror-"
              || Strings.Contains line "raidz").
    - destruct (Fmt.Sscanf line Fmt.format_row) as [c|[[[[a b] r] w] x]];
        inversion B. now exists c.
    - destruct (Strings.Contains line "spares"); [|discriminate].
      destruct (Fmt.Sscanf line Fmt.format_name) as [c|]; inversion B.
      now exists c. }
  destruct state; cbn [parsePoolState].
  - destruct (Fmt.Sscanf line Fmt.format_pool) as [c|]; [|discriminate].
    intros H; inversion H. left. now exists c.
  - destruct (Strings.HasPrefix (Strings.TrimSpace line) "scan: ");
      [intros H; left; now apply Hscan|].
    destruct (Strings.HasPrefix (Strings.TrimSpace line) "action: ");
      [discriminate|].
    destruct (Strings.HasPrefix (Strings.TrimSpace line) "status: ").
    { intros H. apply onLast_Err in H as (init & p & _ & B). discriminate. }
    destruct (Strings.HasPrefix (Strings.TrimSpace line) "state: ").
    { intros H. apply onLast_Err in H as (init & p & _ & B).
      destruct (Fmt.Sscanf (Strings.TrimSpace line) Fmt.format_state) as [c|];
        inversion B. left. now exists c. }
    intros H. apply onLast_Err in H as (init & p & _ & B). discriminate.
  - intros H; left; now apply Hscan.
  - intros H. apply onLast_Err in H as (init & p & _ & B).
    destruct (Fmt.Sscanf line Fmt.format_row) as [c|[[[[a b] r] w] x]] eqn:E.
    { inversion B. left. now exists c. }
    right. exists a, b, r, w, x, p. split; [reflexivity|].
    split; [reflexivity|]. unfold mismatch.
    destruct (String.eqb_spec a (pool_name p)) as [Ea|Na]; cbn [negb] in B.
    + destruct (String.eqb_spec b (pool_state p)) as [Eb|Nb]; cbn [negb] in B;
        [discriminate|]. inversion B. split; [now right|reflexivity].
    + inversion B. split; [now left|reflexivity].
  - intros H; left; now apply Hvdev.
  - destruct (negb (MatchString diskRe line)).
    + destruct (String.length (Strings.TrimSpace line) =? 0)%nat;
        [discriminate|]. intros H; left; now apply Hvdev.
    + intros H. apply onLast_Err in H as (init & p & _ & B).
      destruct (splitLast (pool_vdevs p)) as [[vs v]|]; [|discriminate].
      unfold diskFields in B. left. destruct (vdev_typev v).
      * discriminate.
      * destruct (Fmt.Sscanf line Fmt.format_row) as [c|[[[[a b] r] w] x]];
          inversion B. now exists c.
      * destruct (Fmt.Sscanf line Fmt.format_spare) as [c|[a b]];
          inversion B. now exists c.
  - destruct (String.length (Strings.TrimSpace line) =? 0)%nat;
      [discriminate|].
    intros H. apply onLast_Err in H as (init & p & _ & B).
    destruct (pool_errors p =? "")%string; discriminate.
Qed.

Lemma parseLines_errors (lines : list string) :
  forall c e,
    parseLines lines c = Err e ->
    exists line,
      In line lines
      /\ ((exists cause, e = parseError cause line)
          \/ (exists name st r w x p,
                 Fmt.Sscanf line Fmt.format_row = inr (name, st, r, w, x)
                 /\ (name <> pool_name p \/ st <> pool_state p)
                 /\ e = mismatch name st p)).
Proof.
  induction lines as [|l lines IH]; intros c e H; [discriminate|].
  cbn [parseLines] in H. destruct (feed c l) as [c1|e1|] eqn:F;
    try discriminate.
  - destruct (IH _ _ H) as (line & Hin & Hl). exists line.
    split; [now right|exact Hl].
  - inversion H; subst. exists l. split; [now left|].
    unfold feed in F. destruct (cfg_skip c); [|discriminate].
    destruct (parsePoolState (cfg_pools c) l (cfg_state c)) as [st|e2|] eqn:P;
      try discriminate.
    inversion F; subst.
    apply parsePoolState_errors in P
      as [C|(name & st & r & w & x & p & _ & E & N & M)]; [now left|].
    right. now exists name, st, r, w, x, p.
Qed.

(** X10: every error of [parsePools] comes from one line of
    the text: it is a parse error that carries that line and the error of
    [Sscanf] on it, or it is the error of the row that repeats the pool
    under another name or state. *)
Theorem parser_errors (zpoolStatus : string) (e : error) :
  parsePools zpoolStatus = Err e ->
  exists line,
    In line (Bufio.tokens zpoolStatus)
    /\ ((exists cause, e = parseError cause line)
        \/ (exists name st r w x p,
               Fmt.Sscanf line Fmt.format_row = inr (name, st, r, w, x)
               /\ (name <> pool_name p \/ st <> pool_state p)
               /\ e = mismatch name st p)).
Proof.
  unfold parsePools.
  destruct (parseLines (Bufio.tokens zpoolStatus) start) as [c|e'|] eqn:E;
    try discriminate.
  intros H; inversion H; subst. eapply parseLines_errors; eauto.
Qed.

Lemma parser_errors_witness :
  parsePools sampleMismatch
  = Err (errorString "expected pool state DEGRADED to match state ONLINE")
  /\ exists line,
      In line (Bufio.tokens sampleMismatch)
      /\ ((exists cause,
              errorString "expected pool state DEGRADED to match state ONLINE"
              = parseError cause line)
          \/ (exists name st r w x p,
                 Fmt.Sscanf line Fmt.format_row = inr (name, st, r, w, x)
                 /\ (name <> pool_name p \/ st <> pool_state p)
                 /\ errorString
                      "expected pool state DEGRADED to match state ONLINE"
                    = mismatch name st p)).
Proof.
  assert (H1 : parsePools sampleMismatch
               = Err (errorString
                        "expected pool state DEGRADED to match state ONLINE"))
    by (vm_compute; reflexivity).
  split; [exact H1|]. exact (parser_errors sampleMismatch _ H1).
Defined.

(* ================================================================== *)
(** * A note after the counters of a disk row *)
(* ================================================================== *)








(* ================================================================== *)
(** * A text in the layout of [zpool status] *)
(* ================================================================== *)

Lemma healthy_pools_pass (zpoolStatus : string) (pools : list pool) :
  parsePools zpoolStatus = Val pools -> forallb pool_Health pools = true ->
  checkPoolStatus (prints zpoolStatus) = Val tt.
Proof.
  intros P H. unfold checkPoolStatus, prints. rewrite P. apply verdict_nil.
  rewrite (parsed_pools_errs _ _ P). apply flat_map_eq_nil.
  intros p Hp. apply structuralLines_nil.
  rewrite forallb_forall in H. now apply H.
Qed.

(** The pool while its disks are read: one group [g] with the disks
    [ds]. *)
Lemma disk_rows_read (name scan g : string) (rows : list string) :
  Forall diskLine rows ->
  forall ds rest,
    exists ds',
      Forall (fun d => vdevDisk_Healthy d = true) ds'
      /\ List.length ds' = List.length rows
      /\ parseLines (rows ++ rest)
           (mkConfig [mkPool name "ONLINE" "" scan 0 0 0
                             [mkVdev g "ONLINE" vdevTypeRaidz ds 0 0 0] ""]
                     zpoolParseDisk 0)
         = parseLines rest
             (mkConfig [mkPool name "ONLINE" "" scan 0 0 0
                               [mkVdev g "ONLINE" vdevTypeRaidz (ds ++ ds')
                                       0 0 0] ""]
                       zpoolParseDisk 0).
Proof.
  induction rows as [|row rows IH]; intros Hrows ds rest.
  - exists []. split; [constructor|]. split; [reflexivity|].
    now rewrite app_nil_r.
  - inversion Hrows as [|? ? (Hm & (d & Hd) & Hn) Hrest]; subst.
    destruct (IH Hrest (ds ++ [mkDisk vdevTypeRaidz d "ONLINE" 0 0 0 ""])%list
                 rest) as (ds' & Hh & Hl & E).
    exists (mkDisk vdevTypeRaidz d "ONLINE" 0 0 0 "" :: ds').
    split; [constructor; [reflexivity|exact Hh]|].
    split; [simpl; now rewrite Hl|].
    cbn [app parseLines]. unfold feed.
    cbn [cfg_skip cfg_state cfg_pools parsePoolState]. rewrite Hm.
    cbn [negb]. unfold caseDiskRow.
    change [mkPool name "ONLINE" "" scan 0 0 0
                   [mkVdev g "ONLINE" vdevTypeRaidz ds 0 0 0] ""]
      with ([] ++ [mkPool name "ONLINE" "" scan 0 0 0
                          [mkVdev g "ONLINE" vdevTypeRaidz ds 0 0 0] ""])%list.
    rewrite onLast_app.
    cbn [pool_vdevs splitLast]. unfold diskFields. cbn [vdev_typev].
    unfold onlineRow in Hd. rewrite Hd, Hn.
    unfold set_pool_vdevs, set_vdev_disks.
    cbn [List.length Nat.ltb Nat.leb newPool pools_after state_after scans
         app pool_name pool_state pool_status
         pool_scanStatus pool_read pool_write pool_checksum pool_errors
         vdev_name vdev_state vdev_typev vdev_disks vdev_read vdev_write
         vdev_checksum].
    rewrite E. now rewrite <- app_assoc.
Qed.

(** X22: a text in the layout of [zpool status] for one pool passes the
    check: after the line of the pool, the line of its state [ONLINE] and
    the scan line, whatever the scan line says and whatever the three
    lines after it are, a row that repeats the pool, the row of a mirror
    or raidz group and the rows of any number of disks, all [ONLINE] with
    zero counters and without a note, then an empty line and the line
    [errors: No known data errors]. *)
Theorem standard_text_passes (zpoolStatus l1 l2 l3 l7 l8 blankLine : string)
        (skipped rows : list string) (name : string) :
  Bufio.tokens zpoolStatus
  = standardLines l1 l2 l3 skipped l7 l8 rows blankLine ->
  poolLine l1 name -> stateLine l2 -> scanLineOf l3 ->
  List.length skipped = 3%nat ->
  onlineRow l7 name -> groupLine l8 -> Forall diskLine rows ->
  emptyLine blankLine ->
  (exists p, parsePools zpoolStatus = Val [p] /\ pool_name p = name
             /\ List.length (flat_map vdev_disks (pool_vdevs p))
                = List.length rows)
  /\ checkPoolStatus (prints zpoolStatus) = Val tt.
Proof.
  intros Htok H1 (S1 & S2 & S3 & S4 & S5) (Hscan & w & Hw) Hskip H7
         (Hg & g & H8) Hrows (B1 & B2).
  destruct (disk_rows_read name w g rows Hrows [] [blankLine; noErrors])
    as (ds & Hh & Hl & E).
  assert (P : parsePools zpoolStatus
              = Val [mkPool name "ONLINE" "" w 0 0 0
                            [mkVdev g "ONLINE" vdevTypeRaidz ds 0 0 0]
                            noErrors]).
  { unfold parsePools. rewrite Htok. unfold standardLines.
    cbn [parseLines]. unfold feed at 1.
    cbn [cfg_skip cfg_state cfg_pools start parsePoolState].
    unfold poolLine in H1. rewrite H1.
    cbn [newPool pools_after state_after scans app].
    unfold feed at 1. cbn [cfg_skip cfg_state cfg_pools parsePoolState].
    rewrite S1, S2, S3, S4, S5. unfold onLast at 1.
    unfold set_pool_state.
    cbn [splitLast app pool_name pool_state pool_status
         pool_scanStatus pool_read pool_write pool_checksum pool_vdevs
         pool_errors newPool pools_after state_after scans].
    unfold feed at 1. cbn [cfg_skip cfg_state cfg_pools parsePoolState].
    rewrite Hscan. unfold caseScan, onLast at 1.
    cbn [splitLast]. rewrite Hw.
    unfold set_pool_scanStatus.
    cbn [app pool_name pool_state pool_status
         pool_scanStatus pool_read pool_write pool_checksum pool_vdevs
         pool_errors newPool pools_after state_after scans].
    rewrite three_tokens_skipped; [|exact Hskip].
    cbn [parseLines]. unfold feed at 1.
    cbn [cfg_skip cfg_state cfg_pools parsePoolState]. unfold onLast at 1.
    cbn [splitLast]. unfold onlineRow in H7, H8. rewrite H7.
    cbn [pool_name pool_state]. rewrite !String.eqb_refl.
    unfold set_pool_counters.
    cbn [negb app pool_name pool_state pool_status
         pool_scanStatus pool_read pool_write pool_checksum pool_vdevs
         pool_errors newPool pools_after state_after scans].
    unfold feed at 1. cbn [cfg_skip cfg_state cfg_pools parsePoolState].
    unfold caseVdev, onLast at 1. cbn [splitLast]. rewrite Hg, H8.
    unfold set_pool_vdevs.
    cbn [app pool_name pool_state pool_status
         pool_scanStatus pool_read pool_write pool_checksum pool_vdevs
         pool_errors newPool pools_after state_after scans].
    rewrite E. cbn [app parseLines]. unfold feed at 1.
    cbn [cfg_skip cfg_state cfg_pools parsePoolState]. rewrite B1, B2.
    cbn [negb newPool pools_after state_after scans].
    unfold feed at 1. cbn [cfg_skip cfg_state cfg_pools parsePoolState].
    reflexivity. }
  split.
  - eexists. split; [exact P|]. split; [reflexivity|].
    cbn [pool_vdevs flat_map vdev_disks]. now rewrite app_nil_r.
  - apply (healthy_pools_pass _ _ P).
    cbn [forallb]. rewrite andb_true_r, pool_Health_forallb.
    cbn [pool_vdevs forallb]. rewrite vdev_Healthy_forallb.
    cbn [vdev_disks]. rewrite (proj2 (forallb_forall _ _));
      [reflexivity|]. now apply Forall_forall.
Qed.

Lemma standard_text_passes_witness :
  Bufio.tokens sampleScrub
  = standardLines "  pool: tank" " state: ONLINE" ("  scan: " ++ scrubText)
                  tableHead tankRow mirrorRow scrubRows ""
  /\ poolLine "  pool: tank" "tank" /\ stateLine " state: ONLINE"
  /\ scanLineOf ("  scan: " ++ scrubText)
  /\ List.length tableHead = 3%nat
  /\ onlineRow tankRow "tank" /\ groupLine mirrorRow
  /\ Forall diskLine scrubRows /\ emptyLine ""
  /\ (exists p, parsePools sampleScrub = Val [p] /\ pool_name p = "tank"
                 /\ List.length (flat_map vdev_disks (pool_vdevs p))
                    = List.length scrubRows)
  /\ checkPoolStatus (prints sampleScrub) = Val tt.
Proof.
  assert (H0 : Bufio.tokens sampleScrub
               = standardLines "  pool: tank" " state: ONLINE"
                               ("  scan: " ++ scrubText) tableHead tankRow
                               mirrorRow scrubRows "")
    by (vm_compute; reflexivity).
  assert (H1 : poolLine "  pool: tank" "tank") by (vm_compute; reflexivity).
  assert (H2 : stateLine " state: ONLINE")
    by (repeat split; vm_compute; reflexivity).
  assert (H3 : scanLineOf ("  scan: " ++ scrubText))
    by (split; [vm_compute; reflexivity
               |exists "scrub"; vm_compute; reflexivity]).
  assert (H4 : List.length tableHead = 3%nat) by reflexivity.
  assert (H5 : onlineRow tankRow "tank") by (vm_compute; reflexivity).
  assert (H6 : groupLine mirrorRow)
    by (split; [vm_compute; reflexivity
               |exists "mirror-0"; vm_compute; reflexivity]).
  assert (H7 : Forall diskLine scrubRows).
  { repeat constructor; try (vm_compute; reflexivity).
    - exists "e43d41b6-adcc-11e5-b06a-d43d7ef79ff0". vm_compute. reflexivity.
    - exists "e4a31d4c-adcc-11e5-b06a-d43d7ef79ff0". vm_compute. reflexivity. }
  assert (H8 : emptyLine "") by (split; vm_compute; reflexivity).
  repeat (split; [assumption|]).
  exact (standard_text_passes sampleScrub _ _ _ _ _ _ _ _ "tank"
                              H0 H1 H2 H3 H4 H5 H6 H7 H8).
Defined.

(* ================================================================== *)
(** * The ages on every return of the analyzer *)
(* ================================================================== *)

(** From [(o, y)] to [(o', y')]: [oldest] did not go down, [youngest]
    did not go up, and they are what they were or [youngest] is at most
    [oldest]. *)
Lemma ages_step_trans (o y o1 y1 o2 y2 : Z) :
  o <= o1 /\ y1 <= y /\ ((o1 = o /\ y1 = y) \/ y1 <= o1) ->
  o1 <= o2 /\ y2 <= y1 /\ ((o2 = o1 /\ y2 = y1) \/ y2 <= o2) ->
  o <= o2 /\ y2 <= y /\ ((o2 = o /\ y2 = y) \/ y2 <= o2).
Proof. lia. Qed.

Lemma smartRows_ages (ms : list (list string)) :
  forall j vs,
    match smartRows ms j vs with
    | inl (_, o', y') =>
        oldest vs <= o' /\ y' <= youngest vs
        /\ ((o' = oldest vs /\ y' = youngest vs) \/ y' <= o')
    | inr vs' =>
        oldest vs <= oldest vs' /\ youngest vs' <= youngest vs
        /\ ((oldest vs' = oldest vs /\ youngest vs' = youngest vs)
            \/ youngest vs' <= oldest vs')
    end.
Proof.
  induction ms as [|m ms IH]; intros j vs; cbn [smartRows].
  - lia.
  - set (vs1 := if negb (nth 1 m "" =? "Completed without error")%string
                then mkVars (fails vs + 1) (nth 1 m "") (oldest vs)
                            (youngest vs)
                else vs).
    assert (E1 : oldest vs1 = oldest vs /\ youngest vs1 = youngest vs).
    { unfold vs1.
      destruct (negb (nth 1 m "" =? "Completed without error")%string);
        now split. }
    destruct E1 as [Eo Ey].
    destruct (Atoi (nth 2 m "")) as [err|age]; [lia|].
    match goal with
    | |- context [smartRows ms (S j) ?w] =>
        specialize (IH (S j) w); set (w1 := w) in *
    end.
    assert (S1 : oldest vs <= oldest w1 /\ youngest w1 <= youngest vs
                 /\ ((oldest w1 = oldest vs /\ youngest w1 = youngest vs)
                     \/ youngest w1 <= oldest w1)).
    { unfold w1. cbn [oldest youngest]. rewrite Eo, Ey.
      destruct ((j =? 0)%nat); cbn [andb]; [|lia].
      destruct (Z.gtb_spec age (oldest vs));
        destruct (Z.ltb_spec age (youngest vs)); lia. }
    destruct (smartRows ms (S j) w1) as [[[err o'] y']|vs'];
      eapply ages_step_trans; eauto.
Qed.

Lemma smartDisks_ages_range (e : executer) (ds : list string) :
  forall o y,
    let '(_, o', y') := smartDisks e ds o y in
    o <= o' /\ y' <= y /\ ((o' = o /\ y' = y) \/ y' <= o').
Proof.
  induction ds as [|disk ds IH]; intros o y; cbn [smartDisks].
  - lia.
  - destruct (e "/sbin/smartctl" ["-l"; "selftest"; "/dev/" ++ disk])
      as [err|status]; [lia|].
    pose proof (smartRows_ages (FindAllStringSubmatch smartRe status) 0
                               (mkVars 0 "" o y)) as R.
    destruct (smartRows (FindAllStringSubmatch smartRe status) 0
                        (mkVars 0 "" o y)) as [[[err o1] y1]|vs];
      cbn [oldest youngest] in R; [exact R|].
    destruct (overThreshold (fails vs)
                (List.length (FindAllStringSubmatch smartRe status)));
      [exact R|].
    specialize (IH (oldest vs) (youngest vs)).
    destruct (smartDisks e ds (oldest vs) (youngest vs)) as [[r o'] y'].
    eapply ages_step_trans; eauto.
Qed.

(** X12: on every return of [checkSmartStatus], with or without an
    error, [oldest] is not negative and [youngest] is at most
    [math.MaxInt32]; and either they are still [0] and [math.MaxInt32],
    as before the first row of the first log, or [youngest <= oldest]. *)
Theorem ages_on_every_return (e : executer) :
  let '(_, o, y) := checkSmartStatus e in
  0 <= o /\ y <= MaxInt32 /\ ((o = 0 /\ y = MaxInt32) \/ y <= o).
Proof. unfold checkSmartStatus. apply smartDisks_ages_range. Qed.

(* ================================================================== *)
(** * The errors of the analyzer *)
(* ================================================================== *)

Lemma digitsValue_digits (s : string) :
  allChars Strings.isDigit s = true ->
  forall acc, exists v, Fmt.digitsValue acc s = Some v.
Proof.
  induction s as [|c s IH]; intros H acc; cbn [Fmt.digitsValue].
  - now exists acc.
  - simpl in H. apply andb_true_iff in H as [Hc Hs]. rewrite Hc.
    now apply IH.
Qed.

(** [Atoi] of a text of digits fails with a range error only. *)
Lemma Atoi_digits_error (x : ascii) (w : string) (err : error) :
  allChars Strings.isDigit (String x w) = true ->
  Atoi (String x w) = inl err ->
  err = numError (String x w) Fmt.errRange.
Proof.
  intros Hd H. unfold Atoi in H.
  assert (Hx : Strings.isDigit x = true).
  { simpl in Hd. now apply andb_true_iff in Hd as [Hx _]. }
  rewrite (digit_not_sign x Hx) in H. unfold Fmt.ParseInt in H.
  destruct (digitsValue_digits _ Hd 0) as [v E]. rewrite E in H.
  destruct ((Fmt.minInt64 <=? v) && (v <=? Fmt.maxInt64));
    inversion H; reflexivity.
Qed.

Lemma smartRows_error (ms : list (list string)) :
  (forall m, In m ms ->
             exists x w, nth 2 m "" = String x w
                         /\ allChars Strings.isDigit (String x w) = true) ->
  forall j vs err o y,
    smartRows ms j vs = inl (err, o, y) ->
    exists num, err = numError num Fmt.errRange.
Proof.
  induction ms as [|m ms IH]; intros Hd j vs err o y H; cbn [smartRows] in H;
    [discriminate|].
  destruct (Hd m (or_introl eq_refl)) as (x & w & En & Hw).
  destruct (Atoi (nth 2 m "")) as [err'|age] eqn:Ea.
  - inversion H; subst. rewrite En in Ea.
    exists (String x w). eapply Atoi_digits_error; eauto.
  - eapply IH; [|exact H]. intros m' Hm'. apply Hd. now right.
Qed.

(** X13: the errors of [checkSmartStatus] are of three kinds: the
    error of the executer for one of the disks, the error of [Atoi] for
    hours that do not fit in an [int], and the error that names a disk
    over the threshold.  The hours of a row are digits, so that [Atoi]
    does not fail on their syntax. *)
Theorem analyzer_errors (e : executer) (err : error) (o y : Z) :
  checkSmartStatus e = (Some err, o, y) ->
  (exists disk, In disk disks /\ selftest e disk = inl err)
  \/ (exists num, err = numError num Fmt.errRange)
  \/ (exists disk msg,
         In disk disks
         /\ err = errorString ("smart error: disk " ++ disk ++ ": " ++ msg)).
Proof.
  unfold checkSmartStatus. generalize 0 MaxInt32.
  induction disks as [|disk ds IH]; intros o0 y0 H; cbn [smartDisks] in H;
    [discriminate|].
  destruct (e "/sbin/smartctl" ["-l"; "selftest"; "/dev/" ++ disk])
    as [err'|status] eqn:Ee.
  { inversion H; subst. left. exists disk. split; [now left|exact Ee]. }
  destruct (smartRows (FindAllStringSubmatch smartRe status) 0
                      (mkVars 0 "" o0 y0)) as [[[err' o1] y1]|vs] eqn:Er.
  { inversion H; subst. right. left.
    eapply smartRows_error; [|exact Er].
    intros m Hm. now apply (smartRe_hours_digits status). }
  destruct (overThreshold (fails vs)
              (List.length (FindAllStringSubmatch smartRe status))).
  { inversion H; subst. right. right. exists disk, (latestFail vs).
    split; [now left|reflexivity]. }
  destruct (IH _ _ H) as [(d & Hd & E)|[N|(d & msg & Hd & E)]].
  - left. exists d. split; [now right|exact E].
  - right. now left.
  - right. right. exists d, msg. split; [now right|exact E].
Qed.

Lemma analyzer_errors_witness :
  checkSmartStatus (prints sampleOverflow)
  = (Some (numError "99999999999999999999" Fmt.errRange), 0, 2147483647)
  /\ ((exists disk,
          In disk disks
          /\ selftest (prints sampleOverflow) disk
             = inl (numError "99999999999999999999" Fmt.errRange))
      \/ (exists num,
             numError "99999999999999999999" Fmt.errRange
             = numError num Fmt.errRange)
      \/ (exists disk msg,
             In disk disks
             /\ numError "99999999999999999999" Fmt.errRange
                = errorString ("smart error: disk " ++ disk ++ ": " ++ msg))).
Proof.
  assert (H1 : checkSmartStatus (prints sampleOverflow)
               = (Some (numError "99999999999999999999" Fmt.errRange),
                  0, 2147483647)) by (vm_compute; reflexivity).
  split; [exact H1|].
  exact (analyzer_errors (prints sampleOverflow) _ _ _ H1).
Defined.

(* ================================================================== *)
(** * What a successful return of the analyzer says *)
(* ================================================================== *)

Lemma smartDisks_success (e : executer) (ds : list string) :
  forall o y o' y',
    smartDisks e ds o y = (None, o', y') ->
    forall disk,
      In disk ds ->
      exists status,
        selftest e disk = inr status
        /\ overThreshold (Z.of_nat (failedRows e disk))
                         (List.length (rowsOf e disk)) = false.
Proof.
  induction ds as [|d ds IH]; intros o y o' y' H disk Hd; [destruct Hd|].
  cbn [smartDisks] in H.
  destruct (e "/sbin/smartctl" ["-l"; "selftest"; "/dev/" ++ d])
    as [err|status] eqn:Ee; [discriminate|].
  destruct (smartRows (FindAllStringSubmatch smartRe status) 0
                      (mkVars 0 "" o y)) as [[[err o1] y1]|vs] eqn:Er;
    [discriminate|].
  destruct (overThreshold (fails vs)
              (List.length (FindAllStringSubmatch smartRe status))) eqn:Eo;
    [discriminate|].
  destruct Hd as [<-|Hd]; [|eapply IH; eauto].
  exists status. split; [exact Ee|].
  unfold failedRows, rowsOf, selftest. rewrite Ee.
  apply smartRows_latestFail in Er as [_ Ef]. cbn [fails] in Ef.
  now rewrite Ef in Eo.
Qed.

(** X14: when [checkSmartStatus] returns nil, the executer
    answered for each of the six disks, and on each log the number of
    rows whose outcome is not [Completed without error], divided by the
    number of rows, is under the threshold. *)
Theorem success_means_every_disk_passed (e : executer) (o y : Z)
        (disk : string) :
  checkSmartStatus e = (None, o, y) -> In disk disks ->
  exists status,
    selftest e disk = inr status
    /\ overThreshold (Z.of_nat (failedRows e disk))
                     (List.length (rowsOf e disk)) = false.
Proof.
  unfold checkSmartStatus. intros H Hd. eapply smartDisks_success; eauto.
Qed.

Lemma success_means_every_disk_passed_witness :
  checkSmartStatus twoAges = (None, 35064, 12000) /\ In "sdb" disks
  /\ exists status,
      selftest twoAges "sdb" = inr status
      /\ overThreshold (Z.of_nat (failedRows twoAges "sdb"))
                       (List.length (rowsOf twoAges "sdb")) = false.
Proof.
  assert (H1 : checkSmartStatus twoAges = (None, 35064, 12000))
    by (vm_compute; reflexivity).
  assert (H2 : In "sdb" disks) by (right; left; reflexivity).
  split; [exact H1|]. split; [exact H2|].
  exact (success_means_every_disk_passed twoAges _ _ "sdb" H1 H2).
Defined.

(** No failure is under the threshold, for any number of rows: [0/0] is
    a NaN, and [0/n] is a zero. *)
Lemma no_failure_under_threshold (rows : nat) : overThreshold 0 rows = false.
Proof.
  unfold overThreshold.
  change (Float32.of_int 0) with (S754_zero false).
  destruct (Float32.of_int (Z.of_nat rows)) as [s|s| |s m x]; try reflexivity;
    destruct s; reflexivity.
Qed.

Lemma smartRows_no_failure (ms : list (list string)) :
  forallb (fun m => negb (failed m)) ms = true ->
  forall j vs vs', smartRows ms j vs = inr vs' -> fails vs' = fails vs.
Proof.
  intros Hp j vs vs' H. apply smartRows_latestFail in H as [_ H].
  rewrite H. replace (filter failed ms) with (@nil (list string)).
  - simpl. lia.
  - symmetry. clear H. induction ms as [|m ms IH]; [reflexivity|].
    cbn [forallb] in Hp. apply andb_true_iff in Hp as [Hm Hp].
    cbn [filter]. apply negb_true_iff in Hm. rewrite Hm. now apply IH.
Qed.

Lemma smartDisks_no_failure (e : executer) (ds : list string) :
  (forall disk,
      In disk ds ->
      exists status,
        selftest e disk = inr status
        /\ forallb (fun m => negb (failed m))
                   (FindAllStringSubmatch smartRe status) = true) ->
  forall o y,
    exists o' y',
      smartDisks e ds o y = (None, o', y')
      \/ exists num,
          smartDisks e ds o y = (Some (numError num Fmt.errRange), o', y').
Proof.
  induction ds as [|d ds IH]; intros Hall o y; cbn [smartDisks].
  - exists o, y. now left.
  - destruct (Hall d (or_introl eq_refl)) as (status & Ee & Hp).
    unfold selftest in Ee. rewrite Ee.
    destruct (smartRows (FindAllStringSubmatch smartRe status) 0
                        (mkVars 0 "" o y)) as [[[err o1] y1]|vs] eqn:Er.
    + exists o1, y1. right.
      destruct (smartRows_error _ (smartRe_hours_digits status) _ _ _ _ _ Er)
        as [num ->].
      now exists num.
    + rewrite (smartRows_no_failure _ Hp _ _ _ Er). cbn [fails].
      rewrite no_failure_under_threshold.
      apply IH. intros disk Hd. apply Hall. now right.
Qed.

(** X15: logs in which every row is [Completed without error] never
    put a disk over the threshold, however many rows they have: the
    analyzer returns nil, unless the hours of a row do not fit in an
    [int]. *)
Theorem logs_without_failures_pass (e : executer) :
  (forall disk,
      In disk disks ->
      exists status,
        selftest e disk = inr status
        /\ forallb (fun m => negb (failed m))
                   (FindAllStringSubmatch smartRe status) = true) ->
  exists o y,
    checkSmartStatus e = (None, o, y)
    \/ exists num,
        checkSmartStatus e = (Some (numError num Fmt.errRange), o, y).
Proof. intros H. unfold checkSmartStatus. now apply smartDisks_no_failure. Qed.

Lemma logs_without_failures_pass_witness :
  (forall disk,
      In disk disks ->
      exists status,
        selftest twoAges disk = inr status
        /\ forallb (fun m => negb (failed m))
                   (FindAllStringSubmatch smartRe status) = true)
  /\ exists o y,
      checkSmartStatus twoAges = (None, o, y)
      \/ exists num,
          checkSmartStatus twoAges
          = (Some (numError num Fmt.errRange), o, y).
Proof.
  assert (H : forall disk,
             In disk disks ->
             exists status,
               selftest twoAges disk = inr status
               /\ forallb (fun m => negb (failed m))
                          (FindAllStringSubmatch smartRe status) = true).
  { intros disk [<-|[<-|[<-|[<-|[<-|[<-|[]]]]]]];
      eexists; (split; [reflexivity|vm_compute; reflexivity]). }
  split; [exact H|]. exact (logs_without_failures_pass twoAges H).
Defined.

(* ================================================================== *)
(** * The disks after the first failure *)
(* ================================================================== *)

Lemma smartDisks_same_answers (e e' : executer) (ds : list string) :
  (forall disk, In disk ds -> selftest e' disk = selftest e disk) ->
  forall o y, smartDisks e' ds o y = smartDisks e ds o y.
Proof.
  induction ds as [|d ds IH]; intros H o y; [reflexivity|].
  cbn [smartDisks]. pose proof (H d (or_introl eq_refl)) as Hd.
  unfold selftest in Hd. rewrite Hd.
  destruct (e "/sbin/smartctl" ["-l"; "selftest"; "/dev/" ++ d])
    as [err|status]; [reflexivity|].
  destruct (smartRows (FindAllStringSubmatch smartRe status) 0
                      (mkVars 0 "" o y)) as [[[err o1] y1]|vs];
    [reflexivity|].
  destruct (overThreshold (fails vs)
              (List.length (FindAllStringSubmatch smartRe status)));
    [reflexivity|].
  apply IH. intros disk Hin. apply H. now right.
Qed.

Lemma smartDisks_failed_prefix (e : executer) (ds1 ds2 : list string) :
  forall o y err o' y',
    smartDisks e ds1 o y = (Some err, o', y') ->
    smartDisks e (ds1 ++ ds2) o y = (Some err, o', y').
Proof.
  induction ds1 as [|d ds1 IH]; intros o y err o' y' H; [discriminate|].
  cbn [smartDisks app] in *.
  destruct (e "/sbin/smartctl" ["-l"; "selftest"; "/dev/" ++ d])
    as [err1|status]; [exact H|].
  destruct (smartRows (FindAllStringSubmatch smartRe status) 0
                      (mkVars 0 "" o y)) as [[[err1 o1] y1]|vs]; [exact H|].
  destruct (overThreshold (fails vs)
              (List.length (FindAllStringSubmatch smartRe status)));
    [exact H|].
  now apply IH.
Qed.

(** X16: the analyzer stops at the first disk that fails, whatever
    the failure is.  When the loop fails within the first [k] disks, that
    error and those ages are the result of [checkSmartStatus], and they
    are the result for every executer that answers alike for these [k]
    disks: the answers for the disks after them are not used. *)
Theorem first_failure_decides (e e' : executer) (k : nat) (err : error)
        (o y : Z) :
  smartDisks e (firstn k disks) 0 MaxInt32 = (Some err, o, y) ->
  (forall disk,
      In disk (firstn k disks) -> selftest e' disk = selftest e disk) ->
  checkSmartStatus e = (Some err, o, y)
  /\ checkSmartStatus e' = (Some err, o, y).
Proof.
  intros H Hsame. unfold checkSmartStatus.
  assert (E : disks = (firstn k disks ++ skipn k disks)%list)
    by (symmetry; apply firstn_skipn).
  split; rewrite E.
  - now apply smartDisks_failed_prefix.
  - apply smartDisks_failed_prefix.
    now rewrite (smartDisks_same_answers e e' _ Hsame).
Qed.

Lemma first_failure_decides_witness :
  smartDisks failsAtSde (firstn 5 disks) 0 MaxInt32
  = (Some (errorString "smart error: disk sde: foobarted without error"),
     35064, 35064)
  /\ (forall disk,
         In disk (firstn 5 disks) ->
         selftest noSdf disk = selftest failsAtSde disk)
  /\ checkSmartStatus failsAtSde
     = (Some (errorString "smart error: disk sde: foobarted without error"),
        35064, 35064)
  /\ checkSmartStatus noSdf
     = (Some (errorString "smart error: disk sde: foobarted without error"),
        35064, 35064).
Proof.
  assert (H1 : smartDisks failsAtSde (firstn 5 disks) 0 MaxInt32
               = (Some (errorString
                          "smart error: disk sde: foobarted without error"),
                  35064, 35064)) by (vm_compute; reflexivity).
  assert (H2 : forall disk,
             In disk (firstn 5 disks) ->
             selftest noSdf disk = selftest failsAtSde disk).
  { intros disk [<-|[<-|[<-|[<-|[<-|[]]]]]]; reflexivity. }
  split; [exact H1|]. split; [exact H2|].
  exact (first_failure_decides failsAtSde noSdf 5 _ _ _ H1 H2).
Defined.


(* ================================================================== *)
(** * Outputs of [smartctl] without a row *)
(* ================================================================== *)

Lemma smartRe_needs_a_hash (status : string) :
  Strings.Contains status "#" = false ->
  FindAllStringSubmatch smartRe status = [].
Proof.
  intros H. unfold FindAllStringSubmatch. cbn [findAll].
  change (expr smartRe)
    with (Seq (Lit "#")
              (cat [s_star; d_plus; s_star;
                    Plus false (Class class_dot);
                    Class class_s; Class class_s; s_star;
                    Group 1 (Plus false (Class class_dot));
                    s_star; w_star; Lit "00%"; s_star;
                    Group 2 d_plus])).
  now rewrite (search_without_literal "#" _ status 0 H).
Qed.

(** X18: a row of a self-test log begins with [#].  An output of
    [smartctl] without this character has no row, whatever else it says,
    and the disk passes; when this is so for the six disks,
    [checkSmartStatus] returns nil with the ages it started from. *)
Theorem output_without_rows_passes (e : executer) :
  (forall disk,
      In disk disks ->
      exists status,
        selftest e disk = inr status
        /\ Strings.Contains status "#" = false) ->
  checkSmartStatus e = (None, 0, MaxInt32).
Proof.
  intros H. unfold checkSmartStatus. apply smartDisks_all_noRows.
  intros disk Hd. destruct (H disk Hd) as (status & He & Hc).
  exists status. split; [exact He|]. now apply smartRe_needs_a_hash.
Qed.

Lemma output_without_rows_passes_witness :
  (forall disk,
      In disk disks ->
      exists status,
        selftest (prints sampleNoDevice) disk = inr status
        /\ Strings.Contains status "#" = false)
  /\ checkSmartStatus (prints sampleNoDevice) = (None, 0, MaxInt32).
Proof.
  assert (H : forall disk,
             In disk disks ->
             exists status,
               selftest (prints sampleNoDevice) disk = inr status
               /\ Strings.Contains status "#" = false).
  { intros disk _. exists sampleNoDevice. split; reflexivity. }
  split; [exact H|]. exact (output_without_rows_passes _ H).
Defined.

(* ================================================================== *)
(** * The free space of the pools: a listing without a pool *)
(* ================================================================== *)

Lemma usageRe_expr (name : string) :
  expr (usageRe name)
  = Seq (Lit name)
        (Seq s_plus (Seq S_plus (Seq s_plus (Seq (Group 1 S_plus) s_plus)))).
Proof. reflexivity. Qed.

(** No match of the pattern of a pool in a text without its name. *)
Lemma usageRe_no_match (name : string) (s : string) (pos : nat) :
  Strings.Contains s name = false -> search (expr (usageRe name)) pos s = None.
Proof. rewrite usageRe_expr. apply search_without_literal. Qed.

Lemma usageLoop_crash (listing name : string) (names : list string) :
  In name names ->
  nth_error (FindStringSubmatch (usageRe name) listing) 1 = None ->
  forall usage, usageLoop listing names usage = Crash.
Proof.
  induction names as [|n names IH]; intros Hin Hn usage; [destruct Hin|].
  cbn [usageLoop].
  destruct (nth_error (FindStringSubmatch (usageRe n) listing) 1) as [v|] eqn:E;
    [|reflexivity].
  destruct Hin as [->|Hin]; [congruence|]. now apply IH.
Qed.

(** X19: [diskUsage] indexes the result of [FindStringSubmatch]
    without looking at its length.  When the output of [zfs list] does
    not contain the name of one of the pools of [diskUsagePools],
    [diskUsage] panics; it returns neither a map nor an error. *)
Theorem listing_without_a_pool_panics (e : executer) (listing name : string) :
  e "zfs" ["list"] = inr listing ->
  In name diskUsagePools ->
  Strings.Contains listing name = false ->
  diskUsage e = Crash.
Proof.
  intros He Hin Hc. unfold diskUsage. rewrite He.
  apply (usageLoop_crash listing name); [exact Hin|].
  unfold FindStringSubmatch. now rewrite (usageRe_no_match name listing 0 Hc).
Qed.

Lemma listing_without_a_pool_panics_witness :
  prints sampleNoDatasets "zfs" ["list"] = inr sampleNoDatasets
  /\ In "boot-pool" diskUsagePools
  /\ Strings.Contains sampleNoDatasets "boot-pool" = false
  /\ diskUsage (prints sampleNoDatasets) = Crash.
Proof.
  assert (H2 : In "boot-pool" diskUsagePools) by (left; reflexivity).
  split; [reflexivity|]. split; [exact H2|]. split; [reflexivity|].
  exact (listing_without_a_pool_panics (prints sampleNoDatasets)
           sampleNoDatasets "boot-pool" eq_refl H2 eq_refl).
Defined.

(* ================================================================== *)
(** * The free space of the pools: the column that is reported *)
(* ================================================================== *)

Lemma firstIndex_ge (sub : string) :
  forall s pos n, firstIndex sub s pos = Some n -> (pos <= n)%nat.
Proof.
  induction s as [|c s IH]; intros pos n H; cbn [firstIndex] in H.
  - destruct (String.prefix sub ""); inversion H; lia.
  - destruct (String.prefix sub (String c s)); [inversion H; lia|].
    apply IH in H. lia.
Qed.

(** The search finds the pattern of a name where the name occurs first,
    when the pattern matches there. *)
Lemma search_firstIndex (name : string) (r : regex) :
  forall s pos n m,
    firstIndex name s pos = Some n ->
    run (Seq (Lit name) r) n (drop (n - pos) s) []
        (fun e _ cs => Some (n, e, cs)) = Some m ->
    search (Seq (Lit name) r) pos s = Some m.
Proof.
  induction s as [|c s IH]; intros pos n m Hi Hr; rewrite search_unfold;
    cbn [firstIndex] in Hi.
  - destruct (String.prefix name "") eqn:P; [|discriminate].
    inversion Hi; subst. rewrite Nat.sub_diag in Hr. cbn [drop] in Hr.
    now rewrite Hr.
  - destruct (String.prefix name (String c s)) eqn:P.
    + inversion Hi; subst. rewrite Nat.sub_diag in Hr. cbn [drop] in Hr.
      now rewrite Hr.
    + cbn [run]. rewrite run_Lit_fail; [|exact P].
      apply (IH (S pos) n m Hi).
      pose proof (firstIndex_ge _ _ _ _ Hi) as G.
      replace (n - pos)%nat with (S (n - S pos)) in Hr by lia.
      exact Hr.
Qed.

Lemma span_class (f : ascii -> bool) (s : string) :
  exists a b, s = a ++ b /\ allChars f a = true /\ stops f b.
Proof.
  induction s as [|c s (a & b & -> & Ha & Hb)].
  - exists "", "". now repeat split.
  - destruct (f c) eqn:E.
    + exists (String c a), b. repeat split; [|exact Hb].
      simpl. now rewrite E, Ha.
    + exists "", (String c (a ++ b)). now repeat split.
Qed.

Lemma column_stops (w r : string) : column w -> stops class_s (w ++ r).
Proof.
  intros [Hne Hw]. destruct w as [|c w]; [contradiction|].
  simpl in *. apply andb_true_iff in Hw as [Hc _].
  unfold class_S in Hc. now apply negb_true_iff in Hc.
Qed.

Lemma blank_stops (w r : string) : blank w -> stops class_S (w ++ r).
Proof.
  intros [Hne Hw]. destruct w as [|c w]; [contradiction|].
  simpl in *. apply andb_true_iff in Hw as [Hc _].
  unfold class_S. now rewrite Hc.
Qed.

(** The match of the pattern of a pool on a row: the name, the second
    column, and the third column behind group 1. *)
Lemma usageRe_run (name ws1 used ws2 avail ws3 rest : string) (pos : nat) :
  blank ws1 -> column used -> blank ws2 -> column avail -> blank ws3 ->
  stops class_s rest ->
  run (expr (usageRe name)) pos
      (name ++ ws1 ++ used ++ ws2 ++ avail ++ ws3 ++ rest) []
      (fun e _ cs => Some (pos, e, cs))
  = Some (pos,
          (pos + String.length name + String.length ws1 + String.length used
           + String.length ws2 + String.length avail
           + String.length ws3)%nat,
          [(1%nat,
            ((pos + String.length name + String.length ws1
              + String.length used + String.length ws2)%nat,
             (pos + String.length name + String.length ws1
              + String.length used + String.length ws2
              + String.length avail)%nat))]).
Proof.
  intros B1 C1 B2 C2 B3 Hr. rewrite usageRe_expr.
  cbn [run]. rewrite run_Lit.
  apply run_plus_greedy;
    [exact (proj1 B1)|exact (proj2 B1)|now apply column_stops|].
  apply run_plus_greedy;
    [exact (proj1 C1)|exact (proj2 C1)|now apply blank_stops|].
  apply run_plus_greedy;
    [exact (proj1 B2)|exact (proj2 B2)|now apply column_stops|].
  apply run_plus_greedy;
    [exact (proj1 C2)|exact (proj2 C2)|now apply blank_stops|].
  apply run_plus_greedy;
    [exact (proj1 B3)|exact (proj2 B3)|exact Hr|].
  reflexivity.
Qed.

Lemma usageRe_row (listing name avail : string) :
  rowOf listing name avail ->
  nth_error (FindStringSubmatch (usageRe name) listing) 1 = Some avail.
Proof.
  intros (pre & ws1 & used & ws2 & ws3 & rest & E & Hi & B1 & C1 & B2 & C2
          & B3).
  destruct (span_class class_s rest) as (sp & rest' & -> & Hsp & Hst).
  assert (B3' : blank (ws3 ++ sp)).
  { destruct B3 as [Hne Hw]. split.
    - destruct ws3; [contradiction|discriminate].
    - now rewrite allChars_app, Hw, Hsp. }
  rewrite <- (string_app_assoc ws3 sp rest') in E.
  unfold FindStringSubmatch. rewrite usageRe_expr.
  rewrite (search_firstIndex name
             (Seq s_plus
                  (Seq S_plus (Seq s_plus (Seq (Group 1 S_plus) s_plus))))
             listing 0 (String.length pre) _ Hi
             ltac:(rewrite Nat.sub_0_r, <- usageRe_expr; rewrite E at 1;
                   rewrite drop_app;
                   apply (usageRe_run name ws1 used ws2 avail (ws3 ++ sp)
                                      rest');
                   assumption)).
  cbn [submatches NumSubexp usageRe seq map span Nat.eqb nth_error].
  f_equal.
  replace (String.length pre + String.length name + String.length ws1
           + String.length used + String.length ws2 + String.length avail
           - (String.length pre + String.length name + String.length ws1
              + String.length used + String.length ws2))%nat
    with (String.length avail) by lia.
  replace (String.length pre + String.length name + String.length ws1
           + String.length used + String.length ws2)%nat
    with (String.length (pre ++ name ++ ws1 ++ used ++ ws2))
    by (rewrite !string_length_app; lia).
  replace listing
    with ((pre ++ name ++ ws1 ++ used ++ ws2)
            ++ avail ++ (ws3 ++ sp) ++ rest')
    by (rewrite E, !string_app_assoc; reflexivity).
  apply substring_at.
Qed.

(** X20: when, for each pool of [diskUsagePools], the place where the
    name of the pool occurs first in the output of [zfs list] begins a row
    of columns separated by white space, [diskUsage] returns the map from
    each pool to the third column of its row, the space available. *)
Theorem diskUsage_reads_the_third_column (e : executer)
        (listing bootAvail safeAvail : string) :
  e "zfs" ["list"] = inr listing ->
  rowOf listing "boot-pool" bootAvail ->
  rowOf listing "primarySafe" safeAvail ->
  diskUsage e = Val [("primarySafe", safeAvail); ("boot-pool", bootAvail)]
  /\ mapGet [("primarySafe", safeAvail); ("boot-pool", bootAvail)] "boot-pool"
     = Some bootAvail
  /\ mapGet [("primarySafe", safeAvail); ("boot-pool", bootAvail)]
            "primarySafe"
     = Some safeAvail.
Proof.
  intros He Hb Hs. unfold diskUsage. rewrite He.
  cbn [usageLoop diskUsagePools].
  rewrite (usageRe_row _ _ _ Hb), (usageRe_row _ _ _ Hs).
  repeat split.
Qed.

Lemma rowOf_boot_pool : rowOf sampleList "boot-pool" "16.0G".
Proof.
  exists (String.substring 0 58 sampleList), "              ", "2.51G", "  ",
         "       ", (String.substring 100 400 sampleList).
  split; [vm_compute; reflexivity|]. split; [vm_compute; reflexivity|].
  repeat split; solve [discriminate|reflexivity].
Defined.

Lemma rowOf_primarySafe : rowOf sampleList "primarySafe" "16.5G".
Proof.
  exists (String.substring 0 162 sampleList), "            ", "5.11T", "  ",
         "      ", (String.substring 203 400 sampleList).
  split; [vm_compute; reflexivity|]. split; [vm_compute; reflexivity|].
  repeat split; solve [discriminate|reflexivity].
Defined.

Lemma diskUsage_reads_the_third_column_witness :
  prints sampleList "zfs" ["list"] = inr sampleList
  /\ rowOf sampleList "boot-pool" "16.0G"
  /\ rowOf sampleList "primarySafe" "16.5G"
  /\ diskUsage (prints sampleList)
     = Val [("primarySafe", "16.5G"); ("boot-pool", "16.0G")]
  /\ mapGet [("primarySafe", "16.5G"); ("boot-pool", "16.0G")] "boot-pool"
     = Some "16.0G"
  /\ mapGet [("primarySafe", "16.5G"); ("boot-pool", "16.0G")] "primarySafe"
     = Some "16.5G".
Proof.
  split; [reflexivity|]. split; [exact rowOf_boot_pool|].
  split; [exact rowOf_primarySafe|].
  exact (diskUsage_reads_the_third_column (prints sampleList) sampleList
           "16.0G" "16.5G" eq_refl rowOf_boot_pool rowOf_primarySafe).
Defined.

(* ================================================================== *)
(** * The free space of the pools: what a map holds *)
(* ================================================================== *)

(** Group 1 of a match of the pattern of a pool is a word. *)
Lemma usageRe_submatch_column (listing name v : string) :
  nth_error (FindStringSubmatch (usageRe name) listing) 1 = Some v ->
  column v.
Proof.
  unfold FindStringSubmatch.
  destruct (search (expr (usageRe name)) 0 listing) as [[[b e] cs]|] eqn:S;
    [|discriminate].
  apply (search_sound listing) in S as (sb & se & Hat & Hm & _);
    [|exists ""; now split].
  rewrite usageRe_expr in Hm.
  apply matches_seq_inv in Hm as (p1 & s1 & c1 & M1 & Hm).
  pose proof (matches_at_pos _ _ _ _ _ _ _ _ Hat M1) as A1.
  apply matches_seq_inv in Hm as (p2 & s2 & c2 & M2 & Hm).
  pose proof (matches_at_pos _ _ _ _ _ _ _ _ A1 M2) as A2.
  apply matches_seq_inv in Hm as (p3 & s3 & c3 & M3 & Hm).
  pose proof (matches_at_pos _ _ _ _ _ _ _ _ A2 M3) as A3.
  apply matches_seq_inv in Hm as (p4 & s4 & c4 & M4 & Hm).
  pose proof (matches_at_pos _ _ _ _ _ _ _ _ A3 M4) as A4.
  apply matches_seq_inv in Hm as (p5 & s5 & c5 & M5 & M6).
  apply matches_group_inv in M5 as (c' & -> & M5).
  apply (matches_plus_class class_s) in M6 as [-> _].
  pose proof (matches_reads _ _ _ _ _ _ _ M5) as (u & Hu & He).
  apply (matches_plus_class class_S) in M5 as (_ & x & w & Hs & Hw).
  assert (u = String x w).
  { rewrite Hs in Hu. symmetry. eapply string_app_inv_tail; eauto. }
  subst u. destruct A4 as (pre & -> & <-).
  cbn [submatches NumSubexp usageRe seq map nth_error span fst snd].
  rewrite Nat.eqb_refl. rewrite He.
  replace (String.length pre + String.length (String x w)
           - String.length pre)%nat
    with (String.length (String x w)) by lia.
  rewrite Hs, substring_at. intros H; inversion H; subst.
  split; [discriminate|exact Hw].
Qed.

Lemma usageLoop_outcomes (listing : string) (names : list string) :
  forall usage,
    usageLoop listing names usage = Crash
    \/ exists vs,
        List.length vs = List.length names
        /\ Forall column vs
        /\ usageLoop listing names usage
           = Val (fold_left (fun u kv => mapSet u (fst kv) (snd kv))
                            (combine names vs) usage).
Proof.
  induction names as [|n names IH]; intros usage; cbn [usageLoop].
  - right. exists []. repeat split. constructor.
  - destruct (nth_error (FindStringSubmatch (usageRe n) listing) 1)
      as [v|] eqn:E; [|now left].
    destruct (IH (mapSet usage n v)) as [C|(vs & L & F & V)]; [now left|].
    right. exists (v :: vs). split; [simpl; now rewrite L|].
    split; [|exact V]. constructor; [|exact F].
    eapply usageRe_submatch_column; eauto.
Qed.

(** X21: with an output of [zfs list], [diskUsage] never returns an
    error.  It panics, or it returns a map with a value for each of the
    two pools of [diskUsagePools] and for nothing else, and each value is
    a word: not empty and without white space. *)
Theorem diskUsage_map_or_panic (e : executer) (listing : string) :
  e "zfs" ["list"] = inr listing ->
  diskUsage e = Crash
  \/ exists bootAvail safeAvail,
      diskUsage e = Val [("primarySafe", safeAvail); ("boot-pool", bootAvail)]
      /\ column bootAvail /\ column safeAvail.
Proof.
  intros He. unfold diskUsage. rewrite He.
  destruct (usageLoop_outcomes listing diskUsagePools [])
    as [C|(vs & L & F & V)]; [now left|]. right.
  destruct vs as [|a [|b [|c vs]]]; try discriminate.
  exists a, b. split; [exact V|].
  inversion F as [|? ? Fa F']; subst. inversion F' as [|? ? Fb _]; subst.
  now split.
Qed.

Lemma diskUsage_map_or_panic_witness :
  prints sampleList "zfs" ["list"] = inr sampleList
  /\ (diskUsage (prints sampleList) = Crash
      \/ exists bootAvail safeAvail,
          diskUsage (prints sampleList)
          = Val [("primarySafe", safeAvail); ("boot-pool", bootAvail)]
          /\ column bootAvail /\ column safeAvail).
Proof.
  split; [reflexivity|].
  exact (diskUsage_map_or_panic (prints sampleList) sampleList eq_refl).
Defined.
